(** * PdfNarrator: chapter detection, chunking and the narration loop

    A shallow embedding of [main.py].  Python values are modelled as follows.

    - [int] is [Z] (unbounded, as in Python).
    - [str] is [text], a list of characters.  The characters are the code
      points U+0000..U+00FF together with the en dash U+2013 and the em dash
      U+2014, which the program names in a pattern; the model covers the
      strings over these code points, and the classification functions below
      follow the Unicode data for them.
    - a [fitz.Document] is a record holding its outline and its page texts.
    - [input()] reads from a list of lines; [print] and the speech engine
      append to an event trace.
    - an uncaught exception ends the run with an explicit outcome. *)

From Stdlib Require Import ZArith List Ascii String Lia Bool.
From stdpp Require Import gmap list sorting.
Import ListNotations.
Open Scope string_scope.
Open Scope list_scope.
Open Scope Z_scope.

(** ** Python strings *)

Inductive char : Type :=
| Latin (a : Ascii.ascii)
| EnDash
| EmDash.

Coercion Latin : Ascii.ascii >-> char.
Bind Scope char_scope with char.

#[global] Instance char_eq_dec : EqDecision char.
Proof. solve_decision. Defined.

Definition text := list char.

Definition lit (s : string) : text := map Latin (list_ascii_of_string s).
Coercion lit : string >-> text.

Module Py.

(** [ord(c)] *)
Definition code (c : char) : N :=
  match c with
  | Latin a => N_of_ascii a
  | EnDash => 8211
  | EmDash => 8212
  end.

Definition between (lo hi : N) (c : char) : bool :=
  ((lo <=? code c) && (code c <=? hi))%N.

(** [len(s)] *)
Definition len (s : text) : Z := Z.of_nat (length s).

(** Truth value of a string: [if s], [if not s]. *)
Definition truthy (s : text) : bool :=
  match s with [] => false | _ :: _ => true end.

(** Unicode white space ([str.isspace], [str.strip], [\s] of [re]):
    TAB..CR, FS..US, SPACE, NEL and NBSP. *)
Definition isspace (c : char) : bool :=
  between 9 13 c || between 28 32 c || (code c =? 133)%N || (code c =? 160)%N.

(** Line boundaries of [str.splitlines]: LF, VT, FF, CR, FS, GS, RS, NEL. *)
Definition islinebreak (c : char) : bool :=
  between 10 13 c || between 28 30 c || (code c =? 133)%N.

(** Decimal digits, the ones [int] accepts. *)
Definition isdecimal_char (c : char) : bool := between 48 57 c.

(** Characters with the Unicode digit property ([str.isdigit]): the decimal
    digits and the superscripts U+00B2, U+00B3, U+00B9. *)
Definition isdigit_char (c : char) : bool :=
  isdecimal_char c || (code c =? 178)%N || (code c =? 179)%N || (code c =? 185)%N.

(** Alphanumeric characters ([str.isalnum]); with the underscore they are
    the word characters [\w] of [re]. *)
Definition isalnum_char (c : char) : bool :=
  between 48 57 c || between 65 90 c || between 97 122 c
  || (code c =? 170)%N || between 178 179 c || (code c =? 181)%N
  || between 185 186 c || between 188 190 c
  || between 192 214 c || between 216 246 c || between 248 255 c.

Definition isword (c : char) : bool := isalnum_char c || (code c =? 95)%N.

(** Lower-casing of one character: A..Z and the capital letters
    U+00C0..U+00DE (U+00D7 is the multiplication sign). *)
Definition lower_char (c : char) : char :=
  if between 65 90 c || (between 192 222 c && negb (code c =? 215)%N)
  then Latin (ascii_of_N (code c + 32)) else c.

(** [s.lower()] *)
Definition lower (s : text) : text := map lower_char s.

Fixpoint lstrip (s : text) : text :=
  match s with
  | c :: t => if isspace c then lstrip t else s
  | [] => []
  end.

Definition rstrip (s : text) : text := rev (lstrip (rev s)).

(** [s.strip()] *)
Definition strip (s : text) : text := rstrip (lstrip s).

(** [s.isdigit()]: non-empty and made of digit characters only. *)
Definition isdigit (s : text) : bool := truthy s && forallb isdigit_char s.

(** [s.splitlines()]: [cur] is the line being read; CR LF is one boundary;
    a final line without boundary is kept when it is not empty. *)
Fixpoint splitlines_from (cur s : text) : list text :=
  match s with
  | [] => if truthy cur then [cur] else []
  | c :: t =>
      if islinebreak c then
        cur :: match t with
               | d :: t' =>
                   if ((code c =? 13) && (code d =? 10))%N
                   then splitlines_from [] t'
                   else splitlines_from [] t
               | [] => splitlines_from [] t
               end
      else splitlines_from (cur ++ [c]) t
  end.

Definition splitlines (s : text) : list text := splitlines_from [] s.

(** [int(s)] in base ten.  [None] stands for [ValueError].  The literal is
    an optional sign and decimal digits, single underscores allowed between
    digits, white space allowed around it.  The white space of [int] is
    TAB..CR, SPACE, NEL and NBSP.  The bound that recent versions of Python
    put on the number of digits is left out. *)
Definition digit_value (c : char) : Z := Z.of_N (code c) - 48.

Definition int_space (c : char) : bool :=
  between 9 13 c || (code c =? 32)%N || (code c =? 133)%N || (code c =? 160)%N.

Fixpoint int_skip (s : text) : text :=
  match s with
  | c :: t => if int_space c then int_skip t else s
  | [] => []
  end.

Fixpoint int_digits (acc : Z) (after_digit : bool) (s : text) : option Z :=
  match s with
  | [] => if after_digit then Some acc else None
  | c :: t =>
      if isdecimal_char c then int_digits (10 * acc + digit_value c) true t
      else if ((code c =? 95)%N && after_digit)
      then match t with
           | d :: _ => if isdecimal_char d then int_digits acc false t else None
           | [] => None
           end
      else if after_digit && forallb int_space s then Some acc
      else None
  end.

Definition int (s : text) : option Z :=
  match int_skip s with
  | c :: t =>
      if (code c =? 45)%N then Z.opp <$> int_digits 0 false t
      else if (code c =? 43)%N then int_digits 0 false t
      else int_digits 0 false (c :: t)
  | [] => None
  end.

End Py.

(** ** Regular expressions

    A backtracking matcher with the semantics of Python's [re] for the
    constructs the program uses: concatenation, ordered alternation, greedy
    repetition, capturing groups, [^], [$], [\b] and a one-character
    look-behind.  Alternatives are tried left to right, repetitions take the
    longest iteration count first, and the first overall success is the
    match. *)

Module Re.

Inductive regex : Type :=
| Empty
| Class (p : char -> bool)
| Seq (r1 r2 : regex)
| Alt (r1 r2 : regex)
| Star (r : regex)
| Group (n : nat) (r : regex)
| Bol
| Eol
| WordBoundary
| Behind (p : char -> bool).

(** A position in the subject string, with the groups captured so far.
    [prev] is the character before the position, [rest] what follows. *)
Record cursor : Type := Cursor {
  prev : option char;
  rest : text;
  groups : list (nat * text);
  lastindex : option nat
}.

Definition start (s : text) : cursor := Cursor None s [] None.

Definition at_position (p : option char) (s : text) : cursor := Cursor p s [] None.

Definition advance (a : char) (t : text) (c : cursor) : cursor :=
  Cursor (Some a) t (groups c) (lastindex c).

(** Closing group [n], opened at [c0], at position [c]. *)
Definition close (n : nat) (c0 c : cursor) : cursor :=
  Cursor (prev c) (rest c)
         ((n, take (length (rest c0) - length (rest c))%nat (rest c0)) :: groups c)
         (Some n).

Definition word_before (c : cursor) : bool :=
  match prev c with Some a => Py.isword a | None => false end.

Definition word_after (c : cursor) : bool :=
  match rest c with a :: _ => Py.isword a | [] => false end.

(** Greedy repetition of [body], at most [n] times: one more iteration is
    tried first, and an iteration has to consume a character. *)
Fixpoint iterate (body : (cursor -> option cursor) -> cursor -> option cursor)
  (k : cursor -> option cursor) (n : nat) (c : cursor) {struct n} : option cursor :=
  match n with
  | O => k c
  | S n' =>
      match body (fun c' =>
                    if (length (rest c') <? length (rest c))%nat
                    then iterate body k n' c' else None) c with
      | Some m => Some m
      | None => k c
      end
  end.

(** [exec r k c] matches [r] at [c] and hands the position reached to the
    continuation [k]; a failing continuation makes the matcher backtrack. *)
Fixpoint exec (r : regex) (k : cursor -> option cursor) (c : cursor)
  {struct r} : option cursor :=
  match r with
  | Empty => k c
  | Class p =>
      match rest c with
      | a :: t => if p a then k (advance a t c) else None
      | [] => None
      end
  | Seq r1 r2 => exec r1 (exec r2 k) c
  | Alt r1 r2 =>
      match exec r1 k c with
      | Some m => Some m
      | None => exec r2 k c
      end
  | Star r1 => iterate (exec r1) k (length (rest c)) c
  | Group n r1 => exec r1 (fun c' => k (close n c c')) c
  | Bol => match prev c with None => k c | Some _ => None end
  | Eol =>
      match rest c with
      | [] => k c
      | [a] => if (Py.code a =? 10)%N then k c else None
      | _ => None
      end
  | WordBoundary => if xorb (word_before c) (word_after c) then k c else None
  | Behind p =>
      match prev c with
      | Some a => if p a then k c else None
      | None => None
      end
  end.

(** [pattern.match(s)]: a match starting at the beginning of [s]. *)
Definition match_ (r : regex) (s : text) : option cursor := exec r Some (start s).

(** [pattern.search(s)]: the leftmost position with a match. *)
Fixpoint search_from (r : regex) (p : option char) (s : text) : option cursor :=
  match exec r Some (at_position p s) with
  | Some m => Some m
  | None =>
      match s with
      | [] => None
      | a :: t => search_from r (Some a) t
      end
  end.

Definition search (r : regex) (s : text) : option cursor := search_from r None s.

(** [m.group(n)] *)
Fixpoint assoc (n : nat) (g : list (nat * text)) : option text :=
  match g with
  | [] => None
  | (i, s) :: g' => if (i =? n)%nat then Some s else assoc n g'
  end.

Definition group (m : cursor) (n : nat) : option text := assoc n (groups m).

(** A match of [r] at position [(p, s)] that consumes at least one
    character; the result is the position after it.  The patterns used with
    [sub] and [split] below cannot match the empty string. *)
Definition match_here (r : regex) (p : option char) (s : text) : option cursor :=
  match exec r Some (at_position p s) with
  | Some m => if (length (rest m) <? length s)%nat then Some m else None
  | None => None
  end.

(** [re.sub(r, repl, s)] for a constant replacement: scan left to right,
    replace a match and go on behind it, copy a character otherwise. *)
Fixpoint sub_from (fuel : nat) (r : regex) (repl : text)
  (p : option char) (s : text) : text :=
  match fuel with
  | O => s
  | S fuel' =>
      match match_here r p s with
      | Some m => repl ++ sub_from fuel' r repl (prev m) (rest m)
      | None =>
          match s with
          | [] => []
          | a :: t => a :: sub_from fuel' r repl (Some a) t
          end
      end
  end.

Definition sub (r : regex) (repl s : text) : text :=
  sub_from (S (length s)) r repl None s.

(** [re.split(r, s)] for a pattern without groups: [cur] is the piece being
    read. *)
Fixpoint split_from (fuel : nat) (r : regex) (cur : text)
  (p : option char) (s : text) : list text :=
  match fuel with
  | O => [cur ++ s]
  | S fuel' =>
      match match_here r p s with
      | Some m => cur :: split_from fuel' r [] (prev m) (rest m)
      | None =>
          match s with
          | [] => [cur]
          | a :: t => split_from fuel' r (cur ++ [a]) (Some a) t
          end
      end
  end.

Definition split (r : regex) (s : text) : list text :=
  split_from (S (length s)) r [] None s.

(** Pattern syntax. *)
Definition cat (rs : list regex) : regex := fold_right Seq Empty rs.
Definition plus (r : regex) : regex := Seq r (Star r).
Definition opt (r : regex) : regex := Alt r Empty.

Definition char_eqb (a b : char) : bool := (Py.code a =? Py.code b)%N.

(** A literal character, and a literal under [re.IGNORECASE]. *)
Definition chr (a : char) : regex := Class (char_eqb a).
Definition chr_i (a : char) : regex :=
  Class (fun b => char_eqb (Py.lower_char a) (Py.lower_char b)).

Definition word_i (s : text) : regex := cat (map chr_i s).

(** [[...]] over listed characters, plain and under [re.IGNORECASE]. *)
Definition one_of (s : text) : regex := Class (fun b => existsb (char_eqb b) s).
Definition one_of_i (s : text) : regex :=
  Class (fun b => existsb (char_eqb (Py.lower_char b)) (Py.lower s)).

(** [[0-9]], [[a-z]] under [re.IGNORECASE], [\s] and [.] *)
Definition digit : regex := Class (Py.between 48 57).
Definition letter_i : regex := Class (fun b => Py.between 97 122 (Py.lower_char b)).
Definition space : regex := Class Py.isspace.
Definition dot : regex := Class (fun b => negb (Py.code b =? 10)%N).

End Re.

Import Re.

(** ** The program *)

(** [CHAPTER_PATTERNS], all compiled with [re.IGNORECASE].  On the characters
    of the model a letter class matches the letters it lists in either case;
    the few letters beyond U+00FF that Python also lets such a class match
    (U+0130, U+0131, U+017F, U+212A) are no characters of the model.  With a
    blank between the pieces of each pattern, the patterns read
    - [^ \s* (chapter) \s+ ([0-9]+|[ivxlcdm]+) \b \s* ( .* ) $]
    - [^ \s* (chapter) \s+ ([a-z]+) \b \s* ( .* ) $]
    - [^ \s* (ch\.?|chap\.?) \s* [-:]? \s* ([0-9]+|[ivxlcdm]+) \b \s* ( .* ) $] *)
Definition numeral : regex := Alt (plus digit) (plus (one_of_i "ivxlcdm")).

Definition CHAPTER_PATTERNS : list regex :=
  [ cat [Bol; Star space; Group 1 (word_i "chapter"); plus space;
         Group 2 numeral; WordBoundary; Star space; Group 3 (Star dot); Eol];
    cat [Bol; Star space; Group 1 (word_i "chapter"); plus space;
         Group 2 (plus letter_i); WordBoundary; Star space; Group 3 (Star dot); Eol];
    cat [Bol; Star space;
         Group 1 (Alt (Seq (word_i "ch") (opt (chr ".")))
                      (Seq (word_i "chap") (opt (chr "."))));
         Star space; opt (one_of "-:"); Star space;
         Group 2 numeral; WordBoundary; Star space; Group 3 (Star dot); Eol] ].

(** [TOC_CHAPTER_HINT]: [\bchapter\b|\bch\.\b|\bchap\.\b] with
    [re.IGNORECASE]. *)
Definition TOC_CHAPTER_HINT : regex :=
  Alt (cat [WordBoundary; word_i "chapter"; WordBoundary])
      (Alt (cat [WordBoundary; word_i "ch"; chr "."; WordBoundary])
           (cat [WordBoundary; word_i "chap"; chr "."; WordBoundary])).

(** [\s+] *)
Definition WHITESPACE_RUN : regex := plus space.

(** The characters of the class in [^[-:–—]+\s*]: hyphen, colon, en dash
    and em dash. *)
Definition SEPARATORS : text := lit "-:" ++ [EnDash; EmDash].

(** [^[-:–—]+\s*], the separator in front of a title. *)
Definition TITLE_SEPARATOR : regex := cat [Bol; plus (one_of SEPARATORS); Star space].

(** [\n\s*\n], a blank-line paragraph boundary. *)
Definition PARAGRAPH_BREAK : regex := cat [chr "010"; Star space; chr "010"].

(** [(?<=[.!?])\s+], white space behind the end of a sentence. *)
Definition ends_sentence (b : char) : bool := existsb (char_eqb b) (lit ".!?").

Definition SENTENCE_BREAK : regex := Seq (Behind ends_sentence) (plus space).

Record Chapter : Type := mkChapter {
  label : text;
  title : text;
  start_page : Z;
  end_page : Z
}.

(** An outline entry [[level, title, page]], the page one-based. *)
Definition toc_entry : Type := Z * text * Z.

Record Document : Type := mkDocument {
  get_toc : list toc_entry;
  pages : list text
}.

(** [len(doc)] *)
Definition len_doc (doc : Document) : Z := Z.of_nat (length (pages doc)).

(** [range(n)] *)
Definition range (n : Z) : list Z := map Z.of_nat (seq 0 (Z.to_nat n)).

Definition normalize_whitespace (s : text) : text :=
  Py.strip (Re.sub WHITESPACE_RUN " " s).

(** [page_text(doc, page_index)]: the text of the page, empty when the page
    has none.  [None] stands for the [IndexError] of a page that is not in
    the document; indices below zero, which the program never passes, are
    treated as outside the document. *)
Definition page_text (doc : Document) (page_index : Z) : option text :=
  if page_index <? 0 then None else pages doc !! Z.to_nat page_index.

(** What the loop over [CHAPTER_PATTERNS] returns for a match [m].  Every
    match of these patterns binds its groups 2 and 3 (lemma
    [chapter_patterns_bind_groups]), so the defaults below are never used. *)
Definition heading_of_match (m : cursor) : text * text :=
  let label := normalize_whitespace (default [] (group m 2)) in
  let title :=
    normalize_whitespace
      (match lastindex m with
       | Some i => if (3 <=? i)%nat then default [] (group m 3) else []
       | None => []
       end) in
  let title := Py.strip (Re.sub TITLE_SEPARATOR [] title) in
  (label, title).

Fixpoint match_patterns (pats : list regex) (ln : text) : option (text * text) :=
  match pats with
  | [] => None
  | pat :: pats' =>
      match Re.match_ pat ln with
      | Some m => Some (heading_of_match m)
      | None => match_patterns pats' ln
      end
  end.

(** The loop over [scan_lines]. *)
Fixpoint scan_for_heading (scan_lines : list text) : option (text * text) :=
  match scan_lines with
  | [] => None
  | ln :: more =>
      if 140 <? Py.len ln then scan_for_heading more
      else match match_patterns CHAPTER_PATTERNS ln with
           | Some hit => Some hit
           | None => scan_for_heading more
           end
  end.

(** [[ln.strip() for ln in text.splitlines() if ln.strip()]] *)
Definition stripped_lines (txt : text) : list text :=
  map Py.strip (List.filter (fun ln => Py.truthy (Py.strip ln)) (Py.splitlines txt)).

Definition find_chapter_heading_on_page (txt : text) : option (text * text) :=
  let lines := stripped_lines txt in
  match lines with
  | [] => None
  | _ => scan_for_heading (take 25 lines)
  end.

(** *** Chapters from the outline *)

Definition hints_chapter (e : toc_entry) : bool :=
  let '(lvl, title, page) := e in
  match Re.search TOC_CHAPTER_HINT title with Some _ => true | None => false end.

Definition at_level_one (e : toc_entry) : bool :=
  let '(lvl, title, page) := e in lvl =? 1.

(** The entries the outline detector works on. *)
Definition toc_candidates (toc : list toc_entry) : list toc_entry :=
  let chapter_like := List.filter hints_chapter toc in
  match chapter_like with
  | _ :: _ => chapter_like
  | [] => List.filter at_level_one toc
  end.

(** [max(0, min(int(page1) - 1, len(doc) - 1))] *)
Definition clamp_start (n page1 : Z) : Z := Z.max 0 (Z.min (page1 - 1) (n - 1)).

(** One round of the loop that fills [starts] and [seen_pages]. *)
Definition add_start (n : Z) (st : list (Z * text) * gset Z) (e : toc_entry)
  : list (Z * text) * gset Z :=
  let '(starts, seen_pages) := st in
  let '(lvl, title, page1) := e in
  if page1 =? 0 then st
  else
    let start0 := clamp_start n page1 in
    if decide (start0 ∈ seen_pages) then st
    else (starts ++ [(start0, normalize_whitespace title)], {[start0]} ∪ seen_pages).

Definition collect_starts (n : Z) (entries : list toc_entry) : list (Z * text) :=
  (fold_left (add_start n) entries ([], ∅)).1.

(** [starts.sort(key=lambda x: x[0])]: a stable sort on the start page. *)
Fixpoint insert_by_start (x : Z * text) (l : list (Z * text)) : list (Z * text) :=
  match l with
  | [] => [x]
  | y :: l' => if x.1 <=? y.1 then x :: l else y :: insert_by_start x l'
  end.

Definition sort_by_start (l : list (Z * text)) : list (Z * text) :=
  fold_right insert_by_start [] l.

(** The loop over [enumerate(starts)]. *)
Definition chapters_of_starts (n : Z) (starts : list (Z * text)) : list Chapter :=
  imap (fun i '(sp, title) =>
          let ep := match starts !! (i + 1)%nat with
                    | Some next => next.1 - 1
                    | None => n - 1
                    end in
          mkChapter "TOC" title sp (Z.max sp ep))
       starts.

(** One round of the final pass, which drops a chapter that does not start
    behind the last one kept. *)
Definition keep_chapter (st : list Chapter * Z) (ch : Chapter) : list Chapter * Z :=
  let '(filtered, last_sp) := st in
  if 1 <=? start_page ch - last_sp then (filtered ++ [ch], start_page ch)
  else (filtered, last_sp).

Definition remove_bogus (chapters : list Chapter) : list Chapter :=
  (fold_left keep_chapter chapters ([], -9999)).1.

Definition chapters_from_toc (doc : Document) : list Chapter :=
  let toc := get_toc doc in
  match toc with
  | [] => []
  | _ :: _ =>
      let entries := toc_candidates toc in
      let starts := sort_by_start (collect_starts (len_doc doc) entries) in
      match starts with
      | [] => []
      | _ :: _ => remove_bogus (chapters_of_starts (len_doc doc) starts)
      end
  end.

(** *** Chapters from the page texts *)

Definition hit : Type := Z * text * text.

Definition record_hit (doc : Document) (hits : list hit) (i : Z) : list hit :=
  match page_text doc i with
  | Some txt =>
      match find_chapter_heading_on_page txt with
      | Some (label, title) => hits ++ [(i, label, title)]
      | None => hits
      end
  | None => hits
  end.

Definition scan_hits (doc : Document) : list hit :=
  fold_left (record_hit doc) (range (len_doc doc)) [].

(** One round of the pass that drops headings repeated in running headers. *)
Definition keep_hit (st : list hit * Z) (h : hit) : list hit * Z :=
  let '(dedup, last_page) := st in
  let '(page_i, label, title) := h in
  if 2 <=? page_i - last_page then (dedup ++ [h], page_i) else (dedup, last_page).

Definition dedup_hits (hits : list hit) : list hit :=
  (fold_left keep_hit hits ([], -9999)).1.

Definition chapters_of_hits (n : Z) (dedup : list hit) : list Chapter :=
  imap (fun idx '(sp, label, title) =>
          let ep := match dedup !! (idx + 1)%nat with
                    | Some next => next.1.1 - 1
                    | None => n - 1
                    end in
          mkChapter label title sp (Z.max sp ep))
       dedup.

Definition chapters_by_scanning (doc : Document) : list Chapter :=
  let hits := scan_hits doc in
  match hits with
  | [] => []
  | _ :: _ => chapters_of_hits (len_doc doc) (dedup_hits hits)
  end.

Definition detect_chapters (doc : Document) : list Chapter :=
  let toc_ch := chapters_from_toc doc in
  match toc_ch with
  | _ :: _ => toc_ch
  | [] => chapters_by_scanning doc
  end.

(** *** Chunks for the speech engine *)

(** [[p.strip() for p in re.split(r"\n\s*\n", text) if p.strip()]] *)
Definition paragraphs (txt : text) : list text :=
  map Py.strip (List.filter (fun p => Py.truthy (Py.strip p)) (Re.split PARAGRAPH_BREAK txt)).

(** One round of the loop over the sentences; the state is [chunks] and
    [buf]. *)
Definition pack_sentence (max_chars : Z) (st : list text * text) (part : text)
  : list text * text :=
  let '(chunks, buf) := st in
  let part := Py.strip part in
  if negb (Py.truthy part) then st
  else if Py.len buf + Py.len part + 1 <=? max_chars
       then (chunks, Py.strip (buf ++ lit " " ++ part))
       else ((if Py.truthy buf then chunks ++ [buf] else chunks), part).

(** One round of the loop over the paragraphs. *)
Definition chunk_paragraph (max_chars : Z) (chunks : list text) (p : text) : list text :=
  let p := normalize_whitespace p in
  if Py.len p <=? max_chars then chunks ++ [p]
  else
    let parts := Re.split SENTENCE_BREAK p in
    let '(chunks, buf) := fold_left (pack_sentence max_chars) parts (chunks, []) in
    if Py.truthy buf then chunks ++ [buf] else chunks.

Definition chunk_text_for_speaking (txt : text) (max_chars : Z) : list text :=
  fold_left (chunk_paragraph max_chars) (paragraphs txt) [].

(** *** The narration loop *)

Inductive exn : Type := ValueError | IndexError.

(** What the session produces: the banner of a page, a printed line, the
    line listing the controls, a chunk handed to the speech engine. *)
Inductive event : Type :=
| Narrating (page : Z)
| Print (msg : text)
| Controls
| Say (t : text).

(** How a run ends: the range is exhausted, the user stopped it, the input
    ran out while the loop was waiting for a line, or an exception escaped. *)
Inductive outcome : Type :=
| Finished
| Stopped
| AwaitingInput (page : Z)
| Raised (e : exn).

Definition speak_text (t : text) : list event :=
  let t := normalize_whitespace t in
  if Py.truthy t then [Say t] else [].

(** What is said and printed on entering [page], given its text. *)
Definition narrate_page (page : Z) (raw : text) : list event :=
  let txt := Py.strip raw in
  [Narrating page]
  ++ (if Py.truthy txt
      then flat_map speak_text (chunk_text_for_speaking txt 900)
      else [Print "(No readable text on this page.)"])
  ++ [Controls].

(** The branch of the command [g]: [val] is the line read for the target.
    The result is the lines printed and the next page, or the exception. *)
Definition goto_page (start_page end_page page : Z) (line : text)
  : exn + (list event * Z) :=
  let val := Py.strip line in
  if Py.isdigit val then
    match Py.int val with
    | None => inl ValueError
    | Some n =>
        let target := n - 1 in
        if (start_page <=? target) && (target <=? end_page)
        then inr ([], target)
        else inr ([Print "Out of range."], page)
    end
  else inr ([Print "Invalid page number."], page).

Definition before (evs : list event) (r : list event * outcome) : list event * outcome :=
  (evs ++ r.1, r.2).

(** The [while] loop of [narrate_pages], started at [page]; every round
    reads at least one line of [inputs]. *)
Fixpoint narrate_from (doc : Document) (start_page end_page : Z)
  (inputs : list text) (page : Z) {struct inputs} : list event * outcome :=
  if end_page <? page then ([], Finished)
  else
    match page_text doc page with
    | None => ([], Raised IndexError)
    | Some raw =>
        before (narrate_page page raw)
          match inputs with
          | [] => ([], AwaitingInput page)
          | line :: inputs' =>
              let cmd := Py.lower (Py.strip line) in
              if bool_decide (cmd = []) then
                narrate_from doc start_page end_page inputs' (page + 1)
              else if bool_decide (cmd = lit "b") then
                narrate_from doc start_page end_page inputs' (Z.max start_page (page - 1))
              else if bool_decide (cmd = lit "r") then
                narrate_from doc start_page end_page inputs' page
              else if bool_decide (cmd = lit "g") then
                match inputs' with
                | [] => ([], AwaitingInput page)
                | val :: inputs'' =>
                    match goto_page start_page end_page page val with
                    | inl e => ([], Raised e)
                    | inr (msgs, page') =>
                        before msgs (narrate_from doc start_page end_page inputs'' page')
                    end
                end
              else if bool_decide (cmd = lit "q") then ([], Stopped)
              else
                before [Print "Unknown command. Moving to next page."]
                  (narrate_from doc start_page end_page inputs' (page + 1))
          end
    end.

Definition narrate_pages (doc : Document) (start_page end_page : Z)
  (inputs : list text) : list event * outcome :=
  narrate_from doc start_page end_page inputs start_page.

(** The pages entered during a run, in order. *)
Definition pages_entered (evs : list event) : list Z :=
  flat_map (fun e => match e with Narrating p => [p] | _ => [] end) evs.

(** ** Notions used in the statements *)

(** Page [p] lies in the range of chapter [c]. *)
Definition covers (c : Chapter) (p : Z) : Prop :=
  start_page c <= p <= end_page c.

(** A chapter list partitions the pages from its first start page up to
    [last_page]: ascending, pairwise disjoint, without gaps. *)
Record gap_free_partition (last_page : Z) (chs : list Chapter) : Prop := {
  gfp_ascending : forall (i j : nat) c c',
    (i < j)%nat -> chs !! i = Some c -> chs !! j = Some c' ->
    start_page c < start_page c';
  gfp_disjoint : forall (i j : nat) c c',
    (i < j)%nat -> chs !! i = Some c -> chs !! j = Some c' ->
    end_page c < start_page c';
  gfp_adjacent : forall (i : nat) c c',
    chs !! i = Some c -> chs !! S i = Some c' ->
    end_page c + 1 = start_page c';
  gfp_last : forall c, last chs = Some c -> end_page c = last_page;
  gfp_range : forall c, c ∈ chs -> start_page c <= end_page c;
  gfp_cover : forall c0 p, head chs = Some c0 ->
    (start_page c0 <= p <= last_page <-> exists c, c ∈ chs /\ covers c p)
}.

(** The same, by recursion on the list. *)
Fixpoint chained (last_page : Z) (chs : list Chapter) : Prop :=
  match chs with
  | [] => True
  | c :: more =>
      start_page c <= end_page c
      /\ end_page c = match more with
                      | c' :: _ => start_page c' - 1
                      | [] => last_page
                      end
      /\ chained last_page more
  end.

(** A list transformed element by element, each element seeing its
    successor: the shape of the two loops over [enumerate]. *)
Fixpoint with_next {A B : Type} (f : A -> option A -> B) (l : list A) : list B :=
  match l with
  | [] => []
  | x :: more => f x (head more) :: with_next f more
  end.

Definition chapter_of_start (n : Z) (x : Z * text) (next : option (Z * text)) : Chapter :=
  let ep := match next with Some y => y.1 - 1 | None => n - 1 end in
  mkChapter "TOC" x.2 x.1 (Z.max x.1 ep).

Definition chapter_of_hit (n : Z) (x : hit) (next : option hit) : Chapter :=
  let ep := match next with Some y => y.1.1 - 1 | None => n - 1 end in
  mkChapter x.1.2 x.2 x.1.1 (Z.max x.1.1 ep).

(** The outline detector without its final pass. *)
Definition chapters_from_toc_unfiltered (doc : Document) : list Chapter :=
  match get_toc doc with
  | [] => []
  | _ :: _ =>
      chapters_of_starts (len_doc doc)
        (sort_by_start (collect_starts (len_doc doc) (toc_candidates (get_toc doc))))
  end.

(** Deduplication of heading matches as the specification words it: the
    first match is kept, and a later one is kept exactly when its page is at
    least two behind the page of the match kept last. *)
Fixpoint keep_apart (last_kept : Z) (hits : list hit) : list hit :=
  match hits with
  | [] => []
  | h :: more =>
      if 2 <=? h.1.1 - last_kept then h :: keep_apart h.1.1 more
      else keep_apart last_kept more
  end.

Definition dedup_by_distance (hits : list hit) : list hit :=
  match hits with
  | [] => []
  | h :: more => h :: keep_apart h.1.1 more
  end.

(** The entries whose page number is not zero. *)
Definition has_page (e : toc_entry) : bool := negb (e.2 =? 0).

(** A text with a character that is not white space. *)
Definition has_ink (s : text) : bool := existsb (fun c => negb (Py.isspace c)) s.

(** The position behind the white space a text starts with. *)
Fixpoint skip_spaces (p : option char) (s : text) : option char * text :=
  match s with
  | a :: t => if Py.isspace a then skip_spaces (Some a) t else (p, s)
  | [] => (p, [])
  end.

(** A text with a sentence boundary inside: white space behind ".", "!" or
    "?".  [p] is the character in front of the text. *)
Definition breaks_between (p : option char) (a : char) : bool :=
  match p with Some b => ends_sentence b && Py.isspace a | None => false end.

Fixpoint has_sentence_break (p : option char) (s : text) : bool :=
  match s with
  | a :: t => breaks_between p a || has_sentence_break (Some a) t
  | [] => false
  end.

(** The last character of [s], or [p] in front of an empty [s]. *)
Definition last_or (p : option char) (s : text) : option char :=
  match last s with Some b => Some b | None => p end.

(** The positions a match of [r] can lead to from [c], with the groups it
    closes on the way. *)
Fixpoint post (r : regex) (c c' : cursor) : Prop :=
  match r with
  | Empty | Bol | Eol | WordBoundary | Behind _ => c' = c
  | Class p => exists a t, rest c = a :: t /\ p a = true /\ c' = advance a t c
  | Seq r1 r2 => exists c1, post r1 c c1 /\ post r2 c1 c'
  | Alt r1 r2 => post r1 c c' \/ post r2 c c'
  | Star r1 => rtc (post r1) c c'
  | Group n r1 => exists c1, post r1 c c1 /\ c' = close n c c1
  end.

(** A pattern without capturing group. *)
Fixpoint group_free (r : regex) : bool :=
  match r with
  | Seq r1 r2 | Alt r1 r2 => group_free r1 && group_free r2
  | Star r1 => group_free r1
  | Group _ _ => false
  | _ => true
  end.

(** Example documents. *)

(** Twenty pages and an outline of two chapters. *)
Definition two_chapter_book : Document :=
  mkDocument [(1, lit "Chapter One", 1); (1, lit "Chapter Two", 10)]
             (replicate 20 (lit "Some text.")).

(** An outline but no page. *)
Definition empty_book : Document :=
  mkDocument [(1, lit "Chapter One", 1)] [].

(** Five pages and an outline entry that points at page zero. *)
Definition unplaced_entry_book : Document :=
  mkDocument [(1, lit "Chapter One", 0)] (replicate 5 (lit "Some text.")).

(** No outline; the heading of the first page is repeated on the second. *)
Definition running_header_book : Document :=
  mkDocument [] [lit "Chapter 1: The Start"; lit "Chapter 1: The Start"; lit "and so on";
                 lit "to the end"].

(** No outline, no heading. *)
Definition plain_book : Document :=
  mkDocument [] (replicate 10 (lit "Some text.")).

(** A page that opens with a chapter heading. *)
Definition chapter_three_page : text :=
  [Latin (ascii_of_N 10)] ++ lit "  Chapter 3: The Return  " ++ [Latin (ascii_of_N 10)] ++ lit "It was late.".

(** A paragraph of three short sentences and one of a single long one. *)
Definition short_and_long_page : text :=
  lit "One. Two. Three." ++ [Latin (ascii_of_N 10); Latin (ascii_of_N 10)]
  ++ lit "An unreasonably long sentence without any full stop in it".

(** The superscript two, U+00B2: a digit for [str.isdigit], no literal for
    [int]. *)
Definition superscript_two : text := [Latin (ascii_of_N 178)].

(** A text that does not begin with white space. *)
Definition starts_clean (s : text) : Prop :=
  match s with c :: _ => Py.isspace c = false | [] => True end.

(** A chunk is fine when it respects the limit or is a whole sentence; the
    buffer of the packing loop may also be empty. *)
Definition fine (max_chars : Z) (whole : text -> Prop) (c : text) : Prop :=
  Py.len c <= max_chars \/ whole c.

Definition fine_buf (max_chars : Z) (whole : text -> Prop) (buf : text) : Prop :=
  buf = [] \/ fine max_chars whole buf.

(** ** Further parts of the program *)

(** [l[i]] for a Python list: indices below zero count from the end, and
    [None] stands for [IndexError]. *)
Definition getitem {A : Type} (l : list A) (i : Z) : option A :=
  if 0 <=? i then l !! Z.to_nat i
  else if - Z.of_nat (length l) <=? i then l !! Z.to_nat (Z.of_nat (length l) + i)
  else None.

(** What a prompt loop gives back: a value and the lines not yet read, or
    nothing because no line is left, or an exception. *)
Inductive reply (A : Type) : Type :=
| Answer (a : A) (rest : list text)
| NoInput
| Failed (e : exn).

Arguments Answer {A} a rest.
Arguments NoInput {A}.
Arguments Failed {A} e.

Definition INVALID_SELECTION : text :=
  lit "Invalid selection. Please enter a number from the list.".

(** [choose_from_list(items, prompt)]: the loop reads lines until one is the
    one-based number of an item, and returns the zero-based index. *)
Fixpoint choose_from_list {A : Type} (items : list A) (inputs : list text)
  : list event * reply Z :=
  match inputs with
  | [] => ([], NoInput)
  | line :: inputs' =>
      let choice := Py.strip line in
      let again :=
        let r := choose_from_list items inputs' in
        (Print INVALID_SELECTION :: r.1, r.2) in
      if Py.isdigit choice then
        match Py.int choice with
        | None => ([], Failed ValueError)
        | Some n =>
            let idx := n - 1 in
            if (0 <=? idx) && (idx <? Z.of_nat (length items))
            then ([], Answer idx inputs')
            else again
        end
      else again
  end.

(** The page range of the manual fallback in [main], from the two stripped
    lines [sp] and [ep]: [None] when they are not numbers, in which case
    nothing is narrated. *)
Definition fallback_range (n : Z) (sp ep : text) : exn + option (Z * Z) :=
  if Py.isdigit sp && Py.isdigit ep then
    match Py.int sp, Py.int ep with
    | Some a, Some b =>
        let start_page := clamp_start n a in
        let end_page := clamp_start n b in
        inr (Some (if end_page <? start_page
                   then (end_page, start_page)
                   else (start_page, end_page)))
    | _, _ => inl ValueError
    end
  else inr None.

(** How [main] ends once the document is open: it ran a narration session,
    which ended in some way; it returned without one; it waits at a prompt
    of its own; or an exception escaped. *)
Inductive main_outcome : Type :=
| Narrated (o : outcome)
| Returned
| AtPrompt
| Crashed (e : exn).

(** [main] from the detection of the chapters on.  The trace holds the
    events of the narration session and the lines printed on rejected input;
    the lines that only report (the notice of the fallback, the list of the
    chapters, the range about to be narrated) are left out. *)
Definition narrate_document (doc : Document) (inputs : list text)
  : list event * main_outcome :=
  let chapters := detect_chapters doc in
  match chapters with
  | [] =>
      match inputs with
      | sp :: ep :: inputs' =>
          match fallback_range (len_doc doc) (Py.strip sp) (Py.strip ep) with
          | inl e => ([], Crashed e)
          | inr None => ([Print (lit "Invalid page numbers.")], Returned)
          | inr (Some (start_page, end_page)) =>
              let r := narrate_pages doc start_page end_page inputs' in
              (r.1, Narrated r.2)
          end
      | _ => ([], AtPrompt)
      end
  | _ :: _ =>
      match choose_from_list (map title chapters) inputs with
      | (evs, Answer chap_idx inputs') =>
          match getitem chapters chap_idx with
          | Some ch =>
              let r := narrate_pages doc (start_page ch) (end_page ch) inputs' in
              (evs ++ r.1, Narrated r.2)
          | None => (evs, Crashed IndexError)
          end
      | (evs, NoInput) => (evs, AtPrompt)
      | (evs, Failed e) => (evs, Crashed e)
      end
  end.

(** ** Further notions *)

(** The visible characters of a text, in order. *)
Definition ink (s : text) : text := List.filter (fun c => negb (Py.isspace c)) s.

(** Every run of white space replaced by one blank; [in_run] tells that the
    character before was white space. *)
Fixpoint collapse (in_run : bool) (s : text) : text :=
  match s with
  | [] => []
  | a :: t =>
      if Py.isspace a
      then if in_run then collapse true t else Latin " " :: collapse true t
      else a :: collapse false t
  end.

(** All white space in the text is single blanks. *)
Fixpoint blanks_single (s : text) : bool :=
  match s with
  | [] => true
  | a :: t =>
      (if Py.isspace a
       then char_eqb a " "
            && match t with b :: _ => negb (Py.isspace b) | [] => true end
       else true)
      && blanks_single t
  end.

(** A text in the form [normalize_whitespace] produces: visible characters
    at both ends, single blanks between. *)
Definition normal (s : text) : Prop :=
  starts_clean s /\ starts_clean (rev s) /\ blanks_single s = true.

(** White space normalized in the words of the specification: every run of
    white space is one blank, and there is none at the ends. *)
Definition whitespace_normalized (s : text) : text := Py.strip (collapse false s).

(** The separators that may stand in front of a title: hyphen, colon, en
    dash and em dash. *)
Definition is_separator (c : char) : bool :=
  match c with
  | Latin _ => (Py.code c =? 45)%N || (Py.code c =? 58)%N
  | EnDash | EmDash => true
  end.

(** A text without the separators it begins with. *)
Fixpoint drop_separators (s : text) : text :=
  match s with
  | c :: t => if is_separator c then drop_separators t else s
  | [] => []
  end.

(** A text without white space. *)
Definition spaceless (s : text) : bool := forallb (fun c => negb (Py.isspace c)) s.

(** The heading of chapter three, written with an em dash. *)
Definition dash_heading : text := lit "Chapter 3 " ++ [EmDash] ++ lit "  The   Return".

(** Two paragraphs of twelve characters each. *)
Definition two_paragraphs : text :=
  lit "Hello there." ++ [Latin (ascii_of_N 10); Latin (ascii_of_N 10)] ++ lit "Good bye now".

(** [sep.join(l)] *)
Fixpoint join (sep : text) (l : list text) : text :=
  match l with
  | [] => []
  | x :: more =>
      match more with
      | [] => x
      | _ :: _ => x ++ sep ++ join sep more
      end
  end.

(** The matches of [r] consume characters of the class [P] only. *)
Fixpoint only_matches (P : char -> bool) (r : regex) : Prop :=
  match r with
  | Class p => forall a, p a = true -> P a = true
  | Seq r1 r2 | Alt r1 r2 => only_matches P r1 /\ only_matches P r2
  | Star r1 | Group _ r1 => only_matches P r1
  | _ => True
  end.

(** A page of white space only. *)
Definition blank_page : text :=
  lit "   " ++ [Latin (ascii_of_N 10); Latin (ascii_of_N 9); Latin (ascii_of_N 10)] ++ lit "  ".

(** Page [i] of the document carries a chapter heading. *)
Definition heading_on (doc : Document) (i : Z) : bool :=
  match page_text doc i with
  | Some txt =>
      match find_chapter_heading_on_page txt with Some _ => true | None => false end
  | None => false
  end.

(** Six pages and an outline with two entries for the third page. *)
Definition repeated_entry_book : Document :=
  mkDocument [(1, lit "Chapter  One", 3); (2, lit "Chapter One again", 3);
              (1, lit "Chapter Two", 6)]
             (replicate 6 (lit "Some text.")).

(** What holds of a run of the narration loop started at [page]: the pages
    entered lie in the range; a run that waits for input waits on the page
    it entered last; a run that finishes has entered the last page of the
    range last, unless it started behind the range; and with the range
    inside the document no page is missing. *)
Definition run_ok (doc : Document) (start_page end_page page : Z)
  (r : list event * outcome) : Prop :=
  Forall (fun p => start_page <= p <= end_page) (pages_entered r.1)
  /\ (forall p, r.2 = AwaitingInput p -> last (pages_entered r.1) = Some p)
  /\ (r.2 = Finished ->
      pages_entered r.1 = [] /\ end_page < page
      \/ last (pages_entered r.1) = Some end_page)
  /\ (0 <= start_page -> end_page <= len_doc doc - 1 -> r.2 <> Raised IndexError).

(** The command a line stands for: [input(...).strip().lower()]. *)
Definition command (line : text) : text := Py.lower (Py.strip line).


(** *** Listing the books *)

(** [s.startswith(prefix)] and [s.endswith(suffix)]. *)
Fixpoint startswith (s prefix : text) : bool :=
  match prefix, s with
  | [], _ => true
  | _ :: _, [] => false
  | p :: prefix', c :: s' => char_eqb c p && startswith s' prefix'
  end.

Definition endswith (s suffix : text) : bool := startswith (rev s) (rev suffix).

(** The order of Python on strings: by code point, a proper prefix first. *)
Fixpoint text_ltb (a b : text) : bool :=
  match a, b with
  | _, [] => false
  | [], _ :: _ => true
  | x :: a', y :: b' =>
      (Py.code x <? Py.code y)%N || ((Py.code x =? Py.code y)%N && text_ltb a' b')
  end.

(** [os.path] is [posixpath]: the separator is the slash. *)
Definition SEP : char := Latin "/".

(** [os.path.join(a, b)] *)
Definition path_join (a b : text) : text :=
  if startswith b [SEP] then b
  else if negb (Py.truthy a) || endswith a [SEP] then a ++ b
  else a ++ [SEP] ++ b.

(** [os.path.basename(p)]: what follows the last separator,
    [p[p.rfind(sep) + 1:]]; [cur] is what was read since the last one. *)
Fixpoint basename_from (cur p : text) : text :=
  match p with
  | [] => cur
  | c :: p' => if char_eqb c SEP then basename_from [] p' else basename_from (cur ++ [c]) p'
  end.

Definition basename (p : text) : text := basename_from [] p.

(** [sorted(l, key=key)]: a stable sort that compares the keys with [<]. *)
Fixpoint insert_by_key (key : text -> text) (x : text) (l : list text) : list text :=
  match l with
  | [] => [x]
  | y :: l' => if text_ltb (key y) (key x) then y :: insert_by_key key x l' else x :: l
  end.

Definition sorted_by_key (key : text -> text) (l : list text) : list text :=
  fold_right (insert_by_key key) [] l.

Definition is_pdf (name : text) : bool := endswith (Py.lower name) (lit ".pdf").

Definition book_key (p : text) : text := Py.lower (basename p).

(** [list_pdf_files]: the file system is read twice, by [os.path.isdir] and
    by [os.listdir]; [isdir] and [listing] are what it answers.  [None] is
    the [FileNotFoundError]. *)
Definition list_pdf_files (isdir : bool) (folder : text) (listing : list text)
  : option (list text) :=
  if negb isdir then None
  else Some (sorted_by_key book_key (map (path_join folder) (List.filter is_pdf listing))).

(** [a] does not come behind [b] in the order of Python on strings. *)
Definition text_le (a b : text) : Prop := text_ltb b a = false.

(** A directory of three files, one of them not a book. *)
Definition some_listing : list text :=
  [lit "zebra.PDF"; lit "notes.txt"; lit "Apple.pdf"].

(** * Properties *)

(** ** Lists seen with their successor *)

Section WithNext.
Context {A B : Type}.
Implicit Types (f : A -> option A -> B) (l : list A).

Lemma imap_with_next_from f (pre l : list A) :
  imap (fun i x => f x ((pre ++ l) !! (length pre + S i)%nat)) l = with_next f l.
Proof.
  revert pre. induction l as [|x l IH]; intros pre; [reflexivity|].
  cbn [imap with_next]. f_equal.
  - f_equal. rewrite lookup_app_r by lia.
    replace (length pre + 1 - length pre)%nat with 1%nat by lia.
    destruct l; reflexivity.
  - rewrite <- (IH (pre ++ [x])). apply imap_ext. intros i y _. cbn.
    f_equal. rewrite <- app_assoc. cbn. rewrite length_app. cbn. f_equal. lia.
Qed.

Lemma imap_with_next f l :
  imap (fun i x => f x (l !! (i + 1)%nat)) l = with_next f l.
Proof.
  rewrite <- (imap_with_next_from f [] l). apply imap_ext. intros i x _. cbn.
  do 2 f_equal. lia.
Qed.

Lemma length_with_next f l : length (with_next f l) = length l.
Proof. induction l; cbn; congruence. Qed.
End WithNext.

Lemma chapters_of_starts_with_next n starts :
  chapters_of_starts n starts = with_next (chapter_of_start n) starts.
Proof.
  rewrite <- imap_with_next. apply imap_ext. intros i [sp t] _. reflexivity.
Qed.

Lemma chapters_of_hits_with_next n dedup :
  chapters_of_hits n dedup = with_next (chapter_of_hit n) dedup.
Proof.
  rewrite <- imap_with_next. apply imap_ext. intros i [[sp l] t] _. reflexivity.
Qed.

(** ** Chained chapter lists are partitions *)

Lemma chained_lower_bound last_page c chs :
  chained last_page (c :: chs) -> forall c', c' ∈ chs -> end_page c < start_page c'.
Proof.
  revert c. induction chs as [|d chs IH]; intros c Hc c' Hin.
  - inversion Hin.
  - destruct Hc as (Hr & He & Hrest).
    apply elem_of_cons in Hin as [->|Hin]; [lia|].
    pose proof (IH d Hrest c' Hin). destruct Hrest as (Hrd & _). lia.
Qed.

Lemma chained_last last_page chs c :
  chained last_page chs -> last chs = Some c -> end_page c = last_page.
Proof.
  induction chs as [|d chs IH]; [discriminate|].
  intros (Hr & He & Hrest). destruct chs as [|d' chs].
  - cbn. intros [= ->]. exact He.
  - intros Hl. apply IH; [exact Hrest|]. exact Hl.
Qed.

Lemma chained_range last_page chs c :
  chained last_page chs -> c ∈ chs -> start_page c <= end_page c.
Proof.
  induction chs as [|d chs IH]; intros Hc Hin; [inversion Hin|].
  destruct Hc as (Hr & He & Hrest).
  apply elem_of_cons in Hin as [->|Hin]; auto.
Qed.

Lemma chained_end_le last_page c chs :
  chained last_page (c :: chs) -> end_page c <= last_page.
Proof.
  revert c. induction chs as [|d chs IH]; intros c (Hr & He & Hrest); cbn in He; [lia|].
  pose proof (IH d Hrest). destruct Hrest as (? & _). lia.
Qed.

Lemma chained_cover last_page c0 chs p :
  chained last_page (c0 :: chs) ->
  start_page c0 <= p <= last_page <-> exists c, c ∈ c0 :: chs /\ covers c p.
Proof.
  revert c0. induction chs as [|d chs IH]; intros c0 Hc;
    pose proof (chained_end_le _ _ _ Hc) as Hle; destruct Hc as (Hr & He & Hrest);
    cbn in He.
  - split.
    + intros Hp. exists c0. split; [left|]. unfold covers. lia.
    + intros (c & Hin & Hp). apply list_elem_of_singleton in Hin as ->.
      unfold covers in Hp. lia.
  - specialize (IH d Hrest). split.
    + intros Hp. destruct (Z_le_gt_dec p (end_page c0)) as [Hp'|Hp'].
      * exists c0. split; [left|]. unfold covers. lia.
      * destruct (proj1 IH) as (c & Hin & Hcov); [lia|].
        exists c. split; [right; exact Hin|exact Hcov].
    + intros (c & Hin & Hp). apply elem_of_cons in Hin as [->|Hin].
      * unfold covers in Hp. lia.
      * destruct (proj2 IH) as [? ?]; [exists c; auto|]. lia.
Qed.

Lemma chained_drop last_page chs (i : nat) :
  chained last_page chs -> chained last_page (drop i chs).
Proof.
  revert chs. induction i as [|i IH]; intros chs Hc; [rewrite drop_0; exact Hc|].
  destruct chs as [|c chs]; [exact I|]. cbn. apply IH. apply Hc.
Qed.

Lemma chained_partition last_page chs :
  chained last_page chs -> gap_free_partition last_page chs.
Proof.
  intros Hc.
  assert (Hdis : forall (i j : nat) c c', (i < j)%nat ->
            chs !! i = Some c -> chs !! j = Some c' -> end_page c < start_page c').
  { intros i j c c' Hij Hi Hj.
    pose proof (chained_drop _ _ i Hc) as Hd.
    rewrite (drop_S _ _ _ Hi) in Hd.
    apply (chained_lower_bound _ _ _ Hd).
    apply list_elem_of_lookup. exists (j - S i)%nat.
    rewrite lookup_drop. rewrite <- Hj. f_equal. lia. }
  split.
  - intros i j c c' Hij Hi Hj.
    pose proof (Hdis i j c c' Hij Hi Hj).
    pose proof (chained_range _ _ c Hc (list_elem_of_lookup_2 _ _ _ Hi)). lia.
  - exact Hdis.
  - intros i c c' Hi Hj.
    pose proof (chained_drop _ _ i Hc) as Hd.
    rewrite (drop_S _ _ _ Hi) in Hd.
    rewrite (drop_S _ _ _ Hj) in Hd.
    destruct Hd as (_ & He & _). lia.
  - intros c. apply (chained_last _ _ _ Hc).
  - intros c. apply (chained_range _ _ _ Hc).
  - intros c0 p Hh. destruct chs as [|c chs]; [discriminate|].
    injection Hh as ->. apply chained_cover. exact Hc.
Qed.

(** ** Building chapters from ascending start pages *)

Section Build.
Context {A : Type} (key : A -> Z) (n : Z) (f : A -> option A -> Chapter).
Hypothesis f_start : forall x next, start_page (f x next) = key x.
Hypothesis f_end : forall x next,
  end_page (f x next) =
  Z.max (key x) (match next with Some y => key y - 1 | None => n - 1 end).

Lemma with_next_starts l : start_page <$> with_next f l = key <$> l.
Proof. induction l as [|x l IH]; cbn; [reflexivity|]. rewrite f_start, IH. reflexivity. Qed.

Lemma with_next_chained l :
  StronglySorted Z.lt (key <$> l) ->
  Forall (fun x => key x <= n - 1) l ->
  chained (n - 1) (with_next f l).
Proof.
  induction l as [|x l IH]; intros Hs Hb; [exact I|].
  apply StronglySorted_inv in Hs as [Hs Hx].
  apply Forall_cons in Hb as [Hbx Hb].
  cbn [with_next chained]. rewrite f_start, f_end. split; [lia|]. split; [|auto].
  destruct l as [|y l]; cbn.
  - lia.
  - rewrite f_start. apply Forall_cons in Hx as [Hxy _]. lia.
Qed.
End Build.

(** ** The pass that drops chapters keeps an ascending list whole *)

Lemma fold_keep_chapter chs : forall acc last_sp,
  StronglySorted Z.lt (last_sp :: (start_page <$> chs)) ->
  (fold_left keep_chapter chs (acc, last_sp)).1 = acc ++ chs.
Proof.
  induction chs as [|c chs IH]; intros acc last_sp Hs; cbn.
  - rewrite app_nil_r. reflexivity.
  - apply StronglySorted_inv in Hs as [Hs Hx]. cbn in Hx.
    apply Forall_cons in Hx as [Hc _].
    replace (1 <=? start_page c - last_sp) with true by (symmetry; apply Z.leb_le; lia).
    rewrite IH by exact Hs. rewrite <- app_assoc. reflexivity.
Qed.

Lemma remove_bogus_ascending chs :
  StronglySorted Z.lt (start_page <$> chs) ->
  Forall (fun c => 0 <= start_page c) chs ->
  remove_bogus chs = chs.
Proof.
  intros Hs Hb. unfold remove_bogus. rewrite fold_keep_chapter; [reflexivity|].
  constructor; [exact Hs|].
  apply Forall_fmap. eapply Forall_impl; [exact Hb|]. cbn. intros. lia.
Qed.

(** ** Sorting the start pages *)

Lemma insert_by_start_perm x l : insert_by_start x l ≡ₚ x :: l.
Proof.
  induction l as [|y l IH]; cbn; [reflexivity|].
  destruct (x.1 <=? y.1); [reflexivity|]. rewrite IH. apply Permutation_swap.
Qed.

Lemma sort_by_start_perm l : sort_by_start l ≡ₚ l.
Proof.
  induction l as [|x l IH]; cbn; [reflexivity|].
  rewrite insert_by_start_perm, IH. reflexivity.
Qed.

Lemma insert_by_start_sorted x l :
  StronglySorted Z.le (l.*1) -> StronglySorted Z.le ((insert_by_start x l).*1).
Proof.
  induction l as [|y l IH]; intros Hs; cbn.
  - repeat constructor.
  - apply StronglySorted_inv in Hs as [Hs Hy].
    destruct (Z.leb_spec x.1 y.1) as [Hle|Hgt]; cbn.
    + constructor; [constructor; assumption|].
      constructor; [exact Hle|]. eapply Forall_impl; [exact Hy|]. cbn. intros. lia.
    + constructor; [auto|].
      rewrite (insert_by_start_perm x l). cbn. constructor; [lia|exact Hy].
Qed.

Lemma sort_by_start_sorted l : StronglySorted Z.le ((sort_by_start l).*1).
Proof.
  induction l as [|x l IH]; cbn; [constructor|]. apply insert_by_start_sorted, IH.
Qed.

Lemma sorted_nodup_strict (ks : list Z) :
  StronglySorted Z.le ks -> NoDup ks -> StronglySorted Z.lt ks.
Proof.
  induction ks as [|k ks IH]; intros Hs Hn; [constructor|].
  apply StronglySorted_inv in Hs as [Hs Hk]. apply NoDup_cons in Hn as [Hk' Hn].
  constructor; [auto|].
  apply Forall_forall. intros y Hy.
  pose proof (proj1 (Forall_forall _ _) Hk y Hy).
  assert (k <> y) by (intros ->; contradiction). lia.
Qed.

Lemma sort_by_start_strict l :
  NoDup (l.*1) -> StronglySorted Z.lt ((sort_by_start l).*1).
Proof.
  intros Hn. apply sorted_nodup_strict; [apply sort_by_start_sorted|].
  rewrite (sort_by_start_perm l). exact Hn.
Qed.

(** ** Collecting the start pages of the outline *)

Lemma clamp_start_nonneg n page1 : 0 <= clamp_start n page1.
Proof. unfold clamp_start. lia. Qed.

Lemma clamp_start_range n page1 : 1 <= n -> 0 <= clamp_start n page1 <= n - 1.
Proof. unfold clamp_start. lia. Qed.

Lemma fold_add_start n entries : forall starts (seen : gset Z),
  (forall s, s ∈ seen <-> s ∈ starts.*1) ->
  NoDup (starts.*1) ->
  let r := fold_left (add_start n) entries (starts, seen) in
  NoDup (r.1.*1)
  /\ (forall s, s ∈ r.1.*1 <->
        s ∈ starts.*1 \/ exists e, e ∈ entries /\ e.2 <> 0 /\ s = clamp_start n e.2).
Proof.
  induction entries as [|[[lvl ttl] page1] entries IH]; intros starts seen Hseen Hnd; cbn.
  - split; [exact Hnd|]. intros s. split; [auto|].
    intros [H|(e & He & _)]; [exact H|inversion He].
  - destruct (Z.eqb_spec page1 0) as [->|Hp].
    + destruct (IH starts seen Hseen Hnd) as [IH1 IH2]. split; [exact IH1|].
      intros s. rewrite IH2. split.
      * intros [H|(e & He & Hne & Hs)]; [auto|]. right. exists e. split; [right; exact He|auto].
      * intros [H|(e & He & Hne & Hs)]; [auto|].
        apply elem_of_cons in He as [->|He]; [cbn in Hne; lia|]. right. exists e. auto.
    + destruct (decide (clamp_start n page1 ∈ seen)) as [Hin|Hnin].
      * destruct (IH starts seen Hseen Hnd) as [IH1 IH2]. split; [exact IH1|].
        intros s. rewrite IH2. split.
        -- intros [H|(e & He & Hne & Hs)]; [auto|]. right. exists e. split; [right; exact He|auto].
        -- intros [H|(e & He & Hne & Hs)]; [auto|].
           apply elem_of_cons in He as [->|He].
           ++ left. cbn in Hs. subst s. apply Hseen. exact Hin.
           ++ right. exists e. auto.
      * destruct (IH (starts ++ [(clamp_start n page1, normalize_whitespace ttl)])
                     ({[clamp_start n page1]} ∪ seen)) as [IH1 IH2].
        -- intros s. rewrite fmap_app, elem_of_app, elem_of_union, elem_of_singleton.
           cbn. rewrite list_elem_of_singleton, Hseen. tauto.
        -- rewrite fmap_app. cbn. apply NoDup_app. split; [exact Hnd|]. split.
           ++ intros s Hs. rewrite list_elem_of_singleton. intros ->.
              apply Hnin, Hseen, Hs.
           ++ apply NoDup_singleton.
        -- split; [exact IH1|]. intros s. rewrite IH2, fmap_app, elem_of_app. cbn.
           rewrite list_elem_of_singleton. split.
           ++ intros [[H| ->]|(e & He & Hne & Hs)]; [auto| |].
              ** right. exists (lvl, ttl, page1). split; [left|]. auto.
              ** right. exists e. split; [right; exact He|auto].
           ++ intros [H|(e & He & Hne & Hs)]; [auto|].
              apply elem_of_cons in He as [->|He]; [left; right; exact Hs|].
              right. exists e. auto.
Qed.

Lemma collect_starts_nodup n entries : NoDup ((collect_starts n entries).*1).
Proof.
  apply (fold_add_start n entries [] ∅); [|constructor].
  intros s. cbn. rewrite elem_of_nil. set_solver.
Qed.

Lemma collect_starts_elem n entries s :
  s ∈ (collect_starts n entries).*1 <->
  exists e, e ∈ entries /\ e.2 <> 0 /\ s = clamp_start n e.2.
Proof.
  destruct (fold_add_start n entries [] ∅) as [_ H]; [|constructor|].
  - intros s'. cbn. rewrite elem_of_nil. set_solver.
  - unfold collect_starts. rewrite H. cbn. rewrite elem_of_nil. tauto.
Qed.

Lemma sorted_starts_strict n entries :
  StronglySorted Z.lt ((sort_by_start (collect_starts n entries)).*1).
Proof. apply sort_by_start_strict, collect_starts_nodup. Qed.

Lemma sorted_starts_elem n entries x :
  x ∈ sort_by_start (collect_starts n entries) ->
  exists e, e ∈ entries /\ e.2 <> 0 /\ x.1 = clamp_start n e.2.
Proof.
  rewrite (sort_by_start_perm _). intros Hx.
  apply collect_starts_elem. apply list_elem_of_fmap. exists x. auto.
Qed.

Lemma chapter_of_start_start n x next : start_page (chapter_of_start n x next) = x.1.
Proof. reflexivity. Qed.

Lemma chapter_of_start_end n x next :
  end_page (chapter_of_start n x next) =
  Z.max x.1 (match next with Some y => y.1 - 1 | None => n - 1 end).
Proof. reflexivity. Qed.

Lemma chapters_from_toc_shape doc :
  chapters_from_toc doc =
  match get_toc doc with
  | [] => []
  | _ :: _ =>
      remove_bogus (chapters_of_starts (len_doc doc)
        (sort_by_start (collect_starts (len_doc doc) (toc_candidates (get_toc doc)))))
  end.
Proof.
  unfold chapters_from_toc. destruct (get_toc doc) as [|e toc]; [reflexivity|].
  destruct (sort_by_start _); reflexivity.
Qed.

Lemma remove_bogus_chapters_of_starts n entries :
  remove_bogus (chapters_of_starts n (sort_by_start (collect_starts n entries))) =
  chapters_of_starts n (sort_by_start (collect_starts n entries)).
Proof.
  rewrite chapters_of_starts_with_next. apply remove_bogus_ascending.
  - rewrite (with_next_starts fst (chapter_of_start n)); [|apply chapter_of_start_start].
    apply sorted_starts_strict.
  - apply Forall_forall. intros c Hc.
    assert (Hin : start_page c ∈ start_page <$> with_next (chapter_of_start n)
                    (sort_by_start (collect_starts n entries))).
    { apply list_elem_of_fmap. exists c. auto. }
    rewrite (with_next_starts fst (chapter_of_start n)) in Hin; [|apply chapter_of_start_start].
    apply list_elem_of_fmap in Hin as (x & -> & Hx).
    apply sorted_starts_elem in Hx as (e & _ & _ & ->). apply clamp_start_nonneg.
Qed.

Lemma chapters_from_toc_chained doc :
  1 <= len_doc doc -> chained (len_doc doc - 1) (chapters_from_toc doc).
Proof.
  intros Hn. rewrite chapters_from_toc_shape.
  destruct (get_toc doc) as [|e0 toc] eqn:Htoc; [exact I|].
  rewrite remove_bogus_chapters_of_starts, chapters_of_starts_with_next.
  apply (with_next_chained fst).
  - apply chapter_of_start_start.
  - apply chapter_of_start_end.
  - apply sorted_starts_strict.
  - apply Forall_forall. intros x Hx.
    apply sorted_starts_elem in Hx as (e & _ & _ & ->).
    apply clamp_start_range. exact Hn.
Qed.

(** ** Heading matches found by scanning *)

Lemma sublist_bounds (P : Z -> Prop) (l1 l2 : list Z) :
  l1 `sublist_of` l2 -> Forall P l2 -> Forall P l1.
Proof.
  induction 1 as [|x l1 l2 _ IH|x l1 l2 _ IH]; intros HF; [constructor| |].
  - apply Forall_cons in HF as [Hx HF]. constructor; auto.
  - apply Forall_cons in HF as [_ HF]. auto.
Qed.

Lemma sublist_strongly_sorted (l1 l2 : list Z) :
  l1 `sublist_of` l2 -> StronglySorted Z.lt l2 -> StronglySorted Z.lt l1.
Proof.
  induction 1 as [|x l1 l2 Hsub IH|x l1 l2 Hsub IH]; intros Hs; [constructor| |].
  - apply StronglySorted_inv in Hs as [Hs Hx].
    constructor; [auto|]. exact (sublist_bounds _ _ _ Hsub Hx).
  - apply StronglySorted_inv in Hs as [Hs _]. auto.
Qed.

Lemma seq_strongly_sorted (a m : nat) :
  StronglySorted Z.lt (Z.of_nat <$> seq a m).
Proof.
  revert a. induction m as [|m IH]; intros a; cbn; [constructor|].
  constructor; [apply IH|].
  apply Forall_fmap, Forall_forall. intros i Hi. apply elem_of_seq in Hi. cbn. lia.
Qed.

Lemma range_strongly_sorted n : StronglySorted Z.lt (range n).
Proof. apply seq_strongly_sorted. Qed.

Lemma range_bounds n : Forall (fun i => 0 <= i <= n - 1) (range n).
Proof.
  apply Forall_fmap, Forall_forall. intros i Hi. apply elem_of_seq in Hi. cbn. lia.
Qed.

(** The scan reads pages of the document only. *)
Lemma page_text_in_range doc i :
  i ∈ range (len_doc doc) -> is_Some (page_text doc i).
Proof.
  intros Hi. apply list_elem_of_fmap in Hi as (j & -> & Hj). apply elem_of_seq in Hj.
  unfold page_text, len_doc in *.
  replace (Z.of_nat j <? 0) with false by (symmetry; apply Z.ltb_ge; lia).
  apply lookup_lt_is_Some. lia.
Qed.

Lemma fold_record_hit_pages doc l : forall acc,
  exists l', l' `sublist_of` l
             /\ (fold_left (record_hit doc) l acc).*1.*1 = acc.*1.*1 ++ l'.
Proof.
  induction l as [|i l IH]; intros acc; cbn.
  - exists []. split; [constructor|]. rewrite app_nil_r. reflexivity.
  - destruct (IH (record_hit doc acc i)) as (l' & Hsub & Heq). rewrite Heq.
    unfold record_hit. destruct (page_text doc i) as [txt|].
    + destruct (find_chapter_heading_on_page txt) as [[lbl ttl]|].
      * exists (i :: l'). split; [constructor; exact Hsub|].
        rewrite !fmap_app, <- app_assoc. reflexivity.
      * exists l'. split; [constructor; exact Hsub|reflexivity].
    + exists l'. split; [constructor; exact Hsub|reflexivity].
Qed.

Lemma scan_hits_pages doc :
  (scan_hits doc).*1.*1 `sublist_of` range (len_doc doc).
Proof.
  destruct (fold_record_hit_pages doc (range (len_doc doc)) []) as (l' & Hsub & Heq).
  unfold scan_hits. rewrite Heq. exact Hsub.
Qed.

(** ** Dropping repeated headings *)

Lemma fold_keep_hit hits : forall acc last_page,
  (fold_left keep_hit hits (acc, last_page)).1 = acc ++ keep_apart last_page hits.
Proof.
  induction hits as [|[[page_i lbl] ttl] hits IH]; intros acc last_page; cbn.
  - rewrite app_nil_r. reflexivity.
  - destruct (2 <=? page_i - last_page).
    + rewrite IH, <- app_assoc. reflexivity.
    + apply IH.
Qed.

Lemma dedup_hits_keep_apart hits : dedup_hits hits = keep_apart (-9999) hits.
Proof. unfold dedup_hits. rewrite fold_keep_hit. reflexivity. Qed.

Lemma dedup_hits_by_distance hits :
  Forall (fun h => 0 <= h.1.1) hits -> dedup_hits hits = dedup_by_distance hits.
Proof.
  intros Hb. rewrite dedup_hits_keep_apart. destruct hits as [|h hits]; [reflexivity|].
  apply Forall_cons in Hb as [Hh _]. cbn.
  replace (2 <=? h.1.1 - -9999) with true by (symmetry; apply Z.leb_le; lia).
  reflexivity.
Qed.

Lemma keep_apart_sublist hits : forall last_page,
  keep_apart last_page hits `sublist_of` hits.
Proof.
  induction hits as [|h hits IH]; intros last_page; cbn; [constructor|].
  destruct (2 <=? h.1.1 - last_page); constructor; apply IH.
Qed.

Lemma dedup_hits_sublist hits : dedup_hits hits `sublist_of` hits.
Proof. rewrite dedup_hits_keep_apart. apply keep_apart_sublist. Qed.

Lemma dedup_hits_pages doc :
  (dedup_hits (scan_hits doc)).*1.*1 `sublist_of` range (len_doc doc).
Proof.
  etrans; [|apply scan_hits_pages].
  do 2 apply fmap_sublist. apply dedup_hits_sublist.
Qed.

Lemma scan_hits_nonneg doc : Forall (fun h => 0 <= h.1.1) (scan_hits doc).
Proof.
  pose proof (sublist_bounds _ _ _ (scan_hits_pages doc) (range_bounds _)) as H.
  rewrite <- list_fmap_compose in H. apply Forall_fmap in H.
  eapply Forall_impl; [exact H|]. cbn. intros. lia.
Qed.

Lemma chapter_of_hit_start n x next : start_page (chapter_of_hit n x next) = x.1.1.
Proof. reflexivity. Qed.

Lemma chapter_of_hit_end n x next :
  end_page (chapter_of_hit n x next) =
  Z.max x.1.1 (match next with Some y => y.1.1 - 1 | None => n - 1 end).
Proof. reflexivity. Qed.

Lemma chapters_by_scanning_shape doc :
  chapters_by_scanning doc =
  with_next (chapter_of_hit (len_doc doc)) (dedup_hits (scan_hits doc)).
Proof.
  unfold chapters_by_scanning. destruct (scan_hits doc) as [|h hits]; [reflexivity|].
  apply chapters_of_hits_with_next.
Qed.

Lemma chapters_by_scanning_chained doc :
  chained (len_doc doc - 1) (chapters_by_scanning doc).
Proof.
  rewrite chapters_by_scanning_shape.
  pose proof (dedup_hits_pages doc) as Hsub.
  apply (with_next_chained (fun h : hit => h.1.1)).
  - apply chapter_of_hit_start.
  - apply chapter_of_hit_end.
  - replace ((fun h : hit => h.1.1) <$> dedup_hits (scan_hits doc))
      with ((dedup_hits (scan_hits doc)).*1.*1)
      by (rewrite <- list_fmap_compose; reflexivity).
    exact (sublist_strongly_sorted _ _ Hsub (range_strongly_sorted _)).
  - pose proof (sublist_bounds _ _ _ Hsub (range_bounds _)) as H.
    rewrite <- list_fmap_compose in H. apply Forall_fmap in H.
    eapply Forall_impl; [exact H|]. cbn. intros. lia.
Qed.

(** ** Stripping white space *)

Lemma lstrip_clean s : starts_clean (Py.lstrip s).
Proof.
  induction s as [|c s IH]; cbn; [exact I|].
  destruct (Py.isspace c) eqn:Hc; [exact IH|exact Hc].
Qed.

Lemma lstrip_fix s : starts_clean s -> Py.lstrip s = s.
Proof. destruct s as [|c s]; cbn; [reflexivity|]. intros ->. reflexivity. Qed.

Lemma lstrip_suffix s : exists pre, s = pre ++ Py.lstrip s.
Proof.
  induction s as [|c s [pre IH]]; cbn; [exists []; reflexivity|].
  destruct (Py.isspace c); [|exists []; reflexivity].
  exists (c :: pre). cbn. f_equal. exact IH.
Qed.

Lemma length_lstrip s : (length (Py.lstrip s) <= length s)%nat.
Proof.
  destruct (lstrip_suffix s) as [pre H]. rewrite H at 2. rewrite length_app. lia.
Qed.

Lemma length_strip s : (length (Py.strip s) <= length s)%nat.
Proof.
  unfold Py.strip, Py.rstrip. rewrite length_rev.
  etrans; [apply length_lstrip|]. rewrite length_rev. apply length_lstrip.
Qed.

Lemma len_strip s : Py.len (Py.strip s) <= Py.len s.
Proof. unfold Py.len. pose proof (length_strip s). lia. Qed.

Lemma strip_strip s : Py.strip (Py.strip s) = Py.strip s.
Proof.
  unfold Py.strip, Py.rstrip.
  set (u := Py.lstrip s). set (v := Py.lstrip (rev u)).
  assert (Hv : Py.lstrip (rev v) = rev v).
  { apply lstrip_fix. destruct (lstrip_suffix (rev u)) as [pre Hpre]. fold v in Hpre.
    assert (Hu : u = rev v ++ rev pre).
    { rewrite <- rev_app_distr, <- Hpre, rev_involutive. reflexivity. }
    pose proof (lstrip_clean s) as Hc. fold u in Hc. rewrite Hu in Hc.
    destruct (rev v); [exact I|exact Hc]. }
  rewrite Hv, rev_involutive. f_equal. apply lstrip_fix. apply lstrip_clean.
Qed.

Lemma has_ink_app s t : has_ink (s ++ t) = has_ink s || has_ink t.
Proof. apply existsb_app. Qed.

Lemma has_ink_rev s : has_ink (rev s) = has_ink s.
Proof.
  induction s as [|c s IH]; [reflexivity|]. cbn [rev]. rewrite has_ink_app, IH. cbn.
  rewrite orb_false_r. apply orb_comm.
Qed.

Lemma has_ink_lstrip s : has_ink (Py.lstrip s) = has_ink s.
Proof.
  induction s as [|c s IH]; cbn; [reflexivity|].
  destruct (Py.isspace c) eqn:Hc; cbn; [exact IH|]. rewrite Hc. reflexivity.
Qed.

Lemma truthy_lstrip s : Py.truthy (Py.lstrip s) = has_ink s.
Proof.
  induction s as [|c s IH]; cbn; [reflexivity|].
  destruct (Py.isspace c); cbn; [exact IH|reflexivity].
Qed.

Lemma truthy_rev s : Py.truthy (rev s) = Py.truthy s.
Proof. destruct s as [|c s]; cbn; [reflexivity|]. destruct (rev s); reflexivity. Qed.

Lemma truthy_strip s : Py.truthy (Py.strip s) = has_ink s.
Proof.
  unfold Py.strip, Py.rstrip.
  rewrite truthy_rev, truthy_lstrip, has_ink_rev, has_ink_lstrip. reflexivity.
Qed.

Lemma has_ink_strip s : has_ink (Py.strip s) = has_ink s.
Proof.
  unfold Py.strip, Py.rstrip.
  rewrite has_ink_rev, has_ink_lstrip, has_ink_rev, has_ink_lstrip. reflexivity.
Qed.

(** ** Runs of white space *)

Lemma length_skip_spaces s : forall p, (length (skip_spaces p s).2 <= length s)%nat.
Proof.
  induction s as [|a s IH]; intros p; cbn; [lia|].
  destruct (Py.isspace a); cbn; [|lia]. specialize (IH (Some a)). lia.
Qed.

Lemma has_ink_skip_spaces s : forall p, has_ink (skip_spaces p s).2 = has_ink s.
Proof.
  induction s as [|a s IH]; intros p; cbn; [reflexivity|].
  destruct (Py.isspace a) eqn:Ha; cbn; [apply IH|]. rewrite Ha. reflexivity.
Qed.

Lemma iterate_space (n : nat) : forall p s g li,
  (length s <= n)%nat ->
  iterate (exec space) Some n (Cursor p s g li) =
  Some (Cursor (skip_spaces p s).1 (skip_spaces p s).2 g li).
Proof.
  induction n as [|n IH]; intros p s g li Hn.
  - destruct s; [reflexivity|cbn in Hn; lia].
  - destruct s as [|a s]; [reflexivity|]. cbn in Hn.
    cbn [iterate exec space rest skip_spaces].
    destruct (Py.isspace a); [|reflexivity].
    unfold advance. cbn [rest groups lastindex].
    replace (length s <? length (a :: s))%nat with true
      by (symmetry; apply Nat.ltb_lt; cbn; lia).
    rewrite IH by lia. reflexivity.
Qed.

Lemma match_here_whitespace p s :
  match_here WHITESPACE_RUN p s =
  match s with
  | a :: t =>
      if Py.isspace a
      then Some (Cursor (skip_spaces (Some a) t).1 (skip_spaces (Some a) t).2 [] None)
      else None
  | [] => None
  end.
Proof.
  unfold match_here, WHITESPACE_RUN, plus, at_position.
  destruct s as [|a t]; [reflexivity|].
  cbn [exec space rest]. destruct (Py.isspace a); [|reflexivity].
  unfold advance. cbn [rest groups lastindex].
  rewrite iterate_space by lia. cbn [rest].
  replace (length (skip_spaces (Some a) t).2 <? length (a :: t))%nat with true;
    [reflexivity|].
  symmetry. apply Nat.ltb_lt. pose proof (length_skip_spaces t (Some a)). cbn. lia.
Qed.

Lemma has_ink_sub_whitespace (fuel : nat) : forall p s,
  (length s < fuel)%nat ->
  has_ink s = true ->
  has_ink (sub_from fuel WHITESPACE_RUN (lit " ") p s) = true.
Proof.
  induction fuel as [|fuel IH]; intros p s Hf Hs; [lia|].
  cbn [sub_from]. rewrite match_here_whitespace.
  destruct s as [|a t]; [discriminate|]. cbn in Hf.
  destruct (Py.isspace a) eqn:Ha.
  - cbn [prev rest]. rewrite has_ink_app. apply orb_true_iff. right.
    apply IH.
    + pose proof (length_skip_spaces t (Some a)). lia.
    + rewrite has_ink_skip_spaces. cbn in Hs. rewrite Ha in Hs. exact Hs.
  - cbn. rewrite Ha. reflexivity.
Qed.

Lemma normalize_whitespace_truthy s :
  has_ink s = true -> Py.truthy (normalize_whitespace s) = true.
Proof.
  intros Hs. unfold normalize_whitespace. rewrite truthy_strip.
  apply has_ink_sub_whitespace; [lia|exact Hs].
Qed.

Lemma strip_normalize_whitespace s :
  Py.strip (normalize_whitespace s) = normalize_whitespace s.
Proof. apply strip_strip. Qed.

Lemma paragraphs_have_ink txt p : p ∈ paragraphs txt -> has_ink p = true.
Proof.
  unfold paragraphs. intros Hp. apply list_elem_of_In, in_map_iff in Hp as (x & <- & Hx).
  apply filter_In in Hx as [_ Hx]. rewrite has_ink_strip, <- truthy_strip. exact Hx.
Qed.

(** ** Sentence boundaries *)

Lemma exec_whitespace_run p s g li :
  exec WHITESPACE_RUN Some (Cursor p s g li) =
  match s with
  | a :: t =>
      if Py.isspace a
      then Some (Cursor (skip_spaces (Some a) t).1 (skip_spaces (Some a) t).2 g li)
      else None
  | [] => None
  end.
Proof.
  unfold WHITESPACE_RUN, plus. destruct s as [|a t]; [reflexivity|].
  cbn [exec space rest]. destruct (Py.isspace a); [|reflexivity].
  unfold advance. cbn [rest groups lastindex]. apply iterate_space. lia.
Qed.

Lemma match_here_sentence_break p s :
  match_here SENTENCE_BREAK p s =
  match s with
  | a :: t =>
      if breaks_between p a
      then Some (Cursor (skip_spaces (Some a) t).1 (skip_spaces (Some a) t).2 [] None)
      else None
  | [] => None
  end.
Proof.
  unfold match_here, SENTENCE_BREAK, at_position. cbn [exec prev].
  fold WHITESPACE_RUN. unfold breaks_between.
  destruct p as [b|]; [|destruct s; reflexivity].
  destruct (ends_sentence b); [|destruct s; reflexivity].
  rewrite exec_whitespace_run. destruct s as [|a t]; [reflexivity|]. cbn [andb].
  destruct (Py.isspace a); [|reflexivity]. cbn [rest].
  replace (length (skip_spaces (Some a) t).2 <? length (a :: t))%nat with true;
    [reflexivity|].
  symmetry. apply Nat.ltb_lt. pose proof (length_skip_spaces t (Some a)). cbn. lia.
Qed.

Lemma split_from_no_break (fuel : nat) : forall cur p s,
  (length s < fuel)%nat -> has_sentence_break p s = false ->
  split_from fuel SENTENCE_BREAK cur p s = [cur ++ s].
Proof.
  induction fuel as [|fuel IH]; intros cur p s Hf Hs; [lia|].
  cbn [split_from]. rewrite match_here_sentence_break.
  destruct s as [|a t]; [rewrite app_nil_r; reflexivity|].
  cbn [has_sentence_break length] in Hs, Hf. apply orb_false_iff in Hs as [Hb Ht].
  rewrite Hb, IH by (lia || exact Ht).
  rewrite <- app_assoc. reflexivity.
Qed.

Lemma split_from_nonempty (fuel : nat) r cur p s : split_from fuel r cur p s <> [].
Proof.
  revert cur p s. induction fuel as [|fuel IH]; intros cur p s; cbn; [discriminate|].
  destruct (match_here r p s); [discriminate|]. destruct s; [discriminate|apply IH].
Qed.

Lemma split_from_break (fuel : nat) : forall cur p s,
  (length s < fuel)%nat -> has_sentence_break p s = true ->
  (2 <= length (split_from fuel SENTENCE_BREAK cur p s))%nat.
Proof.
  induction fuel as [|fuel IH]; intros cur p s Hf Hs; [lia|].
  cbn [split_from]. rewrite match_here_sentence_break.
  destruct s as [|a t]; [discriminate|]. cbn [has_sentence_break length] in Hs, Hf.
  destruct (breaks_between p a).
  - cbn [prev rest length].
    pose proof (split_from_nonempty fuel SENTENCE_BREAK []
                  (skip_spaces (Some a) t).1 (skip_spaces (Some a) t).2) as Hne.
    destruct (split_from fuel _ _ _ _); [contradiction|cbn; lia].
  - apply IH; [lia|exact Hs].
Qed.

(** The sentence split leaves a text in one piece exactly when the text has
    no sentence boundary inside. *)
Lemma single_sentence_iff s :
  Re.split SENTENCE_BREAK s = [s] <-> has_sentence_break None s = false.
Proof.
  unfold Re.split. split.
  - intros H. destruct (has_sentence_break None s) eqn:Hs; [|reflexivity].
    pose proof (split_from_break (S (length s)) [] None s (Nat.lt_succ_diag_r _) Hs) as Hl.
    rewrite H in Hl. cbn in Hl. lia.
  - intros Hs. apply (split_from_no_break _ [] None s); [lia|exact Hs].
Qed.

Lemma has_sentence_break_app u : forall q v,
  has_sentence_break q (u ++ v) =
  has_sentence_break q u || has_sentence_break (last_or q u) v.
Proof.
  induction u as [|a u IH]; intros q v; [reflexivity|].
  cbn [app has_sentence_break]. rewrite IH, orb_assoc. f_equal. f_equal.
  unfold last_or. destruct u as [|b u]; [reflexivity|].
  change (last (a :: b :: u)) with (last (b :: u)). destruct (last (b :: u)) eqn:Hl;
    [reflexivity|]. apply last_None in Hl. discriminate.
Qed.

Lemma has_sentence_break_none q s :
  has_sentence_break q s = false -> has_sentence_break None s = false.
Proof.
  destruct s as [|a t]; [reflexivity|]. cbn [has_sentence_break]. intros H.
  apply orb_false_iff in H as [_ H]. exact H.
Qed.

Lemma has_sentence_break_prefix u v :
  has_sentence_break None (u ++ v) = false -> has_sentence_break None u = false.
Proof. rewrite has_sentence_break_app. intros H. apply orb_false_iff in H as [H _]. exact H. Qed.

Lemma has_sentence_break_suffix u v :
  has_sentence_break None (u ++ v) = false -> has_sentence_break None v = false.
Proof.
  rewrite has_sentence_break_app. intros H. apply orb_false_iff in H as [_ H].
  exact (has_sentence_break_none _ _ H).
Qed.

Lemma strip_middle s : exists pre suf, s = pre ++ Py.strip s ++ suf.
Proof.
  destruct (lstrip_suffix s) as [pre Hpre].
  destruct (lstrip_suffix (rev (Py.lstrip s))) as [suf Hsuf].
  exists pre, (rev suf). unfold Py.strip, Py.rstrip.
  rewrite <- rev_app_distr, <- Hsuf, rev_involutive. exact Hpre.
Qed.

Lemma strip_break_free s :
  has_sentence_break None s = false -> has_sentence_break None (Py.strip s) = false.
Proof.
  destruct (strip_middle s) as (pre & suf & H). intros Hs. rewrite H in Hs.
  apply has_sentence_break_suffix, has_sentence_break_prefix in Hs. exact Hs.
Qed.

Lemma split_from_break_free (fuel : nat) : forall cur p s,
  (length s < fuel)%nat ->
  has_sentence_break None cur = false ->
  cur = [] \/ last cur = p ->
  Forall (fun x => has_sentence_break None x = false)
         (split_from fuel SENTENCE_BREAK cur p s).
Proof.
  induction fuel as [|fuel IH]; intros cur p s Hf Hcur Hlast; [lia|].
  cbn [split_from]. rewrite match_here_sentence_break.
  destruct s as [|a t]; [repeat constructor; exact Hcur|]. cbn in Hf.
  destruct (breaks_between p a) eqn:Hb.
  - constructor; [exact Hcur|]. cbn [prev rest].
    apply IH; [|reflexivity|left; reflexivity].
    pose proof (length_skip_spaces t (Some a)). lia.
  - apply IH; [lia| |right; apply last_snoc].
    rewrite has_sentence_break_app, Hcur. cbn [has_sentence_break orb]. rewrite orb_false_r.
    destruct Hlast as [->|Hlast]; [reflexivity|].
    unfold last_or. rewrite Hlast. destruct p as [b|]; [exact Hb|reflexivity].
Qed.

Lemma sentences_break_free s x :
  x ∈ Py.strip <$> Re.split SENTENCE_BREAK s -> has_sentence_break None x = false.
Proof.
  intros Hx. apply list_elem_of_fmap in Hx as (y & -> & Hy). apply strip_break_free.
  revert y Hy. apply Forall_forall. apply split_from_break_free; [lia|reflexivity|auto].
Qed.

(** ** Packing sentences into chunks *)

Lemma chunk_paragraph_fits max_chars chunks p :
  Py.len (normalize_whitespace p) <= max_chars ->
  chunk_paragraph max_chars chunks p = chunks ++ [normalize_whitespace p].
Proof.
  intros Hle. unfold chunk_paragraph.
  replace (Py.len (normalize_whitespace p) <=? max_chars) with true
    by (symmetry; apply Z.leb_le; exact Hle).
  reflexivity.
Qed.

Lemma chunk_paragraph_single_sentence max_chars chunks p :
  has_ink p = true ->
  max_chars < Py.len (normalize_whitespace p) ->
  Re.split SENTENCE_BREAK (normalize_whitespace p) = [normalize_whitespace p] ->
  chunk_paragraph max_chars chunks p = chunks ++ [normalize_whitespace p].
Proof.
  intros Hink Hlt Hsplit. unfold chunk_paragraph.
  replace (Py.len (normalize_whitespace p) <=? max_chars) with false
    by (symmetry; apply Z.leb_gt; exact Hlt).
  rewrite Hsplit. cbn [fold_left]. unfold pack_sentence.
  rewrite strip_normalize_whitespace, (normalize_whitespace_truthy p Hink).
  cbn [negb Py.truthy].
  replace (Py.len [] + Py.len (normalize_whitespace p) + 1 <=? max_chars) with false
    by (symmetry; apply Z.leb_gt; change (Py.len []) with 0; lia).
  rewrite (normalize_whitespace_truthy p Hink). reflexivity.
Qed.

Section Packing.
Context (max_chars : Z) (whole : text -> Prop).

Lemma fold_pack_sentence_fine parts : forall chunks buf,
  Forall (fun part => whole (Py.strip part)) parts ->
  Forall (fine max_chars whole) chunks -> fine_buf max_chars whole buf ->
  Forall (fine max_chars whole) (fold_left (pack_sentence max_chars) parts (chunks, buf)).1
  /\ fine_buf max_chars whole (fold_left (pack_sentence max_chars) parts (chunks, buf)).2.
Proof.
  induction parts as [|part parts IH]; intros chunks buf Hparts Hchunks Hbuf;
    [split; assumption|].
  apply Forall_cons in Hparts as [Hpart Hparts].
  cbn [fold_left].
  assert (Hst : Forall (fine max_chars whole) (pack_sentence max_chars (chunks, buf) part).1
                /\ fine_buf max_chars whole (pack_sentence max_chars (chunks, buf) part).2).
  { unfold pack_sentence.
    destruct (Py.truthy (Py.strip part)) eqn:Hp; cbn [negb]; [|split; assumption].
    destruct (Z.leb_spec (Py.len buf + Py.len (Py.strip part) + 1) max_chars)
      as [Hle|Hgt]; cbn [fst snd].
    - split; [exact Hchunks|]. right. left.
      etrans; [apply len_strip|]. unfold Py.len in *.
      rewrite !length_app. cbn. lia.
    - split; [|right; right; exact Hpart].
      destruct buf as [|b buf]; [exact Hchunks|]. cbn [Py.truthy].
      apply Forall_app. split; [exact Hchunks|].
      constructor; [|constructor].
      destruct Hbuf as [Hbuf|Hbuf]; [discriminate|exact Hbuf]. }
  destruct (pack_sentence max_chars (chunks, buf) part) as [chunks' buf'].
  apply IH; [exact Hparts|apply Hst..].
Qed.

Lemma chunk_paragraph_fine chunks p :
  Forall (fun part => whole (Py.strip part))
         (Re.split SENTENCE_BREAK (normalize_whitespace p)) ->
  Forall (fine max_chars whole) chunks ->
  Forall (fine max_chars whole) (chunk_paragraph max_chars chunks p).
Proof.
  intros Hparts Hchunks. unfold chunk_paragraph.
  destruct (Z.leb_spec (Py.len (normalize_whitespace p)) max_chars) as [Hle|Hgt].
  - apply Forall_app. split; [exact Hchunks|]. constructor; [left; exact Hle|constructor].
  - destruct (fold_pack_sentence_fine _ chunks [] Hparts Hchunks) as [H1 H2];
      [left; reflexivity|].
    destruct (fold_left _ _ _) as [chunks' buf]. cbn in H1, H2.
    destruct buf as [|b buf]; [exact H1|]. cbn [Py.truthy].
    apply Forall_app. split; [exact H1|].
    constructor; [|constructor]. destruct H2 as [H2|H2]; [discriminate|exact H2].
Qed.

Lemma fold_chunk_paragraph_fine ps : forall chunks,
  Forall (fun p => Forall (fun part => whole (Py.strip part))
                          (Re.split SENTENCE_BREAK (normalize_whitespace p))) ps ->
  Forall (fine max_chars whole) chunks ->
  Forall (fine max_chars whole) (fold_left (chunk_paragraph max_chars) ps chunks).
Proof.
  induction ps as [|p ps IH]; intros chunks Hps Hchunks; [exact Hchunks|].
  apply Forall_cons in Hps as [Hp Hps]. cbn [fold_left].
  apply IH; [exact Hps|]. apply chunk_paragraph_fine; assumption.
Qed.
End Packing.

Lemma oversized_chunk_is_sentence txt max_chars c :
  c ∈ chunk_text_for_speaking txt max_chars ->
  max_chars < Py.len c ->
  exists p, p ∈ paragraphs txt
            /\ c ∈ Py.strip <$> Re.split SENTENCE_BREAK (normalize_whitespace p).
Proof.
  intros Hc Hlen.
  pose (whole := fun c : text =>
    exists p, p ∈ paragraphs txt
              /\ c ∈ Py.strip <$> Re.split SENTENCE_BREAK (normalize_whitespace p)).
  assert (H : Forall (fine max_chars whole) (chunk_text_for_speaking txt max_chars)).
  { apply fold_chunk_paragraph_fine; [|constructor].
    apply Forall_forall. intros p Hp. apply Forall_forall. intros part Hpart.
    exists p. split; [exact Hp|]. apply list_elem_of_fmap. exists part. auto. }
  destruct (proj1 (Forall_forall _ _) H c Hc) as [Hle|Hw]; [lia|exact Hw].
Qed.

(** ** The outline detector *)

Lemma with_next_elem {A B : Type} (f : A -> option A -> B) l c :
  c ∈ with_next f l -> exists x next, x ∈ l /\ c = f x next.
Proof.
  induction l as [|x l IH]; cbn; intros Hc; [inversion Hc|].
  apply elem_of_cons in Hc as [->|Hc].
  - exists x, (head l). split; [left|reflexivity].
  - destruct (IH Hc) as (y & next & Hy & ->). exists y, next. split; [right; exact Hy|reflexivity].
Qed.

Lemma chapters_from_toc_unfold doc :
  chapters_from_toc doc =
  with_next (chapter_of_start (len_doc doc))
    (sort_by_start (collect_starts (len_doc doc) (toc_candidates (get_toc doc)))).
Proof.
  rewrite chapters_from_toc_shape. destruct (get_toc doc) as [|e toc]; [reflexivity|].
  rewrite remove_bogus_chapters_of_starts. apply chapters_of_starts_with_next.
Qed.

Lemma chapters_from_toc_starts doc :
  start_page <$> chapters_from_toc doc =
  (sort_by_start (collect_starts (len_doc doc) (toc_candidates (get_toc doc)))).*1.
Proof.
  rewrite chapters_from_toc_unfold. apply with_next_starts. apply chapter_of_start_start.
Qed.

Lemma two_chapter_book_chapters :
  chapters_from_toc two_chapter_book =
  [mkChapter (lit "TOC") (lit "Chapter One") 0 8;
   mkChapter (lit "TOC") (lit "Chapter Two") 9 19].
Proof. vm_compute. reflexivity. Qed.

(** C10.  The final pass of the outline detector removes nothing: for every
    document, and already for every list of outline entries and every page
    count, the chapters filtered by start page are the chapters built from the
    deduplicated and sorted start pages. *)
Theorem final_pass_keeps_every_chapter :
  (forall n entries,
     remove_bogus (chapters_of_starts n (sort_by_start (collect_starts n entries))) =
     chapters_of_starts n (sort_by_start (collect_starts n entries)))
  /\ (forall doc, chapters_from_toc doc = chapters_from_toc_unfiltered doc).
Proof.
  split; [exact remove_bogus_chapters_of_starts|].
  intros doc. rewrite chapters_from_toc_shape. unfold chapters_from_toc_unfiltered.
  destruct (get_toc doc); [reflexivity|]. apply remove_bogus_chapters_of_starts.
Qed.

(** C1, as amended.  The chapters of the scanning detector, and those of the
    outline detector on a document with at least one page, are ascending by
    start page, pairwise disjoint and without gaps; the last one ends on the
    last page, no range is empty, and together the ranges cover the pages from
    the first start page to the last page exactly. *)
Theorem detector_chapters_partition doc chs :
  chs = chapters_from_toc doc /\ 1 <= len_doc doc \/ chs = chapters_by_scanning doc ->
  gap_free_partition (len_doc doc - 1) chs.
Proof.
  intros [[-> Hn]| ->]; apply chained_partition.
  - apply chapters_from_toc_chained, Hn.
  - apply chapters_by_scanning_chained.
Qed.

Lemma detector_chapters_partition_witness :
  gap_free_partition (len_doc two_chapter_book - 1) (chapters_from_toc two_chapter_book)
  /\ gap_free_partition (len_doc running_header_book - 1)
       (chapters_by_scanning running_header_book).
Proof.
  split.
  - apply (detector_chapters_partition two_chapter_book). left.
    split; [reflexivity|]. vm_compute. discriminate.
  - apply (detector_chapters_partition running_header_book). right. reflexivity.
Defined.

(** C1 as stated fails on a document without pages: the outline detector
    returns one chapter, which ends on page 0 and not on page -1. *)
Lemma outline_chapter_beyond_empty_book :
  chapters_from_toc empty_book = [mkChapter (lit "TOC") (lit "Chapter One") 0 0]
  /\ len_doc empty_book - 1 = -1
  /\ ~ gap_free_partition (len_doc empty_book - 1) (chapters_from_toc empty_book).
Proof.
  assert (H : chapters_from_toc empty_book = [mkChapter (lit "TOC") (lit "Chapter One") 0 0])
    by (vm_compute; reflexivity).
  split; [exact H|]. split; [reflexivity|].
  intros Hp. pose proof (gfp_last _ _ Hp _ (f_equal last H)) as Hl.
  cbn in Hl. discriminate Hl.
Qed.

(** C4.  For a document of twenty pages whose outline is (1, "Chapter One", 1),
    (1, "Chapter Two", 10), the outline detector returns two chapters, pages 0
    to 8 and pages 9 to 19. *)
Theorem outline_of_two_chapters doc :
  get_toc doc = [(1, lit "Chapter One", 1); (1, lit "Chapter Two", 10)] ->
  len_doc doc = 20 ->
  chapters_from_toc doc =
  [mkChapter (lit "TOC") (lit "Chapter One") 0 8;
   mkChapter (lit "TOC") (lit "Chapter Two") 9 19].
Proof.
  intros Htoc Hlen. unfold chapters_from_toc. rewrite Htoc, Hlen.
  vm_compute. reflexivity.
Qed.

Lemma outline_of_two_chapters_witness :
  chapters_from_toc two_chapter_book =
  [mkChapter (lit "TOC") (lit "Chapter One") 0 8;
   mkChapter (lit "TOC") (lit "Chapter Two") 9 19].
Proof. apply (outline_of_two_chapters two_chapter_book); reflexivity. Defined.

(** C5, as amended.  The start pages of the outline detector's chapters are
    the clamped zero-based pages of the surviving entries whose page number is
    not zero, each once; an entry with page number zero contributes nothing;
    the clamped page lies in the document when the document has a page. *)
Theorem outline_start_pages doc :
  (forall s, s ∈ start_page <$> chapters_from_toc doc <->
             exists e, e ∈ toc_candidates (get_toc doc) /\ e.2 <> 0
                       /\ s = clamp_start (len_doc doc) e.2)
  /\ NoDup (start_page <$> chapters_from_toc doc)
  /\ (forall page1, 1 <= len_doc doc ->
        0 <= clamp_start (len_doc doc) page1 <= len_doc doc - 1).
Proof.
  rewrite chapters_from_toc_starts. split; [|split].
  - intros s. rewrite (sort_by_start_perm _). apply collect_starts_elem.
  - rewrite (sort_by_start_perm _). apply collect_starts_nodup.
  - intros page1 Hn. apply clamp_start_range, Hn.
Qed.

Lemma outline_start_pages_witness :
  9 ∈ start_page <$> chapters_from_toc two_chapter_book
  /\ 0 <= clamp_start (len_doc two_chapter_book) 10 <= len_doc two_chapter_book - 1.
Proof.
  split.
  - apply (proj1 (outline_start_pages two_chapter_book)).
    exists (1, lit "Chapter Two", 10). split; [|split].
    + vm_compute. right. left.
    + discriminate.
    + reflexivity.
  - apply (proj2 (proj2 (outline_start_pages two_chapter_book))). vm_compute. discriminate.
Defined.

(** C5 as stated fails on an entry whose page number is zero: it survives the
    filtering and yields no start page. *)
Lemma outline_entry_on_page_zero_dropped :
  toc_candidates (get_toc unplaced_entry_book) = [(1, lit "Chapter One", 0)]
  /\ collect_starts (len_doc unplaced_entry_book)
       (toc_candidates (get_toc unplaced_entry_book)) = []
  /\ chapters_from_toc unplaced_entry_book = [].
Proof. repeat split; vm_compute; reflexivity. Qed.

(** C6, as amended.  Every chapter of the outline detector carries the label
    "TOC". *)
Theorem outline_chapter_label doc c :
  c ∈ chapters_from_toc doc -> label c = lit "TOC".
Proof.
  rewrite chapters_from_toc_unfold. intros Hc.
  apply with_next_elem in Hc as (x & next & _ & ->). reflexivity.
Qed.

Lemma outline_chapter_label_witness :
  label (mkChapter (lit "TOC") (lit "Chapter One") 0 8) = lit "TOC".
Proof.
  apply (outline_chapter_label two_chapter_book).
  rewrite two_chapter_book_chapters. left.
Defined.

(** C6 as stated fails: the label is not "derived-from-outline". *)
Lemma outline_label_not_derived_from_outline :
  label <$> chapters_from_toc two_chapter_book = [lit "TOC"; lit "TOC"]
  /\ lit "TOC" <> lit "derived-from-outline".
Proof. split; [vm_compute; reflexivity|discriminate]. Qed.

(** ** The resolver *)

(** C2.  The resolver returns the outline detector's chapters whenever there
    are some, the scanning detector's chapters otherwise, and nothing when
    both find nothing. *)
Theorem detect_chapters_two_tier doc :
  (chapters_from_toc doc <> [] -> detect_chapters doc = chapters_from_toc doc)
  /\ (chapters_from_toc doc = [] -> detect_chapters doc = chapters_by_scanning doc)
  /\ (chapters_from_toc doc = [] -> chapters_by_scanning doc = [] ->
      detect_chapters doc = []).
Proof.
  unfold detect_chapters. destruct (chapters_from_toc doc) as [|c chs].
  - split; [congruence|]. split; [reflexivity|]. intros _ H. exact H.
  - split; [reflexivity|]. split; discriminate.
Qed.

Lemma detect_chapters_two_tier_witness :
  detect_chapters two_chapter_book = chapters_from_toc two_chapter_book
  /\ detect_chapters running_header_book = chapters_by_scanning running_header_book
  /\ detect_chapters plain_book = [].
Proof.
  split; [|split].
  - apply (proj1 (detect_chapters_two_tier two_chapter_book)).
    rewrite two_chapter_book_chapters. discriminate.
  - apply (proj1 (proj2 (detect_chapters_two_tier running_header_book))). reflexivity.
  - apply (proj2 (proj2 (detect_chapters_two_tier plain_book)));
      vm_compute; reflexivity.
Defined.

(** ** The scanning detector *)

(** C3.  The scanning detector keeps the first heading match and then every
    match whose page is at least two behind the page of the match kept last;
    with matches on pages 0 and 1 only, the one chapter runs from page 0 to
    the last page. *)
Theorem scan_keeps_matches_two_pages_apart doc :
  dedup_hits (scan_hits doc) = dedup_by_distance (scan_hits doc)
  /\ chapters_by_scanning doc =
     chapters_of_hits (len_doc doc) (dedup_by_distance (scan_hits doc))
  /\ (forall l0 t0 l1 t1,
        scan_hits doc = [(0, l0, t0); (1, l1, t1)] ->
        chapters_by_scanning doc = [mkChapter l0 t0 0 (len_doc doc - 1)]).
Proof.
  pose proof (dedup_hits_by_distance _ (scan_hits_nonneg doc)) as Hd.
  split; [exact Hd|]. split.
  - unfold chapters_by_scanning. rewrite Hd. destruct (scan_hits doc); reflexivity.
  - intros l0 t0 l1 t1 Hhits.
    pose proof (sublist_bounds _ _ _ (scan_hits_pages doc) (range_bounds _)) as Hb.
    unfold chapters_by_scanning. rewrite Hhits in *. cbn in Hb.
    apply Forall_cons in Hb as [_ Hb]. apply Forall_cons in Hb as [Hb _].
    rewrite Hd.
    change (dedup_by_distance [(0, l0, t0); (1, l1, t1)]) with [(0, l0, t0)].
    cbn. f_equal. f_equal. lia.
Qed.

Lemma scan_keeps_matches_two_pages_apart_witness :
  chapters_by_scanning running_header_book =
  [mkChapter (lit "1") (lit "The Start") 0 (len_doc running_header_book - 1)].
Proof.
  apply (proj2 (proj2 (scan_keeps_matches_two_pages_apart running_header_book))
           (lit "1") (lit "The Start") (lit "1") (lit "The Start")).
  vm_compute. reflexivity.
Defined.

(** ** What a match leaves behind *)

Lemma iterate_post (body : (cursor -> option cursor) -> cursor -> option cursor)
  (R : cursor -> cursor -> Prop) :
  (forall k c m, body k c = Some m -> exists c', R c c' /\ k c' = Some m) ->
  forall (n : nat) k c m,
    iterate body k n c = Some m -> exists c', rtc R c c' /\ k c' = Some m.
Proof.
  intros Hbody. induction n as [|n IH]; intros k c m; cbn [iterate].
  - intros H. exists c. split; [reflexivity|exact H].
  - destruct (body _ c) as [m'|] eqn:Hb.
    + intros [= ->]. apply Hbody in Hb as (c1 & Hc1 & Hk).
      destruct (length (rest c1) <? length (rest c))%nat; [|discriminate].
      apply IH in Hk as (c' & Hc' & Hk). exists c'. split; [|exact Hk].
      eapply rtc_l; eassumption.
    + intros H. exists c. split; [reflexivity|exact H].
Qed.

Lemma exec_post r : forall k c m,
  exec r k c = Some m -> exists c', post r c c' /\ k c' = Some m.
Proof.
  induction r as [|p|r1 IH1 r2 IH2|r1 IH1 r2 IH2|r1 IH1|n r1 IH1| | | |p];
    intros k c m; cbn [exec post].
  - eauto.
  - destruct (rest c) as [|a t] eqn:Hr; [discriminate|].
    destruct (p a) eqn:Hp; [|discriminate]. intros H. eauto 10.
  - intros H. apply IH1 in H as (c1 & H1 & H). apply IH2 in H as (c' & H2 & H). eauto.
  - destruct (exec r1 k c) as [m'|] eqn:H1.
    + intros [= ->]. apply IH1 in H1 as (c' & H1 & H). eauto.
    + intros H. apply IH2 in H as (c' & H2 & H). eauto.
  - apply iterate_post. exact IH1.
  - intros H. apply IH1 in H as (c1 & H1 & H). eauto.
  - destruct (prev c); [discriminate|]. eauto.
  - destruct (rest c) as [|a [|b t]]; [eauto| |discriminate].
    destruct (Py.code a =? 10)%N; [eauto|discriminate].
  - destruct (xorb _ _); [eauto|discriminate].
  - destruct (prev c) as [a|]; [|discriminate]. destruct (p a); [eauto|discriminate].
Qed.

Lemma post_group_free r : group_free r = true ->
  forall c c', post r c c' -> groups c' = groups c /\ lastindex c' = lastindex c.
Proof.
  induction r as [|p|r1 IH1 r2 IH2|r1 IH1 r2 IH2|r1 IH1|n r1 IH1| | | |p];
    cbn [group_free post]; intros Hg c c' H; try (subst c'; split; reflexivity).
  - destruct H as (a & t & _ & _ & ->). split; reflexivity.
  - apply andb_true_iff in Hg as [Hg1 Hg2]. destruct H as (c1 & H1 & H2).
    destruct (IH1 Hg1 _ _ H1) as [E1 E2]. destruct (IH2 Hg2 _ _ H2) as [E3 E4].
    split; congruence.
  - apply andb_true_iff in Hg as [Hg1 Hg2]. destruct H as [H|H]; eauto.
  - induction H as [c|c c1 c' H1 _ IH]; [split; reflexivity|].
    destruct (IH1 Hg _ _ H1) as [E1 E2]. destruct IH as [E3 E4]. split; congruence.
  - discriminate.
Qed.

Lemma post_cat_app l1 l2 c c' :
  post (cat (l1 ++ l2)) c c' <-> exists c1, post (cat l1) c c1 /\ post (cat l2) c1 c'.
Proof.
  revert c. induction l1 as [|r l1 IH]; intros c; cbn.
  - split; [intros H; exists c; auto|intros (c1 & -> & H); exact H].
  - split.
    + intros (c1 & H1 & H). apply IH in H as (c2 & H2 & H). eauto 10.
    + intros (c2 & (c1 & H1 & H2) & H). exists c1. split; [exact H1|].
      apply IH. eauto.
Qed.

Lemma group_free_cat l : forallb group_free l = true -> group_free (cat l) = true.
Proof.
  induction l as [|r l IH]; cbn; [reflexivity|].
  intros H. apply andb_true_iff in H as [-> H]. exact (IH H).
Qed.

(** A pattern that ends with group 2, pieces without group, group 3 and
    [$] binds both groups, and group 3 is the last one closed. *)
Lemma post_groups_two_three front x mid y c m :
  forallb group_free mid = true -> group_free y = true ->
  post (cat (front ++ [Group 2 x] ++ mid ++ [Group 3 y; Eol])) c m ->
  is_Some (group m 2) /\ is_Some (group m 3) /\ lastindex m = Some 3%nat.
Proof.
  intros Hmid Hy H.
  apply post_cat_app in H as (c1 & _ & H).
  apply post_cat_app in H as (c2 & H2 & H).
  apply post_cat_app in H as (c3 & H3 & H).
  destruct H2 as (c2' & (c1' & _ & ->) & ->).
  destruct (post_group_free _ (group_free_cat _ Hmid) _ _ H3) as [Hg3 _].
  destruct H as (c4 & (c3' & H4 & ->) & (c5 & -> & ->)).
  destruct (post_group_free _ Hy _ _ H4) as [Hg4 _].
  unfold group. cbn. rewrite Hg4, Hg3. cbn. eauto.
Qed.

(** Every match of a heading pattern has its groups 2 and 3, the ones
    [heading_of_match] reads. *)
Lemma chapter_patterns_bind_groups pat ln m :
  pat ∈ CHAPTER_PATTERNS -> Re.match_ pat ln = Some m ->
  is_Some (group m 2) /\ is_Some (group m 3) /\ lastindex m = Some 3%nat.
Proof.
  intros Hpat Hm. apply exec_post in Hm as (m' & Hpost & [= ->]).
  unfold CHAPTER_PATTERNS in Hpat.
  apply elem_of_cons in Hpat as [->|Hpat]; [|apply elem_of_cons in Hpat as [->|Hpat]];
    [| |apply list_elem_of_singleton in Hpat as ->].
  - apply (post_groups_two_three
             [Bol; Star space; Group 1 (word_i (lit "chapter")); plus space]
             numeral [WordBoundary; Star space] (Star dot) _ _ eq_refl eq_refl Hpost).
  - apply (post_groups_two_three
             [Bol; Star space; Group 1 (word_i (lit "chapter")); plus space]
             (plus letter_i) [WordBoundary; Star space] (Star dot) _ _ eq_refl eq_refl Hpost).
  - apply (post_groups_two_three
             [Bol; Star space;
              Group 1 (Alt (Seq (word_i (lit "ch")) (opt (chr ".")))
                           (Seq (word_i (lit "chap")) (opt (chr "."))));
              Star space; opt (one_of (lit "-:")); Star space]
             numeral [WordBoundary; Star space] (Star dot) _ _ eq_refl eq_refl Hpost).
Qed.

(** So the heading is made of the two groups themselves. *)
Lemma heading_of_match_groups pat ln m :
  pat ∈ CHAPTER_PATTERNS -> Re.match_ pat ln = Some m ->
  exists g2 g3,
    group m 2 = Some g2 /\ group m 3 = Some g3
    /\ heading_of_match m =
       (normalize_whitespace g2,
        Py.strip (Re.sub TITLE_SEPARATOR [] (normalize_whitespace g3))).
Proof.
  intros Hpat Hm.
  destruct (chapter_patterns_bind_groups _ _ _ Hpat Hm) as ([g2 H2] & [g3 H3] & Hl).
  exists g2, g3. split; [exact H2|]. split; [exact H3|].
  unfold heading_of_match. rewrite H2, H3, Hl. reflexivity.
Qed.

(** ** The heading matcher *)

Lemma match_patterns_some pats ln h :
  match_patterns pats ln = Some h ->
  exists pat m, pat ∈ pats /\ Re.match_ pat ln = Some m /\ h = heading_of_match m.
Proof.
  induction pats as [|pat pats IH]; cbn; [discriminate|].
  destruct (Re.match_ pat ln) as [m|] eqn:Hm.
  - intros [= <-]. exists pat, m. split; [left|auto].
  - intros H. destruct (IH H) as (pat' & m & Hin & Hm' & ->).
    exists pat', m. split; [right; exact Hin|auto].
Qed.

Lemma scan_for_heading_some lns h :
  scan_for_heading lns = Some h ->
  exists ln, ln ∈ lns /\ Py.len ln <= 140 /\ match_patterns CHAPTER_PATTERNS ln = Some h.
Proof.
  induction lns as [|ln lns IH]; cbn [scan_for_heading]; [discriminate|].
  destruct (Z.ltb_spec 140 (Py.len ln)) as [Hlong|Hshort].
  - intros H. destruct (IH H) as (ln' & Hin & Hm). exists ln'. split; [right; exact Hin|exact Hm].
  - destruct (match_patterns CHAPTER_PATTERNS ln) as [h'|] eqn:Hm.
    + intros [= <-]. exists ln. split; [left|auto].
    + intros H. destruct (IH H) as (ln' & Hin & Hm').
      exists ln'. split; [right; exact Hin|exact Hm'].
Qed.

(** The matcher on some lines. *)
Example heading_roman_with_dash :
  find_chapter_heading_on_page (lit "CHAPTER IV - A   Title  here ") =
  Some (lit "IV", lit "A Title here").
Proof. vm_compute. reflexivity. Qed.

Example heading_word_form :
  find_chapter_heading_on_page (lit "Chapter One") = Some (lit "One", []).
Proof. vm_compute. reflexivity. Qed.

Example heading_abbreviated :
  find_chapter_heading_on_page (lit "Ch. 12 -- Foo") = Some (lit "12", lit "Foo").
Proof. vm_compute. reflexivity. Qed.

Example heading_needs_whole_word :
  find_chapter_heading_on_page (lit "Chapters 3") = None
  /\ find_chapter_heading_on_page (lit "Chapter 3rd") = None.
Proof. split; vm_compute; reflexivity. Qed.

Example heading_below_plain_lines :
  find_chapter_heading_on_page chapter_three_page = Some (lit "3", lit "The Return").
Proof. vm_compute. reflexivity. Qed.

(** ** The narration loop *)

Lemma goto_page_in_range start_page end_page page line n :
  Py.isdigit (Py.strip line) = true ->
  Py.int (Py.strip line) = Some n ->
  start_page <= n - 1 <= end_page ->
  goto_page start_page end_page page line = inr ([], n - 1).
Proof.
  intros Hd Hi Hr. unfold goto_page. rewrite Hd, Hi.
  replace ((start_page <=? n - 1) && (n - 1 <=? end_page)) with true; [reflexivity|].
  symmetry. apply andb_true_iff. split; apply Z.leb_le; lia.
Qed.

Lemma goto_page_out_of_range start_page end_page page line n :
  Py.isdigit (Py.strip line) = true ->
  Py.int (Py.strip line) = Some n ->
  ~ start_page <= n - 1 <= end_page ->
  goto_page start_page end_page page line = inr ([Print (lit "Out of range.")], page).
Proof.
  intros Hd Hi Hr. unfold goto_page. rewrite Hd, Hi.
  replace ((start_page <=? n - 1) && (n - 1 <=? end_page)) with false; [reflexivity|].
  symmetry. apply andb_false_iff.
  destruct (Z.leb_spec start_page (n - 1)); [right; apply Z.leb_gt; lia|left; reflexivity].
Qed.

Lemma goto_page_not_numeric start_page end_page page line :
  Py.isdigit (Py.strip line) = false ->
  goto_page start_page end_page page line = inr ([Print (lit "Invalid page number.")], page).
Proof. intros Hd. unfold goto_page. rewrite Hd. reflexivity. Qed.

(** A line of decimal digits is a literal for [int]. *)
Lemma int_digits_decimal s : forall acc b,
  forallb Py.isdecimal_char s = true -> s <> [] \/ b = true ->
  exists n, Py.int_digits acc b s = Some n.
Proof.
  induction s as [|c s IH]; intros acc b Hs Hb; cbn.
  - destruct Hb as [Hb| ->]; [contradiction|]. eauto.
  - cbn in Hs. apply andb_true_iff in Hs as [Hc Hs]. rewrite Hc.
    apply IH; [exact Hs|right; reflexivity].
Qed.

Lemma decimal_char_plain c :
  Py.isdecimal_char c = true ->
  Py.int_space c = false /\ (Py.code c =? 45)%N = false /\ (Py.code c =? 43)%N = false.
Proof.
  destruct c as [[[] [] [] [] [] [] [] []]| |]; vm_compute; intros H;
    first [discriminate H | repeat split].
Qed.

Lemma int_decimal s :
  Py.truthy s = true -> forallb Py.isdecimal_char s = true ->
  Py.isdigit s = true /\ exists n, Py.int s = Some n.
Proof.
  intros Ht Hs. split.
  - unfold Py.isdigit. rewrite Ht. cbn. apply forallb_forall. intros c Hc.
    unfold Py.isdigit_char. rewrite (proj1 (forallb_forall _ _) Hs c Hc). reflexivity.
  - unfold Py.int. destruct s as [|c s]; [discriminate|].
    pose proof Hs as Hs'. cbn in Hs'. apply andb_true_iff in Hs' as [Hc _].
    destruct (decimal_char_plain c Hc) as (Hsp & Hminus & Hplus).
    cbn [Py.int_skip]. rewrite Hsp, Hminus, Hplus.
    apply int_digits_decimal; [exact Hs|left; discriminate].
Qed.

(** The command [g] on a line of decimal digits: the session moves to the
    page when it lies in the range and stays with a message otherwise; on a
    line that [str.isdigit] rejects it stays with a message. *)
Lemma goto_page_decimal start_page end_page page line :
  Py.truthy (Py.strip line) = true ->
  forallb Py.isdecimal_char (Py.strip line) = true ->
  exists n, Py.int (Py.strip line) = Some n
            /\ goto_page start_page end_page page line =
               if (start_page <=? n - 1) && (n - 1 <=? end_page)
               then inr ([], n - 1)
               else inr ([Print (lit "Out of range.")], page).
Proof.
  intros Ht Hs. destruct (int_decimal _ Ht Hs) as (Hd & n & Hn).
  exists n. split; [exact Hn|]. unfold goto_page. rewrite Hd, Hn. reflexivity.
Qed.

(** The session of the specification's example: at page 4 of the range 4..9,
    [g] and 7 lead to page 6, [g] and 99 leave the session there. *)
Example narration_goto_example :
  let run := narrate_pages plain_book 4 9 [lit "g"; lit "7"; lit "g"; lit "99"] in
  pages_entered run.1 = [4; 6; 6]
  /\ Print (lit "Out of range.") ∈ run.1
  /\ run.2 = AwaitingInput 6.
Proof.
  vm_compute. split; [reflexivity|]. split; [|reflexivity].
  do 6 right. left.
Qed.

(** C9, where the code departs from it.  The superscript two passes the test
    [val.isdigit()] and is no literal for [int]: the command [g] followed by
    it ends the session with a [ValueError] instead of keeping the page and
    reporting an error. *)
Theorem goto_superscript_digit_raises :
  Py.isdigit (Py.strip superscript_two) = true
  /\ Py.int (Py.strip superscript_two) = None
  /\ goto_page 4 9 4 superscript_two = inl ValueError
  /\ (narrate_pages plain_book 4 9 [lit "g"; superscript_two]).2 = Raised ValueError.
Proof. repeat split; vm_compute; reflexivity. Qed.

(** ** The shape of normalized text *)

Lemma code_inj a b : Py.code a = Py.code b -> a = b.
Proof.
  assert (Hlt : forall x, (N_of_ascii x < 256)%N).
  { intros x. destruct x as [[] [] [] [] [] [] [] []]; vm_compute; reflexivity. }
  destruct a as [x| |], b as [y| |]; cbn [Py.code]; intros H;
    try reflexivity; try discriminate H;
    try (pose proof (Hlt x); lia); try (pose proof (Hlt y); lia).
  rewrite <- (ascii_N_embedding x), H, ascii_N_embedding. reflexivity.
Qed.

Lemma char_eqb_eq a b : char_eqb a b = true -> a = b.
Proof.
  unfold char_eqb. intros H. apply N.eqb_eq in H. exact (code_inj a b H).
Qed.

Lemma char_eqb_refl a : char_eqb a a = true.
Proof. apply N.eqb_refl. Qed.

Lemma char_eqb_spec a b : reflect (a = b) (char_eqb a b).
Proof.
  destruct (char_eqb a b) eqn:E; constructor; [exact (char_eqb_eq a b E)|].
  intros ->. rewrite char_eqb_refl in E. discriminate.
Qed.

Lemma space_is_blank a : char_eqb a (Latin " ") = true -> a = Latin " ".
Proof. apply char_eqb_eq. Qed.

Lemma ink_app s t : ink (s ++ t) = ink s ++ ink t.
Proof. apply List.filter_app. Qed.

Lemma ink_rev s : ink (rev s) = rev (ink s).
Proof.
  induction s as [|a s IH]; [reflexivity|]. cbn [rev]. rewrite ink_app, IH. cbn.
  destruct (Py.isspace a); cbn; [apply app_nil_r|reflexivity].
Qed.

Lemma ink_lstrip s : ink (Py.lstrip s) = ink s.
Proof.
  induction s as [|a s IH]; cbn; [reflexivity|].
  destruct (Py.isspace a) eqn:Ha; cbn; [exact IH|]. rewrite Ha. reflexivity.
Qed.

Lemma ink_strip s : ink (Py.strip s) = ink s.
Proof.
  unfold Py.strip, Py.rstrip.
  rewrite ink_rev, ink_lstrip, ink_rev, ink_lstrip. apply rev_involutive.
Qed.

Lemma ink_nil_iff s : ink s = [] <-> has_ink s = false.
Proof.
  induction s as [|a s IH]; cbn; [tauto|].
  destruct (Py.isspace a); cbn; [exact IH|]. split; discriminate.
Qed.

Lemma collapse_skip_spaces t : forall p,
  collapse true t = collapse false (skip_spaces p t).2.
Proof.
  induction t as [|a t IH]; intros p; cbn; [reflexivity|].
  destruct (Py.isspace a) eqn:Ha; [apply IH|]. cbn. rewrite Ha. reflexivity.
Qed.

(** [re.sub] on runs of white space is [collapse]. *)
Lemma sub_whitespace_collapse (fuel : nat) : forall p s,
  (length s < fuel)%nat ->
  sub_from fuel WHITESPACE_RUN (lit " ") p s = collapse false s.
Proof.
  induction fuel as [|fuel IH]; intros p s Hf; [lia|].
  cbn [sub_from]. rewrite match_here_whitespace.
  destruct s as [|a t]; [reflexivity|]. cbn in Hf. cbn [collapse].
  destruct (Py.isspace a).
  - cbn [prev rest]. rewrite IH.
    + cbn. f_equal. symmetry. apply collapse_skip_spaces.
    + pose proof (length_skip_spaces t (Some a)). lia.
  - rewrite IH by lia. reflexivity.
Qed.

Lemma normalize_whitespace_collapse s :
  normalize_whitespace s = Py.strip (collapse false s).
Proof. unfold normalize_whitespace, Re.sub. rewrite sub_whitespace_collapse by lia. reflexivity. Qed.

Lemma ink_collapse s : forall b, ink (collapse b s) = ink s.
Proof.
  induction s as [|a s IH]; intros b; cbn; [reflexivity|].
  destruct (Py.isspace a) eqn:Ha.
  - destruct b; cbn; apply IH.
  - cbn. rewrite Ha, IH. reflexivity.
Qed.

Lemma collapse_true_clean s : starts_clean (collapse true s).
Proof.
  induction s as [|a s IH]; cbn; [exact I|].
  destruct (Py.isspace a) eqn:Ha; [exact IH|exact Ha].
Qed.

Lemma blanks_single_collapse s : forall b, blanks_single (collapse b s) = true.
Proof.
  induction s as [|a s IH]; intros b; cbn; [reflexivity|].
  destruct (Py.isspace a) eqn:Ha.
  - destruct b; [apply IH|]. cbn. rewrite IH, andb_true_r.
    pose proof (collapse_true_clean s) as Hc.
    destruct (collapse true s) as [|c t]; [reflexivity|]. cbn in Hc. rewrite Hc. reflexivity.
  - cbn. rewrite Ha. apply IH.
Qed.

Lemma blanks_single_app u v :
  blanks_single (u ++ v) = true -> blanks_single u = true /\ blanks_single v = true.
Proof.
  induction u as [|a u IH]; cbn; [auto|].
  intros H. apply andb_true_iff in H as [Ha H]. destruct (IH H) as [Hu Hv].
  split; [|exact Hv]. rewrite Hu, andb_true_r.
  destruct (Py.isspace a); [|reflexivity].
  apply andb_true_iff in Ha as [-> Ha]. destruct u as [|b u]; [reflexivity|exact Ha].
Qed.

Lemma strip_clean_ends s : starts_clean (Py.strip s) /\ starts_clean (rev (Py.strip s)).
Proof.
  split.
  - unfold Py.strip, Py.rstrip.
    set (u := Py.lstrip s). set (v := Py.lstrip (rev u)).
    destruct (lstrip_suffix (rev u)) as [pre Hpre]. fold v in Hpre.
    assert (Hu : u = rev v ++ rev pre).
    { rewrite <- rev_app_distr, <- Hpre, rev_involutive. reflexivity. }
    pose proof (lstrip_clean s) as Hc. fold u in Hc. rewrite Hu in Hc.
    destruct (rev v); [exact I|exact Hc].
  - unfold Py.strip, Py.rstrip. rewrite rev_involutive. apply lstrip_clean.
Qed.

Lemma strip_normal s : blanks_single s = true -> normal (Py.strip s).
Proof.
  intros Hs. destruct (strip_clean_ends s) as [H1 H2]. split; [exact H1|]. split; [exact H2|].
  destruct (strip_middle s) as (pre & suf & H). rewrite H in Hs.
  apply blanks_single_app in Hs as [_ Hs]. apply blanks_single_app in Hs as [Hs _]. exact Hs.
Qed.

Lemma normal_strip s : normal s -> Py.strip s = s.
Proof.
  intros (H1 & H2 & _). unfold Py.strip, Py.rstrip.
  rewrite (lstrip_fix s H1), (lstrip_fix _ H2). apply rev_involutive.
Qed.

Lemma collapse_fix s : blanks_single s = true -> collapse false s = s.
Proof.
  induction s as [|a s IH]; cbn; [reflexivity|].
  intros H. apply andb_true_iff in H as [Ha Hs].
  destruct (Py.isspace a) eqn:Hsp; [|rewrite IH by exact Hs; reflexivity].
  apply andb_true_iff in Ha as [Ha Hnext]. rewrite (space_is_blank a Ha). f_equal.
  specialize (IH Hs). destruct s as [|b s]; [reflexivity|].
  apply negb_true_iff in Hnext. cbn in IH |- *. rewrite Hnext in IH |- *. exact IH.
Qed.

Lemma normalize_whitespace_normal s : normal (normalize_whitespace s).
Proof. rewrite normalize_whitespace_collapse. apply strip_normal, blanks_single_collapse. Qed.

Lemma normalize_whitespace_fix s : normal s -> normalize_whitespace s = s.
Proof.
  intros H. rewrite normalize_whitespace_collapse, collapse_fix by apply H.
  apply normal_strip, H.
Qed.

Lemma ink_normalize_whitespace s : ink (normalize_whitespace s) = ink s.
Proof. rewrite normalize_whitespace_collapse, ink_strip. apply ink_collapse. Qed.

Lemma truthy_has_ink_normal s : normal s -> Py.truthy s = has_ink s.
Proof. intros H. rewrite <- truthy_strip, (normal_strip s H). reflexivity. Qed.

(** X1.  [normalize_whitespace] replaces every run of white space by one
    blank and drops the white space at the ends.  So its result has a visible
    character at each end and single blanks inside; it keeps the visible
    characters and their order; it leaves a text of that form as it is, so
    that normalizing twice is normalizing once; and its result is empty
    exactly when the text has no visible character. *)
Theorem normalize_whitespace_canonical s :
  normalize_whitespace s = whitespace_normalized s
  /\ normal (normalize_whitespace s)
  /\ ink (normalize_whitespace s) = ink s
  /\ (normal s -> normalize_whitespace s = s)
  /\ normalize_whitespace (normalize_whitespace s) = normalize_whitespace s
  /\ (normalize_whitespace s = [] <-> has_ink s = false).
Proof.
  split; [apply normalize_whitespace_collapse|].
  split; [apply normalize_whitespace_normal|]. split; [apply ink_normalize_whitespace|].
  split; [apply normalize_whitespace_fix|].
  split; [apply normalize_whitespace_fix, normalize_whitespace_normal|].
  split.
  - intros H. apply ink_nil_iff. rewrite <- ink_normalize_whitespace, H. reflexivity.
  - intros H. pose proof (truthy_has_ink_normal _ (normalize_whitespace_normal s)) as Ht.
    assert (Hi : has_ink (normalize_whitespace s) = false).
    { apply ink_nil_iff. rewrite ink_normalize_whitespace. apply ink_nil_iff, H. }
    rewrite Hi in Ht. destruct (normalize_whitespace s); [reflexivity|discriminate].
Qed.

Lemma normalize_whitespace_canonical_witness :
  normalize_whitespace (lit "Hello world.") = lit "Hello world.".
Proof.
  apply (proj1 (proj2 (proj2 (proj2 (normalize_whitespace_canonical (lit "Hello world.")))))).
  vm_compute. repeat split; reflexivity.
Defined.

(** ** What a match consumes *)

Lemma post_consumes (P : char -> bool) r : only_matches P r ->
  forall c c', post r c c' -> exists w, rest c = w ++ rest c' /\ forallb P w = true.
Proof.
  induction r as [|p|r1 IH1 r2 IH2|r1 IH1 r2 IH2|r1 IH1|n r1 IH1| | | |p];
    cbn [only_matches post]; intros Hr c c' H;
    try (subst c'; exists []; split; reflexivity).
  - destruct H as (a & t & Hc & Hp & ->). exists [a]. split; [exact Hc|].
    cbn. rewrite (Hr a Hp). reflexivity.
  - destruct Hr as [Hr1 Hr2]. destruct H as (c1 & H1 & H2).
    destruct (IH1 Hr1 _ _ H1) as (w1 & E1 & F1). destruct (IH2 Hr2 _ _ H2) as (w2 & E2 & F2).
    exists (w1 ++ w2). split; [rewrite E1, E2; apply app_assoc|].
    rewrite forallb_app, F1, F2. reflexivity.
  - destruct Hr as [Hr1 Hr2]. destruct H as [H|H]; eauto.
  - induction H as [c|c c1 c' H1 _ IH]; [exists []; split; reflexivity|].
    destruct (IH1 Hr _ _ H1) as (w1 & E1 & F1). destruct IH as (w2 & E2 & F2).
    exists (w1 ++ w2). split; [rewrite E1, E2; apply app_assoc|].
    rewrite forallb_app, F1, F2. reflexivity.
  - destruct H as (c1 & H1 & ->). exact (IH1 Hr _ _ H1).
Qed.

Lemma match_here_consumes (P : char -> bool) r p s m :
  only_matches P r -> match_here r p s = Some m ->
  exists w, s = w ++ rest m /\ forallb P w = true.
Proof.
  intros Hr. unfold match_here.
  destruct (exec r Some (at_position p s)) as [m'|] eqn:He; [|discriminate].
  destruct (length (rest m') <? length s)%nat; [|discriminate]. intros [= ->].
  apply exec_post in He as (c' & Hpost & [= ->]).
  exact (post_consumes P r Hr _ _ Hpost).
Qed.

Lemma ink_spaces w : forallb Py.isspace w = true -> ink w = [].
Proof.
  induction w as [|a w IH]; cbn; [reflexivity|].
  intros H. apply andb_true_iff in H as [-> H]. exact (IH H).
Qed.

Lemma ink_concat_split (fuel : nat) r : only_matches Py.isspace r ->
  forall cur p s, ink (concat (split_from fuel r cur p s)) = ink (cur ++ s).
Proof.
  intros Hr. induction fuel as [|fuel IH]; intros cur p s; cbn [split_from].
  - cbn. rewrite app_nil_r. reflexivity.
  - destruct (match_here r p s) as [m|] eqn:Hm.
    + destruct (match_here_consumes _ _ _ _ _ Hr Hm) as (w & -> & Hw).
      cbn [concat]. rewrite ink_app, IH, !ink_app, (ink_spaces w Hw). reflexivity.
    + destruct s as [|a t]; [cbn; rewrite !app_nil_r; reflexivity|].
      rewrite IH, <- app_assoc. reflexivity.
Qed.

Lemma paragraph_break_spaces : only_matches Py.isspace PARAGRAPH_BREAK.
Proof.
  assert (H : forall a, char_eqb "010" a = true -> Py.isspace a = true).
  { intros a Ha. apply char_eqb_eq in Ha as <-. reflexivity. }
  cbn. tauto.
Qed.

Lemma ink_concat_paragraphs txt : ink (concat (paragraphs txt)) = ink txt.
Proof.
  unfold paragraphs, Re.split.
  etrans; [|exact (ink_concat_split (S (length txt)) _ paragraph_break_spaces [] None txt)].
  induction (split_from _ _ _ _ _) as [|x parts IH]; [reflexivity|].
  cbn [List.filter]. rewrite truthy_strip. cbn [concat]. rewrite ink_app, <- IH.
  destruct (has_ink x) eqn:Hx.
  - cbn [map concat]. rewrite ink_app, ink_strip. reflexivity.
  - apply ink_nil_iff in Hx. rewrite Hx. reflexivity.
Qed.

(** ** Sentences of a normalized paragraph *)

Lemma ends_sentence_visible b : ends_sentence b = true -> Py.isspace b = false.
Proof.
  unfold ends_sentence. cbn. rewrite orb_false_r. intros H.
  apply orb_true_iff in H as [H|H]; [|apply orb_true_iff in H as [H|H]];
    apply char_eqb_eq in H as ->; reflexivity.
Qed.

Lemma breaks_between_inv p a :
  breaks_between p a = true ->
  exists b, p = Some b /\ Py.isspace b = false /\ Py.isspace a = true.
Proof.
  destruct p as [b|]; cbn; [|discriminate]. intros H.
  apply andb_true_iff in H as [Hb Ha]. exists b.
  split; [reflexivity|]. split; [apply ends_sentence_visible, Hb|exact Ha].
Qed.

Lemma blanks_single_space a t :
  blanks_single (a :: t) = true -> Py.isspace a = true ->
  a = Latin " " /\ starts_clean t /\ forall q, skip_spaces q t = (q, t).
Proof.
  cbn. intros H Ha. rewrite Ha in H. apply andb_true_iff in H as [H _].
  apply andb_true_iff in H as [Hb Hn]. split; [exact (char_eqb_eq _ _ Hb)|].
  destruct t as [|b t]; [split; [exact I|reflexivity]|].
  apply negb_true_iff in Hn. split; [exact Hn|]. intros q. cbn. rewrite Hn. reflexivity.
Qed.

Lemma ends_clean_last x b :
  last x = Some b -> Py.isspace b = false -> starts_clean (rev x).
Proof.
  intros Hl Hb. apply last_Some in Hl as [x' ->]. rewrite rev_app_distr. exact Hb.
Qed.

Lemma ends_clean_suffix u t :
  t <> [] -> starts_clean (rev (u ++ t)) -> starts_clean (rev t).
Proof.
  intros Ht. rewrite rev_app_distr. destruct (rev t) as [|c r] eqn:Hr; [|auto].
  intros _. exact I.
Qed.

Lemma join_cons sep x l : l <> [] -> join sep (x :: l) = x ++ sep ++ join sep l.
Proof. destruct l; [contradiction|reflexivity]. Qed.

Lemma split_sentences_normal (fuel : nat) : forall cur p s,
  (length s < fuel)%nat ->
  blanks_single (cur ++ s) = true ->
  starts_clean (cur ++ s) -> starts_clean (rev (cur ++ s)) -> cur ++ s <> [] ->
  cur = [] \/ last cur = p ->
  Forall (fun x => normal x /\ x <> []) (split_from fuel SENTENCE_BREAK cur p s)
  /\ join (lit " ") (split_from fuel SENTENCE_BREAK cur p s) = cur ++ s.
Proof.
  induction fuel as [|fuel IH]; intros cur p s Hf Hb Hs He Hne Hlast; [lia|].
  cbn [split_from]. rewrite match_here_sentence_break.
  destruct s as [|a t].
  - rewrite app_nil_r in *. split; [|reflexivity].
    constructor; [|constructor]. split; [|exact Hne]. split; [exact Hs|]. split; assumption.
  - cbn in Hf. destruct (breaks_between p a) eqn:Hbr.
    + apply breaks_between_inv in Hbr as (b & -> & Hb' & Ha).
      destruct (blanks_single_app _ _ Hb) as [Hbc Hbt].
      destruct (blanks_single_space a t Hbt Ha) as (-> & Hct & Hskip).
      rewrite Hskip. cbn [prev rest fst snd].
      assert (Hcur : cur <> []).
      { intros ->. cbn in Hs. rewrite Hs in Ha. discriminate. }
      destruct Hlast as [Hlast|Hlast]; [contradiction|].
      assert (Ht : t <> []).
      { intros ->. rewrite rev_app_distr in He. cbn in He. discriminate. }
      assert (Het : starts_clean (rev t)).
      { apply (ends_clean_suffix (cur ++ [Latin " "])); [exact Ht|].
        rewrite <- app_assoc. exact He. }
      destruct (blanks_single_app [Latin " "] t Hbt) as [_ Hbt'].
      destruct (IH [] (Some (Latin " ")) t ltac:(lia) Hbt' Hct Het Ht (or_introl eq_refl))
        as [IH1 IH2].
      split.
      * constructor; [|exact IH1]. split; [|exact Hcur].
        split; [destruct cur; [contradiction|exact Hs]|].
        split; [exact (ends_clean_last _ _ Hlast Hb')|exact Hbc].
      * rewrite join_cons by apply split_from_nonempty. rewrite IH2. reflexivity.
    + destruct (IH (cur ++ [a]) (Some a) t) as [IH1 IH2];
        rewrite <- ?app_assoc; try assumption; try lia.
      * right. apply last_snoc.
      * split; [exact IH1|]. rewrite IH2, <- app_assoc. reflexivity.
Qed.

Lemma sentences_of_normal q :
  normal q -> q <> [] ->
  Forall (fun x => normal x /\ x <> []) (Re.split SENTENCE_BREAK q)
  /\ join (lit " ") (Re.split SENTENCE_BREAK q) = q.
Proof.
  intros (H1 & H2 & H3) Hne.
  apply (split_sentences_normal (S (length q)) [] None q); cbn; auto.
Qed.

(** ** The chunks of a paragraph *)

Lemma join_glue sep x y l2 : forall l1,
  join sep (l1 ++ (x ++ sep ++ y) :: l2) = join sep (l1 ++ x :: y :: l2).
Proof.
  induction l1 as [|a l1 IH]; cbn [app].
  - cbn [join]. destruct l2; [reflexivity|]. rewrite <- !app_assoc. reflexivity.
  - rewrite !join_cons by (destruct l1; discriminate). rewrite IH. reflexivity.
Qed.

Lemma starts_clean_rev_cons a u :
  u <> [] -> starts_clean (rev (a :: u)) -> starts_clean (rev u).
Proof.
  intros Hu. cbn [rev]. destruct (rev u) as [|c r] eqn:Hr; [|auto].
  apply (f_equal (@rev char)) in Hr. rewrite rev_involutive in Hr. contradiction.
Qed.

Lemma blanks_single_glue u v :
  blanks_single u = true -> blanks_single v = true ->
  starts_clean (rev u) \/ starts_clean v ->
  blanks_single (u ++ v) = true.
Proof.
  induction u as [|a u IH]; intros Hu Hv Hc; [exact Hv|].
  cbn [blanks_single] in Hu. apply andb_true_iff in Hu as [Ha Hu].
  destruct u as [|b u].
  - cbn [app blanks_single]. rewrite Hv, andb_true_r.
    destruct (Py.isspace a) eqn:Hsp; [|reflexivity].
    apply andb_true_iff in Ha as [-> _]. cbn [andb].
    destruct Hc as [Hc|Hc]; [cbn in Hc; congruence|].
    destruct v as [|c v]; [reflexivity|]. cbn in Hc. rewrite Hc. reflexivity.
  - change (blanks_single ((a :: b :: u) ++ v)) with
      ((if Py.isspace a then char_eqb a " " && negb (Py.isspace b) else true)
       && blanks_single ((b :: u) ++ v)).
    rewrite IH; [rewrite andb_true_r; exact Ha|exact Hu|exact Hv|].
    destruct Hc as [Hc|Hc]; [left|right; exact Hc].
    apply (starts_clean_rev_cons a); [discriminate|exact Hc].
Qed.

Lemma normal_glue x y :
  normal x -> x <> [] -> normal y -> y <> [] -> normal (x ++ lit " " ++ y).
Proof.
  intros (Hx1 & Hx2 & Hx3) Hx (Hy1 & Hy2 & Hy3) Hy. split; [|split].
  - destruct x; [contradiction|exact Hx1].
  - rewrite !rev_app_distr. destruct (rev y) as [|c r] eqn:Hr; [|exact Hy2].
    apply (f_equal (@rev char)) in Hr. rewrite rev_involutive in Hr. contradiction.
  - apply blanks_single_glue; [exact Hx3| |left; exact Hx2].
    destruct y as [|c y]; [contradiction|]. cbn in Hy1.
    assert (E : blanks_single (lit " " ++ c :: y) =
                char_eqb " " " " && negb (Py.isspace c) && blanks_single (c :: y))
      by reflexivity.
    rewrite E, Hy1, Hy3. reflexivity.
Qed.

Lemma strip_blank_normal y : normal y -> Py.strip (lit " " ++ y) = y.
Proof. intros Hy. exact (normal_strip y Hy). Qed.

Lemma pack_sentence_acc max_chars part chunks buf acc :
  pack_sentence max_chars (acc ++ chunks, buf) part =
  (acc ++ (pack_sentence max_chars (chunks, buf) part).1,
   (pack_sentence max_chars (chunks, buf) part).2).
Proof.
  unfold pack_sentence. destruct (negb _); [reflexivity|].
  destruct (_ <=? _); [reflexivity|]. destruct (Py.truthy buf); cbn; [|reflexivity].
  rewrite app_assoc. reflexivity.
Qed.

Lemma fold_pack_sentence_acc max_chars parts : forall chunks buf acc,
  fold_left (pack_sentence max_chars) parts (acc ++ chunks, buf) =
  (acc ++ (fold_left (pack_sentence max_chars) parts (chunks, buf)).1,
   (fold_left (pack_sentence max_chars) parts (chunks, buf)).2).
Proof.
  induction parts as [|part parts IH]; intros chunks buf acc; [reflexivity|].
  cbn [fold_left]. rewrite pack_sentence_acc.
  destruct (pack_sentence max_chars (chunks, buf) part) as [chunks' buf']. apply IH.
Qed.

Lemma chunk_paragraph_acc max_chars acc p :
  chunk_paragraph max_chars acc p = acc ++ chunk_paragraph max_chars [] p.
Proof.
  pose (finish := fun r : list text * text =>
                    let '(chunks, buf) := r in
                    if Py.truthy buf then chunks ++ [buf] else chunks).
  assert (G : forall r : list text * text, finish (acc ++ r.1, r.2) = acc ++ finish r).
  { intros [chunks buf]. cbn. destruct (Py.truthy buf); [symmetry; apply app_assoc|reflexivity]. }
  unfold chunk_paragraph. cbv zeta. destruct (_ <=? _); [reflexivity|].
  pose proof (fold_pack_sentence_acc max_chars
                (Re.split SENTENCE_BREAK (normalize_whitespace p)) [] [] acc) as H.
  rewrite app_nil_r in H.
  etrans; [exact (f_equal finish H)|]. exact (G _).
Qed.

Lemma chunk_text_flat_map txt max_chars :
  chunk_text_for_speaking txt max_chars =
  flat_map (chunk_paragraph max_chars []) (paragraphs txt).
Proof.
  unfold chunk_text_for_speaking.
  assert (H : forall ps acc,
            fold_left (chunk_paragraph max_chars) ps acc =
            acc ++ flat_map (chunk_paragraph max_chars []) ps).
  { induction ps as [|p ps IH]; intros acc; cbn; [rewrite app_nil_r; reflexivity|].
    rewrite IH, chunk_paragraph_acc, app_assoc. reflexivity. }
  apply (H _ []).
Qed.

Lemma fold_pack_sentence_join max_chars parts : forall chunks buf,
  Forall (fun x => normal x /\ x <> []) parts ->
  Forall (fun x => normal x /\ x <> []) chunks -> normal buf ->
  let r := fold_left (pack_sentence max_chars) parts (chunks, buf) in
  Forall (fun x => normal x /\ x <> []) r.1 /\ normal r.2
  /\ join (lit " ") (r.1 ++ if Py.truthy r.2 then [r.2] else []) =
     join (lit " ") ((chunks ++ if Py.truthy buf then [buf] else []) ++ parts).
Proof.
  induction parts as [|part parts IH]; intros chunks buf Hparts Hchunks Hbuf.
  - cbn. rewrite app_nil_r. auto.
  - apply Forall_cons in Hparts as [[Hp Hne] Hparts].
    assert (Htp : Py.truthy part = true) by (destruct part; [contradiction|reflexivity]).
    assert (Hstep : pack_sentence max_chars (chunks, buf) part =
                    if Py.len buf + Py.len part + 1 <=? max_chars
                    then (chunks, Py.strip (buf ++ lit " " ++ part))
                    else (if Py.truthy buf then chunks ++ [buf] else chunks, part)).
    { unfold pack_sentence. rewrite (normal_strip part Hp), Htp. reflexivity. }
    cbn [fold_left]. cbv zeta. rewrite Hstep. clear Hstep.
    destruct (_ <=? _).
    + destruct (Py.truthy buf) eqn:Htb.
      * assert (Hbne : buf <> []) by (intros ->; discriminate).
        pose proof (normal_glue buf part Hbuf Hbne Hp Hne) as Hg.
        rewrite (normal_strip _ Hg).
        destruct (IH chunks (buf ++ lit " " ++ part) Hparts Hchunks Hg) as (I1 & I2 & I3).
        split; [exact I1|]. split; [exact I2|]. cbv zeta in I3. rewrite I3.
        replace (Py.truthy (buf ++ lit " " ++ part)) with true
          by (destruct buf; [contradiction|reflexivity]).
        rewrite <- !app_assoc. cbn [app]. apply join_glue.
      * assert (Hb0 : buf = []) by (destruct buf; [reflexivity|discriminate]).
        rewrite Hb0. change ([] ++ lit " " ++ part) with (lit " " ++ part).
        rewrite (strip_blank_normal part Hp).
        destruct (IH chunks part Hparts Hchunks Hp) as (I1 & I2 & I3).
        split; [exact I1|]. split; [exact I2|]. cbv zeta in I3. rewrite I3.
        rewrite Htp. rewrite app_nil_r, <- app_assoc. reflexivity.
    + assert (Hc' : Forall (fun x => normal x /\ x <> [])
                      (if Py.truthy buf then chunks ++ [buf] else chunks)).
      { destruct (Py.truthy buf) eqn:Htb; [|exact Hchunks].
        apply Forall_app. split; [exact Hchunks|]. constructor; [|constructor].
        split; [exact Hbuf|intros ->; discriminate]. }
      destruct (IH _ part Hparts Hc' Hp) as (I1 & I2 & I3).
      split; [exact I1|]. split; [exact I2|]. cbv zeta in I3. rewrite I3, Htp.
      destruct (Py.truthy buf); rewrite <- ?app_assoc; cbn [app];
        rewrite ?app_nil_r; reflexivity.
Qed.

Lemma normal_nil : normal [].
Proof. repeat split. Qed.

Lemma chunk_paragraph_join max_chars p :
  has_ink p = true ->
  Forall (fun x => normal x /\ x <> []) (chunk_paragraph max_chars [] p)
  /\ join (lit " ") (chunk_paragraph max_chars [] p) = normalize_whitespace p.
Proof.
  intros Hink.
  pose proof (normalize_whitespace_normal p) as Hq.
  assert (Hne : normalize_whitespace p <> []).
  { pose proof (normalize_whitespace_truthy p Hink) as Ht. intros E. rewrite E in Ht. discriminate. }
  unfold chunk_paragraph. destruct (_ <=? _).
  - split; [|reflexivity]. constructor; [split; assumption|constructor].
  - destruct (sentences_of_normal _ Hq Hne) as [Hparts Hjoin].
    destruct (fold_pack_sentence_join max_chars _ [] [] Hparts (Forall_nil_2 _) normal_nil)
      as (I1 & I2 & I3).
    cbn zeta in I3. cbn [app Py.truthy] in I3. rewrite Hjoin in I3.
    destruct (fold_left (pack_sentence max_chars) _ _) as [chunks buf]. cbn [fst snd] in *.
    destruct (Py.truthy buf) eqn:Htb.
    + split; [|exact I3]. apply Forall_app. split; [exact I1|].
      constructor; [|constructor]. split; [exact I2|intros ->; discriminate].
    + rewrite app_nil_r in I3. auto.
Qed.

(** C8.  The chunks of a text are the chunks of its paragraphs, in order.
    A paragraph whose normalized length is exactly the limit gives exactly
    one chunk, the normalized paragraph; so does a paragraph that is longer
    than the limit and has no sentence boundary inside; and a chunk longer
    than the limit is always one whole sentence of one paragraph, with no
    sentence boundary inside. *)
Theorem chunker_boundaries txt max_chars :
  (forall before p after,
     paragraphs txt = before ++ p :: after ->
     Py.len (normalize_whitespace p) = max_chars ->
     chunk_text_for_speaking txt max_chars =
     flat_map (chunk_paragraph max_chars []) before
     ++ [normalize_whitespace p]
     ++ flat_map (chunk_paragraph max_chars []) after)
  /\ (forall before p after,
        paragraphs txt = before ++ p :: after ->
        max_chars < Py.len (normalize_whitespace p) ->
        has_sentence_break None (normalize_whitespace p) = false ->
        chunk_text_for_speaking txt max_chars =
        flat_map (chunk_paragraph max_chars []) before
        ++ [normalize_whitespace p]
        ++ flat_map (chunk_paragraph max_chars []) after)
  /\ (forall c, c ∈ chunk_text_for_speaking txt max_chars ->
                max_chars < Py.len c ->
                has_sentence_break None c = false
                /\ exists p, p ∈ paragraphs txt
                             /\ c ∈ Py.strip <$> Re.split SENTENCE_BREAK (normalize_whitespace p)).
Proof.
  assert (Hsplit : forall before p after,
            paragraphs txt = before ++ p :: after ->
            chunk_paragraph max_chars [] p = [normalize_whitespace p] ->
            chunk_text_for_speaking txt max_chars =
            flat_map (chunk_paragraph max_chars []) before
            ++ [normalize_whitespace p]
            ++ flat_map (chunk_paragraph max_chars []) after).
  { intros before p after Hp Hone. rewrite chunk_text_flat_map, Hp, flat_map_app.
    cbn [flat_map]. rewrite Hone. reflexivity. }
  split; [|split].
  - intros before p after Hp Hlen. apply Hsplit; [exact Hp|].
    apply (chunk_paragraph_fits max_chars [] p). lia.
  - intros before p after Hp Hlen Hbreak. apply Hsplit; [exact Hp|].
    apply single_sentence_iff in Hbreak.
    apply (chunk_paragraph_single_sentence max_chars [] p); [|exact Hlen|exact Hbreak].
    apply (paragraphs_have_ink txt). rewrite Hp. apply elem_of_app. right. left.
  - intros c Hc Hlen.
    destruct (oversized_chunk_is_sentence _ _ _ Hc Hlen) as (p & Hp & Hin).
    split; [exact (sentences_break_free _ _ Hin)|]. exists p. auto.
Qed.

Lemma chunker_boundaries_witness :
  chunk_text_for_speaking two_paragraphs 12 = [lit "Hello there."; lit "Good bye now"]
  /\ chunk_text_for_speaking short_and_long_page 16 =
     [lit "One. Two. Three.";
      lit "An unreasonably long sentence without any full stop in it"]
  /\ has_sentence_break None
       (lit "An unreasonably long sentence without any full stop in it") = false.
Proof.
  split; [|split].
  - apply (proj1 (chunker_boundaries two_paragraphs 12)
             [lit "Hello there."] (lit "Good bye now") []);
      vm_compute; reflexivity.
  - apply (proj1 (proj2 (chunker_boundaries short_and_long_page 16))
             [lit "One. Two. Three."]
             (lit "An unreasonably long sentence without any full stop in it") []);
      vm_compute; reflexivity.
  - apply (proj2 (proj2 (chunker_boundaries short_and_long_page 10))).
    + vm_compute. do 2 right. left.
    + vm_compute. reflexivity.
Defined.

(** X2.  The chunker works paragraph by paragraph, and the chunks of a
    paragraph, joined by single blanks, are the normalized paragraph: nothing
    is lost, repeated or reordered, whatever the limit. *)
Theorem chunks_rebuild_paragraphs txt max_chars :
  chunk_text_for_speaking txt max_chars =
  flat_map (chunk_paragraph max_chars []) (paragraphs txt)
  /\ Forall (fun p => join (lit " ") (chunk_paragraph max_chars [] p) = normalize_whitespace p)
            (paragraphs txt).
Proof.
  split; [apply chunk_text_flat_map|].
  apply Forall_forall. intros p Hp.
  apply chunk_paragraph_join, (paragraphs_have_ink txt), Hp.
Qed.

Lemma chunks_normal txt max_chars :
  Forall (fun c => normal c /\ c <> []) (chunk_text_for_speaking txt max_chars).
Proof.
  rewrite chunk_text_flat_map. apply Forall_forall. intros c Hc.
  apply list_elem_of_In, in_flat_map in Hc as (p & Hp & Hc).
  apply list_elem_of_In in Hp, Hc.
  destruct (chunk_paragraph_join max_chars p (paragraphs_have_ink txt p Hp)) as [H _].
  exact (proj1 (Forall_forall _ _) H c Hc).
Qed.

(** X3.  Every chunk is a non-empty text with a visible character at each
    end and single blanks inside: it is its own normal form and is not
    changed by stripping. *)
Theorem chunks_are_normalized txt max_chars c :
  c ∈ chunk_text_for_speaking txt max_chars ->
  c <> [] /\ normal c /\ normalize_whitespace c = c /\ Py.strip c = c.
Proof.
  intros Hc. destruct (proj1 (Forall_forall _ _) (chunks_normal txt max_chars) c Hc) as [Hn Hne].
  split; [exact Hne|]. split; [exact Hn|].
  split; [apply normalize_whitespace_fix, Hn|apply normal_strip, Hn].
Qed.

Lemma chunks_are_normalized_witness :
  lit "Hello world." <> [] /\ normal (lit "Hello world.")
  /\ normalize_whitespace (lit "Hello world.") = lit "Hello world."
  /\ Py.strip (lit "Hello world.") = lit "Hello world.".
Proof.
  apply (chunks_are_normalized (lit "  Hello   world. ") 900).
  vm_compute. left.
Defined.

Lemma ink_join_blank l : ink (join (lit " ") l) = ink (concat l).
Proof.
  induction l as [|x l IH]; [reflexivity|]. cbn [concat]. rewrite ink_app, <- IH.
  destruct l as [|y l]; [cbn; rewrite app_nil_r; reflexivity|].
  rewrite join_cons by discriminate. rewrite !ink_app. reflexivity.
Qed.

Lemma ink_concat_flat_map (f : text -> list text) ps :
  Forall (fun p => ink (concat (f p)) = ink p) ps ->
  ink (concat (flat_map f ps)) = ink (concat ps).
Proof.
  induction 1 as [|p ps Hp _ IH]; [reflexivity|].
  cbn [flat_map concat]. rewrite concat_app, !ink_app, Hp, IH. reflexivity.
Qed.

(** X4.  The chunker neither drops nor invents a visible character: the
    visible characters of the chunks, in order, are those of the text.  In
    particular a text of white space only gives no chunk. *)
Theorem chunks_keep_visible_characters txt max_chars :
  ink (concat (chunk_text_for_speaking txt max_chars)) = ink txt
  /\ (has_ink txt = false -> chunk_text_for_speaking txt max_chars = []).
Proof.
  assert (H : ink (concat (chunk_text_for_speaking txt max_chars)) = ink txt).
  { rewrite chunk_text_flat_map. etrans; [|apply ink_concat_paragraphs].
    apply ink_concat_flat_map. apply Forall_forall. intros p Hp.
    destruct (chunk_paragraph_join max_chars p (paragraphs_have_ink txt p Hp)) as [_ Hj].
    rewrite <- ink_join_blank, Hj. apply ink_normalize_whitespace. }
  split; [exact H|]. intros Hblank.
  pose proof (chunks_normal txt max_chars) as Hn.
  destruct (chunk_text_for_speaking txt max_chars) as [|c cs]; [reflexivity|].
  apply Forall_cons in Hn as [[Hc Hne] _].
  apply ink_nil_iff in Hblank. rewrite Hblank in H. cbn [concat] in H. rewrite ink_app in H.
  apply app_eq_nil in H as [H _]. apply ink_nil_iff in H.
  rewrite <- (truthy_has_ink_normal c Hc) in H. destruct c; [contradiction|discriminate].
Qed.

Lemma chunks_keep_visible_characters_witness :
  chunk_text_for_speaking blank_page 900 = [].
Proof.
  apply (proj2 (chunks_keep_visible_characters blank_page 900)). vm_compute. reflexivity.
Defined.

(** ** What the speech engine is given *)

Lemma speak_text_normal c : normal c -> c <> [] -> speak_text c = [Say c].
Proof.
  intros Hn Hne. unfold speak_text. rewrite (normalize_whitespace_fix c Hn).
  destruct c; [contradiction|reflexivity].
Qed.

(** X5.  On entering a page with visible text the session hands the chunks
    of the stripped page text to the speech engine, one utterance per chunk,
    unchanged and in order; on a page without visible text it says nothing
    and prints the notice. *)
Theorem narrate_page_speaks_chunks page raw :
  narrate_page page raw =
  if has_ink raw
  then [Narrating page] ++ map Say (chunk_text_for_speaking (Py.strip raw) 900) ++ [Controls]
  else [Narrating page; Print (lit "(No readable text on this page.)"); Controls].
Proof.
  unfold narrate_page. rewrite truthy_strip. destruct (has_ink raw); [|reflexivity].
  do 2 f_equal.
  pose proof (chunks_normal (Py.strip raw) 900) as Hn.
  induction Hn as [|c cs [Hc Hne] _ IH]; [reflexivity|].
  cbn [flat_map map]. rewrite (speak_text_normal c Hc Hne), IH. reflexivity.
Qed.

(** ** Lines of a page *)

Lemma linebreak_is_space c : Py.islinebreak c = true -> Py.isspace c = true.
Proof.
  destruct c as [[[] [] [] [] [] [] [] []]| |]; vm_compute; intros H;
    first [reflexivity | discriminate H].
Qed.

Lemma ink_concat_splitlines (n : nat) : forall cur s,
  (length s <= n)%nat ->
  ink (concat (Py.splitlines_from cur s)) = ink (cur ++ s).
Proof.
  induction n as [|n IH]; intros cur s Hn.
  - destruct s; [|cbn in Hn; lia]. cbn. destruct (Py.truthy cur) eqn:Hc.
    + cbn. rewrite !app_nil_r. reflexivity.
    + destruct cur; [reflexivity|discriminate].
  - destruct s as [|c t]; cbn [Py.splitlines_from].
    + destruct (Py.truthy cur) eqn:Hc.
      * cbn. rewrite !app_nil_r. reflexivity.
      * destruct cur; [reflexivity|discriminate].
    + cbn in Hn. destruct (Py.islinebreak c) eqn:Hb.
      * pose proof (linebreak_is_space c Hb) as Hsp.
        assert (Hc : ink (cur ++ c :: t) = ink cur ++ ink t).
        { rewrite ink_app. cbn. rewrite Hsp. reflexivity. }
        rewrite Hc. cbn [concat]. rewrite ink_app. f_equal.
        destruct t as [|d t']; [apply (IH [] []); cbn; lia|].
        destruct ((Py.code c =? 13) && (Py.code d =? 10))%N eqn:Hcr.
        -- rewrite (IH [] t') by (cbn in Hn; lia). cbn.
           apply andb_true_iff in Hcr as [_ Hd]. apply N.eqb_eq in Hd.
           assert (Hds : Py.isspace d = true).
           { rewrite (code_inj d (Latin (ascii_of_N 10)) Hd). reflexivity. }
           rewrite Hds. reflexivity.
        -- apply (IH [] (d :: t')). lia.
      * rewrite IH by lia. rewrite <- app_assoc. reflexivity.
Qed.

Lemma ink_concat_stripped_lines txt : ink (concat (stripped_lines txt)) = ink txt.
Proof.
  unfold stripped_lines, Py.splitlines.
  etrans; [|exact (ink_concat_splitlines (length txt) [] txt (le_n _))].
  induction (Py.splitlines_from [] txt) as [|x lines IH]; [reflexivity|].
  cbn [List.filter]. rewrite truthy_strip. cbn [concat]. rewrite ink_app, <- IH.
  destruct (has_ink x) eqn:Hx.
  - cbn [map concat]. rewrite ink_app, ink_strip. reflexivity.
  - apply ink_nil_iff in Hx. rewrite Hx. reflexivity.
Qed.

Lemma stripped_lines_have_ink txt ln : ln ∈ stripped_lines txt -> has_ink ln = true.
Proof.
  unfold stripped_lines. intros H. apply list_elem_of_In, in_map_iff in H as (x & <- & Hx).
  apply filter_In in Hx as [_ Hx]. rewrite has_ink_strip, <- truthy_strip. exact Hx.
Qed.

(** ** Which line gives the heading *)

Lemma scan_for_heading_first lns h :
  scan_for_heading lns = Some h <->
  exists skipped ln rest,
    lns = skipped ++ ln :: rest
    /\ Py.len ln <= 140
    /\ match_patterns CHAPTER_PATTERNS ln = Some h
    /\ Forall (fun l => 140 < Py.len l \/ match_patterns CHAPTER_PATTERNS l = None) skipped.
Proof.
  induction lns as [|l lns IH]; cbn [scan_for_heading].
  - split; [discriminate|]. intros (skipped & ln & rest & H & _). destruct skipped; discriminate.
  - destruct (Z.ltb_spec 140 (Py.len l)) as [Hlong|Hshort].
    + rewrite IH. split.
      * intros (skipped & ln & rest & -> & H1 & H2 & H3).
        exists (l :: skipped), ln, rest. repeat split; auto.
      * intros (skipped & ln & rest & Heq & H1 & H2 & H3).
        destruct skipped as [|l' skipped]; cbn in Heq; injection Heq as <- ->; [lia|].
        apply Forall_cons in H3 as [_ H3]. eauto 10.
    + destruct (match_patterns CHAPTER_PATTERNS l) as [h'|] eqn:Hm.
      * split.
        -- intros [= <-]. exists [], l, lns. repeat split; auto.
        -- intros (skipped & ln & rest & Heq & H1 & H2 & H3).
           destruct skipped as [|l' skipped]; cbn in Heq; injection Heq as <- ->.
           ++ congruence.
           ++ apply Forall_cons in H3 as [[H3|H3] _]; [lia|congruence].
      * rewrite IH. split.
        -- intros (skipped & ln & rest & -> & H1 & H2 & H3).
           exists (l :: skipped), ln, rest. repeat split; auto.
        -- intros (skipped & ln & rest & Heq & H1 & H2 & H3).
           destruct skipped as [|l' skipped]; cbn in Heq; injection Heq as <- ->; [congruence|].
           apply Forall_cons in H3 as [_ H3]. eauto 10.
Qed.

(** X18.  The heading matcher returns the heading of the first line, among
    the first 25 non-empty lines of the page, that has at most 140
    characters and matches a pattern; lines before it are too long or match
    no pattern.  A page without visible text has no heading. *)
Theorem heading_is_first_matching_line txt :
  (forall h,
     find_chapter_heading_on_page txt = Some h <->
     exists skipped ln rest,
       take 25 (stripped_lines txt) = skipped ++ ln :: rest
       /\ Py.len ln <= 140
       /\ match_patterns CHAPTER_PATTERNS ln = Some h
       /\ Forall (fun l => 140 < Py.len l \/ match_patterns CHAPTER_PATTERNS l = None)
                 skipped)
  /\ (has_ink txt = false -> find_chapter_heading_on_page txt = None).
Proof.
  split.
  - intros h. rewrite <- scan_for_heading_first. unfold find_chapter_heading_on_page.
    destruct (stripped_lines txt); [split; discriminate|reflexivity].
  - intros Hblank. unfold find_chapter_heading_on_page.
    destruct (stripped_lines txt) as [|ln lines] eqn:Hl; [reflexivity|].
    pose proof (stripped_lines_have_ink txt ln) as Hink. rewrite Hl in Hink.
    specialize (Hink ltac:(left)).
    pose proof (ink_concat_stripped_lines txt) as Hc. rewrite Hl in Hc.
    apply ink_nil_iff in Hblank. rewrite Hblank in Hc. cbn [concat] in Hc.
    rewrite ink_app in Hc. apply app_eq_nil in Hc as [Hc _].
    apply ink_nil_iff in Hc. congruence.
Qed.

Lemma heading_is_first_matching_line_witness :
  find_chapter_heading_on_page blank_page = None.
Proof.
  apply (proj2 (heading_is_first_matching_line blank_page)). vm_compute. reflexivity.
Defined.

(** ** The shape of a heading *)

Lemma numeral_letter c :
  existsb (char_eqb (Py.lower_char c)) (Py.lower (lit "ivxlcdm")) = true ->
  Py.isspace c = false.
Proof.
  destruct c as [[[] [] [] [] [] [] [] []]| |]; vm_compute; intros H;
    first [reflexivity | discriminate H].
Qed.

Lemma letter_visible c :
  Py.between 97 122 (Py.lower_char c) = true -> Py.isspace c = false.
Proof.
  destruct c as [[[] [] [] [] [] [] [] []]| |]; vm_compute; intros H;
    first [reflexivity | discriminate H].
Qed.

Lemma digit_visible c : Py.between 48 57 c = true -> Py.isspace c = false.
Proof.
  destruct c as [[[] [] [] [] [] [] [] []]| |]; vm_compute; intros H;
    first [reflexivity | discriminate H].
Qed.

Lemma numeral_spaceless : only_matches (fun c => negb (Py.isspace c)) numeral.
Proof.
  cbn. repeat split; intros a Ha; apply negb_true_iff;
    [exact (digit_visible a Ha)|exact (digit_visible a Ha)
    |exact (numeral_letter a Ha)|exact (numeral_letter a Ha)].
Qed.

Lemma letters_spaceless : only_matches (fun c => negb (Py.isspace c)) (plus letter_i).
Proof.
  cbn. repeat split; intros a Ha; apply negb_true_iff; exact (letter_visible a Ha).
Qed.

Lemma post_class_first p r c c' :
  post (Seq (Class p) r) c c' -> (length (rest c') < length (rest c))%nat
  \/ exists c1, post r c1 c' /\ (length (rest c1) < length (rest c))%nat.
Proof.
  intros (c1 & (a & t & Hc & _ & ->) & Hr). right. exists (advance a t c).
  split; [exact Hr|]. rewrite Hc. cbn. lia.
Qed.

Lemma only_matches_any r : only_matches (fun _ => true) r.
Proof.
  induction r; cbn; auto.
Qed.

Lemma post_shrinks r c c' : post r c c' -> (length (rest c') <= length (rest c))%nat.
Proof.
  intros H.
  destruct (post_consumes (fun _ => true) r (only_matches_any r) c c' H) as (w & -> & _).
  rewrite length_app. lia.
Qed.

Lemma numeral_consumes c c' :
  post numeral c c' -> (length (rest c') < length (rest c))%nat.
Proof.
  intros [H|H]; apply post_class_first in H as [H|(c1 & H1 & H2)]; try exact H;
    apply post_shrinks in H1; lia.
Qed.

Lemma letters_consume c c' :
  post (plus letter_i) c c' -> (length (rest c') < length (rest c))%nat.
Proof.
  intros H. apply post_class_first in H as [H|(c1 & H1 & H2)]; [exact H|].
  apply post_shrinks in H1. lia.
Qed.

Lemma post_group_two_text front x mid y c m :
  forallb group_free mid = true -> group_free y = true ->
  post (cat (front ++ [Group 2 x] ++ mid ++ [Group 3 y; Eol])) c m ->
  exists c1 c2,
    post x c1 c2
    /\ group m 2 = Some (take (length (rest c1) - length (rest c2)) (rest c1)).
Proof.
  intros Hmid Hy H.
  apply post_cat_app in H as (c1 & _ & H).
  apply post_cat_app in H as (c2 & H2 & H).
  apply post_cat_app in H as (c3 & H3 & H).
  destruct H2 as (c2' & (c1' & Hx & ->) & ->).
  destruct (post_group_free _ (group_free_cat _ Hmid) _ _ H3) as [Hg3 _].
  destruct H as (c4 & (c3' & H4 & ->) & (c5 & -> & ->)).
  destruct (post_group_free _ Hy _ _ H4) as [Hg4 _].
  exists c1, c1'. split; [exact Hx|].
  unfold group. cbn. rewrite Hg4, Hg3. reflexivity.
Qed.

Lemma captured_text (P : char -> bool) x c1 c2 :
  only_matches P x -> post x c1 c2 ->
  (length (rest c2) < length (rest c1))%nat ->
  let g := take (length (rest c1) - length (rest c2)) (rest c1) in
  g <> [] /\ forallb P g = true.
Proof.
  intros Hx Hpost Hlt. cbv zeta.
  destruct (post_consumes P x Hx _ _ Hpost) as (w & Hw & HP). rewrite Hw in *.
  rewrite length_app in *.
  replace (length w + length (rest c2) - length (rest c2))%nat with (length w) by lia.
  rewrite take_app_length. split; [|exact HP].
  destruct w; [cbn in Hlt; lia|discriminate].
Qed.

Lemma chapter_patterns_label pat ln m :
  pat ∈ CHAPTER_PATTERNS -> Re.match_ pat ln = Some m ->
  exists g2, group m 2 = Some g2 /\ g2 <> [] /\ spaceless g2 = true.
Proof.
  intros Hpat Hm. apply exec_post in Hm as (m' & Hpost & [= ->]).
  unfold CHAPTER_PATTERNS in Hpat.
  apply elem_of_cons in Hpat as [->|Hpat]; [|apply elem_of_cons in Hpat as [->|Hpat]];
    [| |apply list_elem_of_singleton in Hpat as ->].
  - destruct (post_group_two_text
                [Bol; Star space; Group 1 (word_i (lit "chapter")); plus space]
                numeral [WordBoundary; Star space] (Star dot) _ _ eq_refl eq_refl Hpost)
      as (c1 & c2 & Hx & Hg).
    eexists. split; [exact Hg|].
    exact (captured_text _ _ _ _ numeral_spaceless Hx (numeral_consumes _ _ Hx)).
  - destruct (post_group_two_text
                [Bol; Star space; Group 1 (word_i (lit "chapter")); plus space]
                (plus letter_i) [WordBoundary; Star space] (Star dot) _ _ eq_refl eq_refl Hpost)
      as (c1 & c2 & Hx & Hg).
    eexists. split; [exact Hg|].
    exact (captured_text _ _ _ _ letters_spaceless Hx (letters_consume _ _ Hx)).
  - destruct (post_group_two_text
                [Bol; Star space;
                 Group 1 (Alt (Seq (word_i (lit "ch")) (opt (chr ".")))
                              (Seq (word_i (lit "chap")) (opt (chr "."))));
                 Star space; opt (one_of (lit "-:")); Star space]
                numeral [WordBoundary; Star space] (Star dot) _ _ eq_refl eq_refl Hpost)
      as (c1 & c2 & Hx & Hg).
    eexists. split; [exact Hg|].
    exact (captured_text _ _ _ _ numeral_spaceless Hx (numeral_consumes _ _ Hx)).
Qed.

Lemma blanks_single_spaceless w : spaceless w = true -> blanks_single w = true.
Proof.
  induction w as [|a w IH]; cbn; [reflexivity|]. intros H.
  apply andb_true_iff in H as [Ha H]. apply negb_true_iff in Ha. rewrite Ha, IH by exact H.
  reflexivity.
Qed.

Lemma spaceless_normal w : spaceless w = true -> normal w.
Proof.
  intros H. split; [|split; [|apply blanks_single_spaceless, H]].
  - destruct w as [|a w]; [exact I|]. cbn in H |- *.
    apply andb_true_iff in H as [Ha _]. apply negb_true_iff, Ha.
  - assert (Hr : spaceless (rev w) = true).
    { apply forallb_forall. intros c Hc. apply in_rev in Hc.
      exact (proj1 (forallb_forall _ _) H c Hc). }
    destruct (rev w) as [|a r]; [exact I|]. cbn in Hr |- *.
    apply andb_true_iff in Hr as [Ha _]. apply negb_true_iff, Ha.
Qed.

(** *** The separator in front of the title *)

Lemma separator_class b : existsb (char_eqb b) SEPARATORS = is_separator b.
Proof.
  destruct b as [[[] [] [] [] [] [] [] []]| |]; vm_compute; reflexivity.
Qed.

Lemma length_drop_separators s : (length (drop_separators s) <= length s)%nat.
Proof.
  induction s as [|c s IH]; cbn; [lia|]. destruct (is_separator c); cbn; lia.
Qed.

Lemma skip_spaces_lstrip s : forall p, (skip_spaces p s).2 = Py.lstrip s.
Proof.
  induction s as [|a s IH]; intros p; cbn; [reflexivity|].
  destruct (Py.isspace a); [apply IH|reflexivity].
Qed.

Lemma skip_spaces_prev s : forall a, is_Some (skip_spaces (Some a) s).1.
Proof.
  induction s as [|b s IH]; intros a; cbn; [eauto|].
  destruct (Py.isspace b); [apply IH|cbn; eauto].
Qed.

Lemma exec_seq r1 r2 k c : exec (Seq r1 r2) k c = exec r1 (exec r2 k) c.
Proof. reflexivity. Qed.

Lemma exec_one_of s k c :
  exec (one_of s) k c =
  match rest c with
  | a :: t => if existsb (char_eqb a) s then k (advance a t c) else None
  | [] => None
  end.
Proof. reflexivity. Qed.

Lemma exec_star r k c : exec (Star r) k c = iterate (exec r) k (length (rest c)) c.
Proof. reflexivity. Qed.

Lemma iterate_step body k n c :
  iterate body k (S n) c =
  match body (fun c' => if (length (rest c') <? length (rest c))%nat
                        then iterate body k n c' else None) c with
  | Some m => Some m
  | None => k c
  end.
Proof. reflexivity. Qed.

Lemma exec_trailing_space a s g li :
  exists q, exec (Seq (Star space) Empty) Some (Cursor (Some a) s g li)
            = Some (Cursor (Some q) (Py.lstrip s) g li).
Proof.
  destruct (skip_spaces_prev s a) as [q Hq]. exists q.
  etrans; [apply (iterate_space (length s) (Some a) s g li); lia|].
  rewrite Hq, skip_spaces_lstrip. reflexivity.
Qed.

(** The greedy run of separators, followed by the greedy run of white
    space: both take all there is. *)
Lemma iterate_separators (n : nat) : forall a s g li,
  (length s <= n)%nat ->
  exists q,
    iterate (exec (one_of SEPARATORS)) (exec (Seq (Star space) Empty) Some) n
            (Cursor (Some a) s g li)
    = Some (Cursor (Some q) (Py.lstrip (drop_separators s)) g li).
Proof.
  induction n as [|n IH]; intros a s g li Hn.
  - destruct s; [|cbn in Hn; lia]. apply exec_trailing_space.
  - rewrite iterate_step, exec_one_of. cbn [rest].
    destruct s as [|b s]; [apply exec_trailing_space|].
    cbn in Hn. cbn [drop_separators]. rewrite separator_class.
    destruct (is_separator b); [|apply exec_trailing_space].
    unfold advance. cbn [rest groups lastindex].
    replace (length s <? length (b :: s))%nat with true
      by (symmetry; apply Nat.ltb_lt; cbn; lia).
    destruct (IH b s g li ltac:(lia)) as [q Hq]. rewrite Hq. exists q. reflexivity.
Qed.

Lemma exec_title_separator a t :
  exec TITLE_SEPARATOR Some (at_position None (a :: t)) =
  if is_separator a
  then exec (Star (one_of SEPARATORS)) (exec (Seq (Star space) Empty) Some)
            (Cursor (Some a) t [] None)
  else None.
Proof.
  unfold TITLE_SEPARATOR, plus. cbn [cat fold_right].
  rewrite exec_seq.
  change (exec Bol ?k (at_position None ?s)) with (k (at_position None s)).
  rewrite !exec_seq, exec_one_of. unfold at_position. cbn [rest].
  rewrite separator_class. reflexivity.
Qed.

Lemma sub_separator_anchored (fuel : nat) : forall b s,
  sub_from fuel TITLE_SEPARATOR [] (Some b) s = s.
Proof.
  induction fuel as [|fuel IH]; intros b s; [reflexivity|].
  cbn [sub_from]. unfold match_here, TITLE_SEPARATOR. cbn [cat fold_right exec prev at_position].
  destruct s as [|a t]; [reflexivity|]. rewrite IH. reflexivity.
Qed.

(** [re.sub] with the separator pattern takes away the separators a text
    begins with and the white space behind them, and nothing else. *)
Lemma sub_title_separator t :
  Re.sub TITLE_SEPARATOR [] t =
  match t with
  | a :: _ => if is_separator a then Py.lstrip (drop_separators t) else t
  | [] => []
  end.
Proof.
  unfold Re.sub. cbn [sub_from]. destruct t as [|a t]; [reflexivity|].
  unfold match_here. rewrite exec_title_separator. cbn [drop_separators].
  destruct (is_separator a).
  - rewrite exec_star. cbn [rest].
    destruct (iterate_separators (length t) a t [] None ltac:(lia)) as [q Hq].
    rewrite Hq. cbn [rest prev].
    replace (length (Py.lstrip (drop_separators t)) <? length (a :: t))%nat with true.
    + cbn [app]. apply sub_separator_anchored.
    + symmetry. apply Nat.ltb_lt. pose proof (length_lstrip (drop_separators t)).
      pose proof (length_drop_separators t). cbn. lia.
  - f_equal. apply sub_separator_anchored.
Qed.

Lemma strip_lstrip s : Py.strip (Py.lstrip s) = Py.strip s.
Proof.
  unfold Py.strip. rewrite (lstrip_fix _ (lstrip_clean s)). reflexivity.
Qed.

Lemma title_without_separator t :
  Py.strip (Re.sub TITLE_SEPARATOR [] t) = Py.strip (drop_separators t).
Proof.
  rewrite sub_title_separator. destruct t as [|a t]; [reflexivity|].
  cbn [drop_separators]. destruct (is_separator a); [apply strip_lstrip|reflexivity].
Qed.

Lemma drop_separators_suffix s : exists w, s = w ++ drop_separators s.
Proof.
  induction s as [|c s [w IH]]; cbn; [exists []; reflexivity|].
  destruct (is_separator c); [|exists []; reflexivity].
  exists (c :: w). cbn. f_equal. exact IH.
Qed.

Lemma title_normal t : normal t -> normal (Py.strip (drop_separators t)).
Proof.
  intros (_ & _ & Hb). apply strip_normal.
  destruct (drop_separators_suffix t) as (w & Hw). rewrite Hw in Hb.
  apply blanks_single_app in Hb as [_ Hb]. exact Hb.
Qed.

Lemma dash_heading_found :
  match_patterns CHAPTER_PATTERNS dash_heading = Some (lit "3", lit "The Return").
Proof. vm_compute. reflexivity. Qed.

(** C7.  On a page whose first non-empty line is "Chapter 3: The Return" the
    heading matcher returns the label "3" and the title "The Return", and so
    it does when an em dash stands for the colon.  Whatever it returns comes
    from a match of one of the patterns on one of the stripped lines: the
    label is the second group as captured, the title is the third group with
    its white space normalized, without the hyphens, colons, en dashes and em
    dashes it then begins with, and stripped; label and title have no white
    space at their ends and single blanks inside. *)
Theorem heading_of_chapter_three :
  (forall txt more,
     stripped_lines txt = lit "Chapter 3: The Return" :: more ->
     find_chapter_heading_on_page txt = Some (lit "3", lit "The Return"))
  /\ (forall txt more,
        stripped_lines txt = dash_heading :: more ->
        find_chapter_heading_on_page txt = Some (lit "3", lit "The Return"))
  /\ (forall txt label title,
        find_chapter_heading_on_page txt = Some (label, title) ->
        exists pat ln m g3,
          pat ∈ CHAPTER_PATTERNS /\ ln ∈ stripped_lines txt
          /\ Re.match_ pat ln = Some m
          /\ group m 2 = Some label /\ group m 3 = Some g3
          /\ title = Py.strip (drop_separators (whitespace_normalized g3))
          /\ normal label /\ normal title).
Proof.
  assert (Hfirst : forall ln h txt more,
            (140 <? Py.len ln) = false -> match_patterns CHAPTER_PATTERNS ln = Some h ->
            stripped_lines txt = ln :: more -> find_chapter_heading_on_page txt = Some h).
  { intros ln h txt more Hlen Hm Hlines. unfold find_chapter_heading_on_page.
    rewrite Hlines. change (take 25 (ln :: more)) with (ln :: take 24 more).
    cbn [scan_for_heading]. rewrite Hlen, Hm. reflexivity. }
  split; [|split].
  - intros txt more. apply Hfirst; vm_compute; reflexivity.
  - intros txt more. apply Hfirst; [vm_compute; reflexivity|apply dash_heading_found].
  - intros txt label title. unfold find_chapter_heading_on_page.
    destruct (stripped_lines txt) as [|ln0 lns] eqn:Hlines; [discriminate|].
    intros H. apply scan_for_heading_some in H as (ln & Hin & _ & Hm).
    apply match_patterns_some in Hm as (pat & m & Hpat & Hm & Hh).
    destruct (chapter_patterns_label _ _ _ Hpat Hm) as (g2 & Hg2 & _ & Hsp).
    destruct (heading_of_match_groups _ _ _ Hpat Hm) as (g2' & g3 & Hg2' & Hg3 & Hh').
    rewrite Hg2 in Hg2'. injection Hg2' as <-. rewrite Hh' in Hh. injection Hh as -> ->.
    pose proof (spaceless_normal g2 Hsp) as Hn2.
    rewrite (normalize_whitespace_fix g2 Hn2), title_without_separator.
    exists pat, ln, m, g3. split; [exact Hpat|].
    split; [exact (subseteq_take 25 _ _ Hin)|]. split; [exact Hm|].
    split; [exact Hg2|]. split; [exact Hg3|].
    split; [rewrite normalize_whitespace_collapse; reflexivity|].
    split; [exact Hn2|apply title_normal, normalize_whitespace_normal].
Qed.

Lemma heading_of_chapter_three_witness :
  find_chapter_heading_on_page chapter_three_page = Some (lit "3", lit "The Return").
Proof.
  apply (proj1 heading_of_chapter_three chapter_three_page [lit "It was late."]).
  vm_compute. reflexivity.
Defined.

(** X19.  The label of a heading is never empty and holds no white space:
    it is the chapter identifier as the pattern captured it, which the
    normalization leaves as it is. *)
Theorem heading_label_spaceless txt label title :
  find_chapter_heading_on_page txt = Some (label, title) ->
  label <> [] /\ spaceless label = true /\ normalize_whitespace label = label
  /\ exists pat ln m,
       pat ∈ CHAPTER_PATTERNS /\ ln ∈ stripped_lines txt
       /\ Re.match_ pat ln = Some m /\ group m 2 = Some label.
Proof.
  unfold find_chapter_heading_on_page.
  destruct (stripped_lines txt) as [|ln0 lns] eqn:Hlines; [discriminate|].
  intros H. apply scan_for_heading_some in H as (ln & Hin & _ & Hm).
  apply match_patterns_some in Hm as (pat & m & Hpat & Hm & Hh).
  destruct (chapter_patterns_label _ _ _ Hpat Hm) as (g2 & Hg2 & Hne & Hsp).
  destruct (heading_of_match_groups _ _ _ Hpat Hm) as (g2' & g3 & Hg2' & _ & Hh').
  rewrite Hg2 in Hg2'. injection Hg2' as <-. rewrite Hh' in Hh. injection Hh as -> ->.
  rewrite (normalize_whitespace_fix g2 (spaceless_normal g2 Hsp)).
  split; [exact Hne|]. split; [exact Hsp|].
  split; [exact (normalize_whitespace_fix g2 (spaceless_normal g2 Hsp))|].
  exists pat, ln, m. split; [exact Hpat|]. split; [|auto].
  exact (subseteq_take 25 _ _ Hin).
Qed.

Lemma heading_label_spaceless_witness :
  lit "IV" <> [] /\ spaceless (lit "IV") = true /\ normalize_whitespace (lit "IV") = lit "IV"
  /\ exists pat ln m,
       pat ∈ CHAPTER_PATTERNS /\ ln ∈ stripped_lines (lit "CHAPTER IV - A   Title  here ")
       /\ Re.match_ pat ln = Some m /\ group m 2 = Some (lit "IV").
Proof.
  apply (heading_label_spaceless (lit "CHAPTER IV - A   Title  here ") _ (lit "A Title here")).
  vm_compute. reflexivity.
Defined.

(** ** Chapters lie in the document *)

Lemma chained_elem_bounds last_page chs c :
  chained last_page chs -> c ∈ chs -> start_page c <= end_page c <= last_page.
Proof.
  induction chs as [|d chs IH]; intros Hc Hin; [inversion Hin|].
  apply elem_of_cons in Hin as [->|Hin].
  - pose proof (chained_end_le _ _ _ Hc). destruct Hc as (? & _). lia.
  - apply IH; [apply Hc|exact Hin].
Qed.

Lemma chapters_from_toc_nonneg doc c : c ∈ chapters_from_toc doc -> 0 <= start_page c.
Proof.
  intros Hc.
  assert (Hs : start_page c ∈ start_page <$> chapters_from_toc doc)
    by (apply list_elem_of_fmap; eauto).
  rewrite chapters_from_toc_starts in Hs. apply list_elem_of_fmap in Hs as (x & -> & Hx).
  apply sorted_starts_elem in Hx as (e & _ & _ & ->). apply clamp_start_nonneg.
Qed.

Lemma chapters_by_scanning_nonneg doc c : c ∈ chapters_by_scanning doc -> 0 <= start_page c.
Proof.
  rewrite chapters_by_scanning_shape. intros Hc.
  apply with_next_elem in Hc as (h & next & Hh & ->). cbn.
  pose proof (sublist_bounds _ _ _ (dedup_hits_pages doc) (range_bounds _)) as Hb.
  assert (Hp : h.1.1 ∈ (dedup_hits (scan_hits doc)).*1.*1).
  { apply list_elem_of_fmap. exists h.1. split; [reflexivity|].
    apply list_elem_of_fmap. eauto. }
  pose proof (proj1 (Forall_forall _ _) Hb _ Hp) as Hr. cbv beta in Hr. lia.
Qed.

Lemma page_text_inside doc i : 0 <= i <= len_doc doc - 1 -> is_Some (page_text doc i).
Proof.
  intros Hi. unfold page_text, len_doc in *.
  replace (i <? 0) with false by (symmetry; apply Z.ltb_ge; lia).
  apply lookup_lt_is_Some. lia.
Qed.

Lemma detect_chapters_bounds doc c :
  1 <= len_doc doc -> c ∈ detect_chapters doc ->
  0 <= start_page c /\ start_page c <= end_page c <= len_doc doc - 1.
Proof.
  intros Hn Hc.
  unfold detect_chapters in Hc. destruct (chapters_from_toc doc) as [|c0 chs] eqn:Htoc.
  - split; [apply (chapters_by_scanning_nonneg doc), Hc|].
    exact (chained_elem_bounds _ _ _ (chapters_by_scanning_chained doc) Hc).
  - rewrite <- Htoc in Hc. split; [apply (chapters_from_toc_nonneg doc), Hc|].
    exact (chained_elem_bounds _ _ _ (chapters_from_toc_chained doc Hn) Hc).
Qed.

(** X6.  In a document with at least one page every chapter the resolver
    returns is a range of pages of the document: 0 <= start <= end <= last
    page, so both ends can be fetched. *)
Theorem detected_chapters_lie_in_document doc c :
  1 <= len_doc doc -> c ∈ detect_chapters doc ->
  0 <= start_page c <= end_page c
  /\ end_page c <= len_doc doc - 1
  /\ is_Some (page_text doc (start_page c)) /\ is_Some (page_text doc (end_page c)).
Proof.
  intros Hn Hc. pose proof (detect_chapters_bounds doc c Hn Hc) as H.
  repeat split; try lia; apply page_text_inside; lia.
Qed.

Lemma detected_chapters_lie_in_document_witness :
  0 <= 9 <= 19 /\ 19 <= len_doc two_chapter_book - 1
  /\ is_Some (page_text two_chapter_book 9) /\ is_Some (page_text two_chapter_book 19).
Proof.
  apply (detected_chapters_lie_in_document two_chapter_book
           (mkChapter (lit "TOC") (lit "Chapter Two") 9 19)).
  - vm_compute. discriminate.
  - vm_compute. right. left.
Defined.

(** ** How many chapters the outline gives *)

Lemma length_fold_add_start n entries : forall starts seen,
  (length (fold_left (add_start n) entries (starts, seen)).1 <= length starts + length entries)%nat.
Proof.
  induction entries as [|[[lvl ttl] page1] entries IH]; intros starts seen; cbn; [lia|].
  destruct (page1 =? 0); [specialize (IH starts seen); lia|].
  destruct (decide (_ ∈ seen)); [specialize (IH starts seen); lia|].
  etrans; [apply IH|]. rewrite length_app. cbn. lia.
Qed.

Lemma nodup_bounded_length (ks : list Z) n :
  NoDup ks -> Forall (fun k => 0 <= k <= n - 1) ks -> (Z.of_nat (length ks) <= Z.max 0 n).
Proof.
  intros Hnd Hb.
  assert (Hsub : ks ⊆+ range n).
  { apply NoDup_submseteq; [exact Hnd|]. intros k Hk.
    pose proof (proj1 (Forall_forall _ _) Hb k Hk) as Hk'. cbv beta in Hk'.
    apply list_elem_of_fmap. exists (Z.to_nat k). split; [lia|].
    apply elem_of_seq. lia. }
  apply submseteq_length in Hsub. unfold range in Hsub.
  rewrite length_fmap, length_seq in Hsub. lia.
Qed.

(** X7.  The outline detector returns at most one chapter per candidate
    entry, no chapter for an empty outline, and, in a document with pages,
    at most one chapter per page. *)
Theorem outline_chapter_count doc :
  (length (chapters_from_toc doc) <= length (toc_candidates (get_toc doc)))%nat
  /\ (get_toc doc = [] -> chapters_from_toc doc = [])
  /\ (1 <= len_doc doc -> Z.of_nat (length (chapters_from_toc doc)) <= len_doc doc).
Proof.
  split; [|split].
  - rewrite chapters_from_toc_unfold, length_with_next, (sort_by_start_perm _).
    apply (length_fold_add_start _ _ [] ∅).
  - intros H. unfold chapters_from_toc. rewrite H. reflexivity.
  - intros Hn.
    rewrite <- (length_fmap start_page), chapters_from_toc_starts.
    etrans; [apply (nodup_bounded_length _ (len_doc doc))|lia].
    + rewrite (sort_by_start_perm _). apply collect_starts_nodup.
    + apply Forall_forall. intros k Hk. apply list_elem_of_fmap in Hk as (x & -> & Hx).
      apply sorted_starts_elem in Hx as (e & _ & _ & ->). apply clamp_start_range, Hn.
Qed.

Lemma outline_chapter_count_witness :
  Z.of_nat (length (chapters_from_toc repeated_entry_book)) <= len_doc repeated_entry_book.
Proof.
  apply (proj2 (proj2 (outline_chapter_count repeated_entry_book))).
  vm_compute. discriminate.
Defined.

(** ** Which outline entry names a chapter *)

Lemma add_start_seen n e starts seen s :
  s ∈ seen -> s ∈ (add_start n (starts, seen) e).2.
Proof.
  destruct e as [[lvl ttl] page1]. cbn. intros Hs.
  destruct (page1 =? 0); [exact Hs|]. destruct (decide (_ ∈ seen)); [exact Hs|].
  cbn. set_solver.
Qed.

Lemma add_start_marks n e starts seen :
  e.2 <> 0 -> clamp_start n e.2 ∈ (add_start n (starts, seen) e).2.
Proof.
  destruct e as [[lvl ttl] page1]. cbn. intros Hp.
  destruct (Z.eqb_spec page1 0); [contradiction|].
  destruct (decide (_ ∈ seen)) as [Hin|Hnin]; [exact Hin|]. cbn. set_solver.
Qed.

Lemma fold_add_start_origin n entries : forall starts (seen : gset Z) x,
  x ∈ (fold_left (add_start n) entries (starts, seen)).1 ->
  x ∈ starts
  \/ exists pre e post,
       entries = pre ++ e :: post /\ e.2 <> 0
       /\ x = (clamp_start n e.2, normalize_whitespace e.1.2)
       /\ ~ (clamp_start n e.2 ∈ seen)
       /\ Forall (fun e' => e'.2 = 0 \/ clamp_start n e'.2 <> clamp_start n e.2) pre.
Proof.
  induction entries as [|e0 entries IH]; intros starts seen x Hx; [left; exact Hx|].
  cbn [fold_left] in Hx.
  destruct (add_start n (starts, seen) e0) as [starts' seen'] eqn:Hstep.
  destruct (IH starts' seen' x Hx) as [Hin|(pre & e & post & -> & Hp & -> & Hns & Hpre)].
  - destruct e0 as [[lvl ttl] page1]. cbn in Hstep.
    destruct (Z.eqb_spec page1 0) as [->|Hp]; [injection Hstep as <- <-; left; exact Hin|].
    destruct (decide (_ ∈ seen)) as [Hs|Hs]; [injection Hstep as <- <-; left; exact Hin|].
    injection Hstep as <- <-. apply elem_of_app in Hin as [Hin|Hin]; [left; exact Hin|].
    apply list_elem_of_singleton in Hin as ->. right.
    exists [], (lvl, ttl, page1), entries. repeat split; auto.
  - right. exists (e0 :: pre), e, post. split; [reflexivity|]. split; [exact Hp|].
    split; [reflexivity|].
    assert (Hmono : forall s, s ∈ seen -> s ∈ seen').
    { intros s Hs. pose proof (add_start_seen n e0 starts seen s Hs) as H.
      rewrite Hstep in H. exact H. }
    split; [intros Hs; apply Hns, Hmono, Hs|].
    constructor; [|exact Hpre].
    destruct (Z.eq_dec e0.2 0) as [Hz|Hz]; [left; exact Hz|right].
    intros Heq. apply Hns. rewrite <- Heq.
    pose proof (add_start_marks n e0 starts seen Hz) as H. rewrite Hstep in H. exact H.
Qed.

(** X8.  A chapter of the outline detector takes its start page and its
    title from one candidate entry with a page number other than zero, and
    from the first such entry that leads to this start page: later entries
    for the same page do not change it. *)
Theorem outline_first_entry_wins doc c :
  c ∈ chapters_from_toc doc ->
  exists pre e post,
    toc_candidates (get_toc doc) = pre ++ e :: post
    /\ e.2 <> 0
    /\ start_page c = clamp_start (len_doc doc) e.2
    /\ title c = normalize_whitespace e.1.2
    /\ Forall (fun e' => e'.2 = 0 \/ clamp_start (len_doc doc) e'.2 <> start_page c) pre.
Proof.
  rewrite chapters_from_toc_unfold. intros Hc.
  apply with_next_elem in Hc as (x & next & Hx & ->).
  rewrite (sort_by_start_perm _) in Hx. unfold collect_starts in Hx.
  apply fold_add_start_origin in Hx as [Hx|(pre & e & post & Hsplit & Hp & -> & _ & Hpre)];
    [inversion Hx|].
  exists pre, e, post. repeat split; assumption.
Qed.

Lemma outline_first_entry_wins_witness :
  exists pre e post,
    toc_candidates (get_toc repeated_entry_book) = pre ++ e :: post
    /\ e.2 <> 0
    /\ 2 = clamp_start (len_doc repeated_entry_book) e.2
    /\ lit "Chapter One" = normalize_whitespace e.1.2
    /\ Forall (fun e' => e'.2 = 0 \/ clamp_start (len_doc repeated_entry_book) e'.2 <> 2) pre.
Proof.
  apply (outline_first_entry_wins repeated_entry_book
           (mkChapter (lit "TOC") (lit "Chapter One") 2 4)).
  vm_compute. left.
Defined.

(** ** What the scan finds *)

Lemma fold_record_hit_elem doc l : forall acc h,
  h ∈ fold_left (record_hit doc) l acc <->
  h ∈ acc
  \/ h.1.1 ∈ l /\ exists txt, page_text doc h.1.1 = Some txt
                              /\ find_chapter_heading_on_page txt = Some (h.1.2, h.2).
Proof.
  induction l as [|i l IH]; intros acc h; cbn [fold_left].
  - split; [auto|]. intros [H|[H _]]; [exact H|inversion H].
  - rewrite IH. unfold record_hit at 1.
    destruct (page_text doc i) as [txt|] eqn:Ht.
    + destruct (find_chapter_heading_on_page txt) as [[lbl ttl]|] eqn:Hf.
      * rewrite elem_of_app, list_elem_of_singleton. split.
        -- intros [[H| ->]|[H Hx]]; [auto| |].
           ++ right. split; [left|]. exists txt. auto.
           ++ right. split; [right; exact H|exact Hx].
        -- intros [H|[H (txt' & Ht' & Hf')]]; [auto|].
           apply elem_of_cons in H as [E|H]; [|right; eauto].
           left. right. rewrite E, Ht in Ht'. injection Ht' as <-. rewrite Hf in Hf'.
           injection Hf' as -> ->. destruct h as [[? ?] ?]. cbn in E. subst. reflexivity.
      * split.
        -- intros [H|[H Hx]]; [auto|]. right. split; [right; exact H|exact Hx].
        -- intros [H|[H (txt' & Ht' & Hf')]]; [auto|].
           apply elem_of_cons in H as [E|H]; [|right; eauto].
           rewrite E, Ht in Ht'. injection Ht' as <-. rewrite Hf in Hf'. discriminate.
    + split.
      * intros [H|[H Hx]]; [auto|]. right. split; [right; exact H|exact Hx].
      * intros [H|[H (txt' & Ht' & Hf')]]; [auto|].
        apply elem_of_cons in H as [E|H]; [|right; eauto].
        rewrite E, Ht in Ht'. discriminate.
Qed.

Lemma scan_hits_elem doc h :
  h ∈ scan_hits doc <->
  h.1.1 ∈ range (len_doc doc)
  /\ exists txt, page_text doc h.1.1 = Some txt
                 /\ find_chapter_heading_on_page txt = Some (h.1.2, h.2).
Proof.
  unfold scan_hits. rewrite fold_record_hit_elem. split; [|auto].
  intros [H|H]; [inversion H|exact H].
Qed.

(** X9.  Every chapter of the scanning detector starts on a page on which
    the heading matcher finds a heading, and carries the label and the title
    found there. *)
Theorem scanned_chapter_has_its_heading doc c :
  c ∈ chapters_by_scanning doc ->
  exists txt, page_text doc (start_page c) = Some txt
              /\ find_chapter_heading_on_page txt = Some (label c, title c).
Proof.
  rewrite chapters_by_scanning_shape. intros Hc.
  apply with_next_elem in Hc as (h & next & Hh & ->).
  apply (fun H => elem_of_sublist _ _ _ H (dedup_hits_sublist _)) in Hh.
  apply scan_hits_elem in Hh as [_ Hh]. exact Hh.
Qed.

Lemma scanned_chapter_has_its_heading_witness :
  exists txt, page_text running_header_book 0 = Some txt
              /\ find_chapter_heading_on_page txt = Some (lit "1", lit "The Start").
Proof.
  apply (scanned_chapter_has_its_heading running_header_book
           (mkChapter (lit "1") (lit "The Start") 0 3)).
  vm_compute. left.
Defined.

(** ** The pages the scan keeps *)

Lemma keep_apart_spaced hits : forall last_kept,
  Sorted (fun a b => a + 2 <= b) (last_kept :: (keep_apart last_kept hits).*1.*1).
Proof.
  induction hits as [|h hits IH]; intros last_kept; cbn [keep_apart].
  - repeat constructor.
  - destruct (Z.leb_spec 2 (h.1.1 - last_kept)) as [Hle|Hgt]; [|apply IH].
    cbn [fmap list_fmap]. constructor; [apply IH|]. constructor. lia.
Qed.

Lemma sorted_adjacent (R : Z -> Z -> Prop) (l : list Z) (i : nat) a b :
  Sorted R l -> l !! i = Some a -> l !! S i = Some b -> R a b.
Proof.
  intros Hs. revert i. induction Hs as [|x l Hs IH Hhd]; intros i Ha Hb; [discriminate|].
  destruct i as [|i].
  - cbn in Ha, Hb. injection Ha as <-. destruct Hhd as [|y l Hxy]; [discriminate|].
    cbn in Hb. injection Hb as <-. exact Hxy.
  - exact (IH i Ha Hb).
Qed.

Lemma scan_hit_pages doc :
  (scan_hits doc).*1.*1 = List.filter (heading_on doc) (range (len_doc doc)).
Proof.
  unfold scan_hits.
  assert (H : forall l acc,
            (fold_left (record_hit doc) l acc).*1.*1 =
            acc.*1.*1 ++ List.filter (heading_on doc) l).
  { induction l as [|i l IH]; intros acc; cbn [fold_left List.filter];
      [rewrite app_nil_r; reflexivity|].
    rewrite IH. unfold record_hit, heading_on.
    destruct (page_text doc i) as [txt|]; [|reflexivity].
    destruct (find_chapter_heading_on_page txt) as [[lbl ttl]|]; [|reflexivity].
    rewrite !fmap_app, <- app_assoc. reflexivity. }
  apply (H _ []).
Qed.

(** X10.  The scanning detector finds no chapter exactly when no page
    carries a heading; otherwise its first chapter starts on the first page
    that carries one, consecutive chapters start at least two pages apart,
    and every chapter but the last spans at least two pages. *)
Theorem scanned_chapters_spacing doc :
  (chapters_by_scanning doc = [] <->
   forall i, i ∈ range (len_doc doc) -> heading_on doc i = false)
  /\ (forall c, head (chapters_by_scanning doc) = Some c ->
        heading_on doc (start_page c) = true
        /\ forall i, 0 <= i < start_page c -> heading_on doc i = false)
  /\ (forall (i : nat) c c',
        chapters_by_scanning doc !! i = Some c ->
        chapters_by_scanning doc !! S i = Some c' ->
        start_page c + 2 <= start_page c' /\ start_page c + 1 <= end_page c).
Proof.
  pose proof (scan_hit_pages doc) as Hpages.
  split; [|split].
  - rewrite chapters_by_scanning_shape, dedup_hits_by_distance by apply scan_hits_nonneg.
    split.
    + intros Hnil i Hi. destruct (heading_on doc i) eqn:Hh; [|reflexivity].
      assert (Hin : i ∈ (scan_hits doc).*1.*1).
      { rewrite Hpages. apply list_elem_of_In, filter_In. split; [apply list_elem_of_In, Hi|exact Hh]. }
      destruct (scan_hits doc) as [|h hits]; [inversion Hin|discriminate].
    + intros Hno. destruct (scan_hits doc) as [|h hits]; [reflexivity|].
      assert (Hin : h.1.1 ∈ List.filter (heading_on doc) (range (len_doc doc)))
        by (rewrite <- Hpages; left).
      apply list_elem_of_In, filter_In in Hin as [Hin Hh].
      rewrite (Hno _ (proj2 (list_elem_of_In _ _) Hin)) in Hh. discriminate.
  - intros c Hc.
    rewrite chapters_by_scanning_shape, dedup_hits_by_distance in Hc by apply scan_hits_nonneg.
    pose proof (sublist_strongly_sorted _ _ (scan_hits_pages doc) (range_strongly_sorted _))
      as Hsorted.
    destruct (scan_hits doc) as [|h hits]; [discriminate|].
    cbn in Hc. injection Hc as <-. cbn [start_page chapter_of_hit].
    cbn [fmap list_fmap] in Hpages, Hsorted.
    assert (Hin : h.1.1 ∈ List.filter (heading_on doc) (range (len_doc doc)))
      by (rewrite <- Hpages; left).
    apply list_elem_of_In, filter_In in Hin as [Hin Hh]. split; [exact Hh|].
    intros i Hi. destruct (heading_on doc i) eqn:Hhi; [|reflexivity].
    assert (Hi' : i ∈ h.1.1 :: hits.*1.*1).
    { rewrite Hpages. apply list_elem_of_In, filter_In. split; [|exact Hhi].
      apply list_elem_of_In, list_elem_of_fmap. exists (Z.to_nat i). split; [lia|].
      apply list_elem_of_In, list_elem_of_fmap in Hin as (j & Hj & Hjn).
      apply elem_of_seq in Hjn. apply elem_of_seq. lia. }
    apply StronglySorted_inv in Hsorted as [_ Hall].
    apply elem_of_cons in Hi' as [->|Hi']; [lia|].
    pose proof (proj1 (Forall_forall _ _) Hall i Hi'). lia.
  - intros i c c' Hi Hsi.
    pose proof (chained_partition _ _ (chapters_by_scanning_chained doc)) as Hp.
    pose proof (gfp_adjacent _ _ Hp i c c' Hi Hsi) as Hadj.
    assert (Hstarts : start_page <$> chapters_by_scanning doc
                      = (dedup_hits (scan_hits doc)).*1.*1).
    { rewrite chapters_by_scanning_shape.
      rewrite (with_next_starts (fun h : hit => h.1.1)) by apply chapter_of_hit_start.
      rewrite <- list_fmap_compose. reflexivity. }
    pose proof (keep_apart_spaced (scan_hits doc) (-9999)) as Hs.
    rewrite <- dedup_hits_keep_apart, <- Hstarts in Hs. apply Sorted_inv in Hs as [Hs _].
    assert (H2 : start_page c + 2 <= start_page c').
    { apply (sorted_adjacent _ _ i _ _ Hs); rewrite list_lookup_fmap;
        [rewrite Hi|rewrite Hsi]; reflexivity. }
    split; [exact H2|lia].
Qed.

Lemma scanned_chapters_spacing_witness :
  heading_on running_header_book 0 = true
  /\ forall i, 0 <= i < 0 -> heading_on running_header_book i = false.
Proof.
  apply (proj1 (proj2 (scanned_chapters_spacing running_header_book))
           (mkChapter (lit "1") (lit "The Start") 0 3)).
  vm_compute. reflexivity.
Defined.

(** ** Runs of the narration loop *)

Lemma pages_entered_app evs evs' :
  pages_entered (evs ++ evs') = pages_entered evs ++ pages_entered evs'.
Proof. apply flat_map_app. Qed.

Lemma pages_entered_speak_text t : pages_entered (speak_text t) = [].
Proof. unfold speak_text. destruct (Py.truthy _); reflexivity. Qed.

Lemma pages_entered_narrate_page page raw : pages_entered (narrate_page page raw) = [page].
Proof.
  unfold narrate_page. rewrite !pages_entered_app.
  change (pages_entered [Narrating page]) with [page].
  change (pages_entered [Controls]) with (@nil Z). rewrite app_nil_r.
  destruct (Py.truthy _); [|reflexivity].
  induction (chunk_text_for_speaking _ _) as [|c cs IH]; [reflexivity|].
  cbn [flat_map]. rewrite pages_entered_app, pages_entered_speak_text. exact IH.
Qed.

Lemma goto_page_result start_page end_page page line msgs page' :
  goto_page start_page end_page page line = inr (msgs, page') ->
  pages_entered msgs = []
  /\ (page' = page \/ start_page <= page' <= end_page).
Proof.
  unfold goto_page. destruct (Py.isdigit _).
  - destruct (Py.int _) as [n|]; [|discriminate].
    destruct ((start_page <=? n - 1) && (n - 1 <=? end_page)) eqn:Hr;
      intros [= <- <-]; split; try reflexivity; [right|left; reflexivity].
    apply andb_true_iff in Hr as [H1 H2]. apply Z.leb_le in H1, H2. lia.
  - intros [= <- <-]. split; [reflexivity|left; reflexivity].
Qed.

Lemma run_ok_before doc start_page end_page page page' evs r :
  start_page <= page <= end_page ->
  pages_entered evs = [page] ->
  (end_page < page' -> page = end_page) ->
  run_ok doc start_page end_page page' r ->
  run_ok doc start_page end_page page (before evs r).
Proof.
  intros Hp Hevs Hnext (H1 & H2 & H3 & H4). unfold run_ok, before. cbn [fst snd].
  rewrite pages_entered_app, Hevs. split; [|split; [|split]].
  - constructor; [exact Hp|exact H1].
  - intros p Hw. specialize (H2 p Hw). cbn [app]. rewrite last_cons, H2. reflexivity.
  - intros Hf. right. destruct (H3 Hf) as [[Hnil Hlt]|Hl].
    + rewrite Hnil. cbn. f_equal. auto.
    + cbn [app]. rewrite last_cons, Hl. reflexivity.
  - exact H4.
Qed.

Lemma run_ok_prints doc start_page end_page page msgs r :
  pages_entered msgs = [] ->
  run_ok doc start_page end_page page r ->
  run_ok doc start_page end_page page (before msgs r).
Proof.
  intros Hm Hr. unfold run_ok, before in *. cbn [fst snd].
  rewrite pages_entered_app, Hm. exact Hr.
Qed.

Lemma run_ok_end doc start_page end_page page evs o :
  start_page <= page <= end_page ->
  pages_entered evs = [page] ->
  o = AwaitingInput page \/ o = Stopped \/ (exists e, o = Raised e /\ e <> IndexError) ->
  run_ok doc start_page end_page page (before evs ([], o)).
Proof.
  intros Hp Hevs Ho. unfold run_ok, before. cbn [fst snd].
  rewrite app_nil_r, Hevs. split; [repeat constructor; lia|]. split; [|split].
  - intros p Hw. destruct Ho as [->|[->|(e & -> & _)]]; [|discriminate..].
    injection Hw as <-. reflexivity.
  - intros Hf. destruct Ho as [->|[->|(e & -> & _)]]; discriminate.
  - intros _ _ Hr. destruct Ho as [->|[->|(e & -> & He)]]; try discriminate.
    injection Hr as ->. contradiction.
Qed.

Lemma run_ok_finished doc start_page end_page page :
  end_page < page -> run_ok doc start_page end_page page ([], Finished).
Proof.
  intros Hlt. unfold run_ok. cbn. split; [constructor|]. split; [discriminate|].
  split; [left; auto|discriminate].
Qed.

Lemma run_ok_missing doc start_page end_page page :
  start_page <= page <= end_page -> page_text doc page = None ->
  run_ok doc start_page end_page page ([], Raised IndexError).
Proof.
  intros Hp Hraw. unfold run_ok. cbn. split; [constructor|]. split; [discriminate|].
  split; [discriminate|]. intros H0 He _.
  destruct (page_text_inside doc page ltac:(lia)) as [raw Hsome]. congruence.
Qed.

Lemma narrate_from_ok doc start_page end_page (n : nat) : forall inputs page,
  (length inputs <= n)%nat -> start_page <= page ->
  run_ok doc start_page end_page page (narrate_from doc start_page end_page inputs page).
Proof.
  induction n as [|n IH]; intros inputs page Hn Hs.
  all: destruct inputs as [|line inputs]; cbn [narrate_from]; cbn [length] in Hn; try lia.
  all: destruct (Z.ltb_spec end_page page) as [Hlt|Hle];
    [apply run_ok_finished; exact Hlt|].
  all: destruct (page_text doc page) as [raw|] eqn:Hraw;
    [|apply run_ok_missing; [lia|exact Hraw]].
  all: pose proof (pages_entered_narrate_page page raw) as Hpg.
  - apply run_ok_end; [lia|exact Hpg|left; reflexivity].
  - apply run_ok_end; [lia|exact Hpg|left; reflexivity].
  - repeat case_bool_decide.
    + apply (run_ok_before _ _ _ _ (page + 1)); [lia|exact Hpg|lia|apply IH; lia].
    + apply (run_ok_before _ _ _ _ (Z.max start_page (page - 1)));
        [lia|exact Hpg|lia|apply IH; lia].
    + apply (run_ok_before _ _ _ _ page); [lia|exact Hpg|lia|apply IH; lia].
    + destruct inputs as [|val inputs]; [apply run_ok_end; [lia|exact Hpg|left; reflexivity]|].
      destruct (goto_page start_page end_page page val) as [e|[msgs page']] eqn:Hg.
      * apply run_ok_end; [lia|exact Hpg|]. right. right. exists e. split; [reflexivity|].
        unfold goto_page in Hg. destruct (Py.isdigit _); [|discriminate].
        destruct (Py.int _); [destruct (_ && _); discriminate|].
        injection Hg as <-. discriminate.
      * destruct (goto_page_result _ _ _ _ _ _ Hg) as [Hm Hp'].
        apply (run_ok_before _ _ _ _ page'); [lia|exact Hpg|lia|].
        apply run_ok_prints; [exact Hm|]. apply IH; [cbn in Hn; lia|lia].
    + apply run_ok_end; [lia|exact Hpg|right; left; reflexivity].
    + apply (run_ok_before _ _ _ _ (page + 1)); [lia|exact Hpg|lia|].
      apply run_ok_prints; [reflexivity|]. apply IH; lia.
Qed.

Lemma narrate_pages_ok doc start_page end_page inputs :
  run_ok doc start_page end_page start_page (narrate_pages doc start_page end_page inputs).
Proof.
  apply (narrate_from_ok doc start_page end_page (length inputs)); lia.
Qed.

Lemma narrate_pages_in_document doc start_page end_page inputs :
  0 <= start_page -> end_page <= len_doc doc - 1 ->
  Forall (fun p => 0 <= p <= len_doc doc - 1)
         (pages_entered (narrate_pages doc start_page end_page inputs).1)
  /\ (narrate_pages doc start_page end_page inputs).2 <> Raised IndexError.
Proof.
  intros H0 He.
  destruct (narrate_pages_ok doc start_page end_page inputs) as (H1 & _ & _ & H4).
  split; [|exact (H4 H0 He)].
  eapply Forall_impl; [exact H1|]. cbn. intros. lia.
Qed.

(** X11.  A narration session enters pages of its range only; when it waits
    for input it waits on the page it entered last; and it finishes only
    after entering the last page of the range (or at once, when the range is
    empty). *)
Theorem narration_stays_in_range doc start_page end_page inputs :
  let run := narrate_pages doc start_page end_page inputs in
  Forall (fun p => start_page <= p <= end_page) (pages_entered run.1)
  /\ (forall p, run.2 = AwaitingInput p ->
        start_page <= p <= end_page /\ last (pages_entered run.1) = Some p)
  /\ (run.2 = Finished ->
        if end_page <? start_page then run.1 = []
        else last (pages_entered run.1) = Some end_page).
Proof.
  cbv zeta.
  destruct (narrate_pages_ok doc start_page end_page inputs) as (H1 & H2 & H3 & _).
  split; [exact H1|]. split.
  - intros p Hw. specialize (H2 p Hw). split; [|exact H2].
    apply last_Some in H2 as [l' Hl]. rewrite Hl in H1.
    apply Forall_app in H1 as [_ H1]. apply Forall_cons in H1 as [H1 _]. exact H1.
  - intros Hf. destruct (Z.ltb_spec end_page start_page) as [Hlt|Hle].
    + unfold narrate_pages. destruct inputs; cbn [narrate_from];
        (replace (end_page <? start_page) with true by (symmetry; apply Z.ltb_lt; lia));
        reflexivity.
    + destruct (H3 Hf) as [[_ Hlt]|Hl]; [lia|exact Hl].
Qed.

Lemma narration_stays_in_range_witness :
  4 <= 6 <= 9
  /\ last (pages_entered
             (narrate_pages plain_book 4 9 [lit "g"; lit "7"; lit "g"; lit "99"]).1)
     = Some 6.
Proof.
  apply (proj1 (proj2 (narration_stays_in_range plain_book 4 9
                         [lit "g"; lit "7"; lit "g"; lit "99"]))).
  vm_compute. reflexivity.
Defined.

(** X12.  When the range lies in the document, no page of the session is
    missing: the run never ends with an [IndexError]. *)
Theorem narration_finds_its_pages doc start_page end_page inputs :
  0 <= start_page -> end_page <= len_doc doc - 1 ->
  (narrate_pages doc start_page end_page inputs).2 <> Raised IndexError.
Proof.
  intros H0 He.
  destruct (narrate_pages_ok doc start_page end_page inputs) as (_ & _ & _ & H4).
  exact (H4 H0 He).
Qed.

Lemma narration_finds_its_pages_witness :
  (narrate_pages plain_book 4 9 [lit "b"; []; lit "x"]).2 <> Raised IndexError.
Proof.
  apply (narration_finds_its_pages plain_book 4 9); [lia|vm_compute; discriminate].
Defined.

(** X13.  Only the command [g] can make the session fail on its input: a
    run in which [g] is never entered does not end with a [ValueError]; with
    the range inside the document it ends in one of three ways: the range is
    exhausted, the user stopped it, or the input ran out at a prompt. *)
Theorem narration_fails_only_on_goto doc start_page end_page inputs :
  Forall (fun line => command line <> lit "g") inputs ->
  (narrate_pages doc start_page end_page inputs).2 <> Raised ValueError
  /\ (0 <= start_page -> end_page <= len_doc doc - 1 ->
      (narrate_pages doc start_page end_page inputs).2 = Finished
      \/ (narrate_pages doc start_page end_page inputs).2 = Stopped
      \/ exists page, start_page <= page <= end_page
                      /\ (narrate_pages doc start_page end_page inputs).2 = AwaitingInput page).
Proof.
  intros Hg.
  assert (H : forall page,
            (narrate_from doc start_page end_page inputs page).2 <> Raised ValueError).
  { induction Hg as [|line inputs Hline _ IH]; intros page; cbn [narrate_from].
    - destruct (_ <? _); [discriminate|]. destruct (page_text doc page); discriminate.
    - destruct (_ <? _); [discriminate|]. destruct (page_text doc page); [|discriminate].
      unfold command in Hline. cbn [before snd].
      repeat case_bool_decide; try apply IH; try discriminate. contradiction. }
  split; [apply H|]. intros H0 He.
  pose proof (narrate_pages_ok doc start_page end_page inputs) as (H1 & H2 & _ & H4).
  specialize (H start_page). fold (narrate_pages doc start_page end_page inputs) in H.
  destruct ((narrate_pages doc start_page end_page inputs).2) as [| |page|[|]] eqn:Ho.
  - left. reflexivity.
  - right. left. reflexivity.
  - right. right. exists page. split; [|reflexivity].
    pose proof (H2 page eq_refl) as Hl. apply last_Some in Hl as [l' Hl]. rewrite Hl in H1.
    apply Forall_app in H1 as [_ H1]. apply Forall_cons in H1 as [H1 _]. exact H1.
  - contradiction.
  - destruct (H4 H0 He eq_refl).
Qed.

Lemma narration_fails_only_on_goto_witness :
  (narrate_pages plain_book 4 9 [lit "b"; []; lit "x"]).2 <> Raised ValueError
  /\ ((narrate_pages plain_book 4 9 [lit "b"; []; lit "x"]).2 = Finished
      \/ (narrate_pages plain_book 4 9 [lit "b"; []; lit "x"]).2 = Stopped
      \/ exists page, 4 <= page <= 9
                      /\ (narrate_pages plain_book 4 9 [lit "b"; []; lit "x"]).2
                         = AwaitingInput page).
Proof.
  assert (Hin : Forall (fun line => command line <> lit "g") [lit "b"; []; lit "x"])
    by (repeat constructor; vm_compute; discriminate).
  split.
  - apply (proj1 (narration_fails_only_on_goto plain_book 4 9 _ Hin)).
  - apply (proj2 (narration_fails_only_on_goto plain_book 4 9 _ Hin)); [lia|].
    vm_compute. discriminate.
Defined.

Lemma narrate_from_enter doc start_page end_page (k : nat) : forall page,
  0 <= page -> end_page <= len_doc doc - 1 ->
  page + Z.of_nat k = end_page + 1 ->
  pages_entered (narrate_from doc start_page end_page (replicate k []) page).1
  = (fun i => page + Z.of_nat i) <$> seq 0 k
  /\ (narrate_from doc start_page end_page (replicate k []) page).2 = Finished.
Proof.
  induction k as [|k IH]; intros page H0 He Hk; cbn [replicate narrate_from].
  - replace (end_page <? page) with true by (symmetry; apply Z.ltb_lt; lia).
    split; reflexivity.
  - replace (end_page <? page) with false by (symmetry; apply Z.ltb_ge; lia).
    destruct (page_text_inside doc page ltac:(lia)) as [raw ->].
    change (Py.lower (Py.strip [])) with (@nil char). rewrite bool_decide_eq_true_2 by reflexivity.
    destruct (IH (page + 1) ltac:(lia) He ltac:(lia)) as [IH1 IH2].
    unfold before. cbn [fst snd]. split; [|exact IH2].
    rewrite pages_entered_app, pages_entered_narrate_page, IH1. cbn [seq fmap list_fmap app].
    f_equal; [f_equal; lia|]. rewrite <- seq_shift, <- list_fmap_compose.
    apply list_fmap_ext. intros i x _. cbn. lia.
Qed.

(** X14.  Pressing Enter once per page walks through the range: started on
    a range inside the document, the session enters every page from the
    first to the last, in order and once, and then finishes. *)
Theorem narration_walks_through_range doc start_page end_page :
  0 <= start_page <= end_page + 1 -> end_page <= len_doc doc - 1 ->
  let run := narrate_pages doc start_page end_page
               (replicate (Z.to_nat (end_page - start_page + 1)) []) in
  pages_entered run.1 = (fun i => start_page + i) <$> range (end_page - start_page + 1)
  /\ run.2 = Finished.
Proof.
  intros Hs He. cbv zeta.
  destruct (narrate_from_enter doc start_page end_page
              (Z.to_nat (end_page - start_page + 1)) start_page) as [H1 H2]; try lia.
  split; [|exact H2]. unfold narrate_pages. rewrite H1. unfold range.
  rewrite <- list_fmap_compose. reflexivity.
Qed.

Lemma narration_walks_through_range_witness :
  pages_entered (narrate_pages plain_book 4 9 (replicate 6 [])).1 = [4; 5; 6; 7; 8; 9]
  /\ (narrate_pages plain_book 4 9 (replicate 6 [])).2 = Finished.
Proof.
  apply (narration_walks_through_range plain_book 4 9); [lia|vm_compute; discriminate].
Defined.

(** ** Choosing from a list *)

Lemma choose_from_list_answer_inv {A : Type} (items : list A) inputs : forall evs idx rest,
  choose_from_list items inputs = (evs, Answer idx rest) ->
  0 <= idx < Z.of_nat (length items)
  /\ exists skipped line,
       inputs = skipped ++ line :: rest
       /\ Py.isdigit (Py.strip line) = true
       /\ Py.int (Py.strip line) = Some (idx + 1)
       /\ evs = map (fun _ => Print INVALID_SELECTION) skipped
       /\ Forall (fun l => choose_from_list items [l] = ([Print INVALID_SELECTION], NoInput))
                 skipped.
Proof.
  induction inputs as [|line inputs IH]; intros evs idx rest; cbn [choose_from_list];
    [discriminate|].
  cbv zeta.
  assert (Hagain :
    (Print INVALID_SELECTION :: (choose_from_list items inputs).1,
     (choose_from_list items inputs).2) = (evs, Answer idx rest) ->
    choose_from_list items [line] = ([Print INVALID_SELECTION], NoInput) ->
    0 <= idx < Z.of_nat (length items)
    /\ exists skipped line0,
         line :: inputs = skipped ++ line0 :: rest
         /\ Py.isdigit (Py.strip line0) = true
         /\ Py.int (Py.strip line0) = Some (idx + 1)
         /\ evs = map (fun _ => Print INVALID_SELECTION) skipped
         /\ Forall (fun l => choose_from_list items [l] = ([Print INVALID_SELECTION], NoInput))
                   skipped).
  { destruct (choose_from_list items inputs) as [evs' r] eqn:Hrec. cbn [fst snd].
    intros [= <- ->] Hrej.
    destruct (IH _ _ _ eq_refl) as (Hidx & skipped & line0 & -> & Hd & Hi & -> & Hsk).
    split; [exact Hidx|]. exists (line :: skipped), line0.
    repeat split; auto. }
  destruct (Py.isdigit (Py.strip line)) eqn:Hd.
  - destruct (Py.int (Py.strip line)) as [n|] eqn:Hi; [|discriminate].
    destruct ((0 <=? n - 1) && (n - 1 <? Z.of_nat (length items))) eqn:Hr.
    + intros [= <- <- <-]. apply andb_true_iff in Hr as [H1 H2].
      apply Z.leb_le in H1. apply Z.ltb_lt in H2. split; [lia|].
      exists [], line. repeat split; auto. rewrite Hi. f_equal. lia.
    + intros H. apply Hagain; [exact H|].
      cbn [choose_from_list]. cbv zeta. rewrite Hd, Hi, Hr. reflexivity.
  - intros H. apply Hagain; [exact H|].
    cbn [choose_from_list]. cbv zeta. rewrite Hd. reflexivity.
Qed.

Lemma getitem_inside {A : Type} (l : list A) i :
  0 <= i < Z.of_nat (length l) -> exists x, getitem l i = Some x /\ x ∈ l.
Proof.
  intros Hi. unfold getitem.
  replace (0 <=? i) with true by (symmetry; apply Z.leb_le; lia).
  destruct (lookup_lt_is_Some_2 l (Z.to_nat i) ltac:(lia)) as [x Hx].
  exists x. split; [exact Hx|]. exact (list_elem_of_lookup_2 _ _ _ Hx).
Qed.

(** X15.  [choose_from_list] answers with the zero-based index of the first
    line that is a one-based item number: the index lies in the list, every
    line before it was rejected with one message each, and the lines behind
    it are left for the next prompt.  On an empty list it never answers. *)
Theorem choose_from_list_first_valid {A : Type} (items : list A) inputs evs idx rest :
  choose_from_list items inputs = (evs, Answer idx rest) ->
  is_Some (getitem items idx)
  /\ 0 <= idx < Z.of_nat (length items)
  /\ exists skipped line,
       inputs = skipped ++ line :: rest
       /\ Py.int (Py.strip line) = Some (idx + 1)
       /\ evs = map (fun _ => Print INVALID_SELECTION) skipped
       /\ Forall (fun l => choose_from_list items [l] = ([Print INVALID_SELECTION], NoInput))
                 skipped.
Proof.
  intros H.
  destruct (choose_from_list_answer_inv items inputs _ _ _ H)
    as (Hidx & skipped & line & Hin & _ & Hi & Hev & Hsk).
  split; [|split; [exact Hidx|eauto 10]].
  destruct (getitem_inside items idx Hidx) as (x & -> & _). eauto.
Qed.

Lemma choose_from_list_first_valid_witness :
  is_Some (getitem [lit "a"; lit "b"; lit "c"] 1)
  /\ 0 <= 1 < Z.of_nat (length [lit "a"; lit "b"; lit "c"])
  /\ exists skipped line,
       [lit "0"; lit "x"; lit " 2 "; lit "3"] = skipped ++ line :: [lit "3"]
       /\ Py.int (Py.strip line) = Some (1 + 1)
       /\ [Print INVALID_SELECTION; Print INVALID_SELECTION] =
          map (fun _ => Print INVALID_SELECTION) skipped
       /\ Forall (fun l => choose_from_list [lit "a"; lit "b"; lit "c"] [l]
                           = ([Print INVALID_SELECTION], NoInput)) skipped.
Proof.
  apply (choose_from_list_first_valid [lit "a"; lit "b"; lit "c"]
           [lit "0"; lit "x"; lit " 2 "; lit "3"]).
  vm_compute. reflexivity.
Defined.

(** ** The manual fallback *)

Lemma fallback_range_bounds n sp ep start_page end_page :
  1 <= n -> fallback_range n sp ep = inr (Some (start_page, end_page)) ->
  0 <= start_page <= end_page /\ end_page <= n - 1.
Proof.
  intros Hn. unfold fallback_range. destruct (_ && _); [|discriminate].
  destruct (Py.int sp) as [a|]; [|discriminate]. destruct (Py.int ep) as [b|]; [|discriminate].
  pose proof (clamp_start_range n a Hn). pose proof (clamp_start_range n b Hn).
  cbv zeta. destruct (Z.ltb_spec (clamp_start n b) (clamp_start n a)); intros [= <- <-]; lia.
Qed.

Lemma fallback_range_fails n sp ep e : fallback_range n sp ep = inl e -> e = ValueError.
Proof.
  unfold fallback_range. destruct (_ && _); [|discriminate].
  destruct (Py.int sp); [destruct (Py.int ep); [discriminate|]|]; intros [= <-]; reflexivity.
Qed.

(** X16.  The range of the manual fallback lies in the document and is in
    order, whatever numbers were entered and in whichever order, as long as
    the document has a page; lines that are not numbers give no range. *)
Theorem fallback_range_in_document n sp ep :
  (forall start_page end_page,
     1 <= n -> fallback_range n sp ep = inr (Some (start_page, end_page)) ->
     0 <= start_page <= end_page /\ end_page <= n - 1)
  /\ (Py.isdigit sp && Py.isdigit ep = false -> fallback_range n sp ep = inr None).
Proof.
  split.
  - intros s e Hn. apply fallback_range_bounds, Hn.
  - intros H. unfold fallback_range. rewrite H. reflexivity.
Qed.

Lemma fallback_range_in_document_witness :
  0 <= 4 <= 9 /\ 9 <= 12 - 1.
Proof.
  apply (proj1 (fallback_range_in_document 12 (lit "10") (lit "5")) 4 9); [lia|].
  vm_compute. reflexivity.
Defined.

(** ** From the chapters to the session *)

Lemma pages_entered_invalid (skipped : list text) :
  pages_entered (map (fun _ => Print INVALID_SELECTION) skipped) = [].
Proof. induction skipped; [reflexivity|exact IHskipped]. Qed.

Lemma choose_from_list_prints {A : Type} (items : list A) inputs :
  pages_entered (choose_from_list items inputs).1 = [].
Proof.
  induction inputs as [|l inputs IH]; cbn [choose_from_list]; [reflexivity|]. cbv zeta.
  destruct (Py.isdigit _); [destruct (Py.int _); [destruct (_ && _)|]|];
    try reflexivity; exact IH.
Qed.

Lemma choose_from_list_fails {A : Type} (items : list A) inputs e :
  (choose_from_list items inputs).2 = Failed e -> e = ValueError.
Proof.
  induction inputs as [|l inputs IH]; cbn [choose_from_list]; [discriminate|]. cbv zeta.
  destruct (Py.isdigit _); [destruct (Py.int _); [destruct (_ && _)|]|];
    cbn [snd]; try discriminate; try exact IH.
  intros [= <-]. reflexivity.
Qed.

(** X17.  On a document with at least one page, [main] narrates pages of the
    document only, whether the range comes from a chapter or from the manual
    fallback: the chapter chosen exists, every page entered exists, and no
    [IndexError] ends the run. *)
Theorem main_narrates_inside_document doc inputs :
  1 <= len_doc doc ->
  let run := narrate_document doc inputs in
  Forall (fun p => 0 <= p <= len_doc doc - 1) (pages_entered run.1)
  /\ run.2 <> Crashed IndexError
  /\ run.2 <> Narrated (Raised IndexError).
Proof.
  intros Hn. cbv zeta. unfold narrate_document.
  destruct (detect_chapters doc) as [|c0 chs] eqn:Hdet.
  - destruct inputs as [|sp [|ep inputs]]; try (repeat split; [constructor|discriminate..]).
    destruct (fallback_range _ _ _) as [e|[[s e]|]] eqn:Hf.
    + rewrite (fallback_range_fails _ _ _ _ Hf).
      repeat split; [constructor|discriminate..].
    + destruct (fallback_range_bounds _ _ _ s e Hn Hf) as [Hs He]. cbn [fst snd].
      destruct (narrate_pages_in_document doc s e inputs ltac:(lia) He) as [H1 H2].
      split; [exact H1|]. split; [discriminate|]. intros [= H]. exact (H2 H).
    + repeat split; [repeat constructor|discriminate..].
  - rewrite <- Hdet.
    pose proof (choose_from_list_prints (map title (detect_chapters doc)) inputs) as Hev.
    pose proof (choose_from_list_fails (map title (detect_chapters doc)) inputs) as Hfail.
    destruct (choose_from_list _ inputs) as [evs [idx rest| |e]] eqn:Hc; cbn [fst snd] in *.
    + destruct (choose_from_list_answer_inv _ _ _ _ _ Hc) as (Hidx & _).
      rewrite length_map in Hidx.
      destruct (getitem_inside (detect_chapters doc) idx Hidx) as (ch & -> & Hch).
      destruct (detect_chapters_bounds doc ch Hn Hch) as (Hs & He).
      cbn [fst snd]. rewrite pages_entered_app, Hev. cbn [app].
      destruct (narrate_pages_in_document doc (start_page ch) (end_page ch) rest
                  Hs ltac:(lia)) as [H1 H2].
      split; [exact H1|]. split; [discriminate|]. intros [= H]. exact (H2 H).
    + rewrite Hev. split; [constructor|split; discriminate].
    + rewrite Hev, (Hfail e eq_refl). split; [constructor|split; discriminate].
Qed.

Lemma main_narrates_inside_document_witness :
  (narrate_document two_chapter_book [lit "2"; []; lit "q"]).2 <> Crashed IndexError.
Proof.
  refine (proj1 (proj2 (main_narrates_inside_document two_chapter_book
                          [lit "2"; []; lit "q"] _))).
  vm_compute. discriminate.
Defined.

(** ** A document without pages *)

Lemma detected_chapter_ordered doc c :
  c ∈ detect_chapters doc -> start_page c <= end_page c.
Proof.
  intros Hc.
  assert (H : c ∈ chapters_from_toc doc \/ c ∈ chapters_by_scanning doc).
  { unfold detect_chapters in Hc. destruct (chapters_from_toc doc); [right|left]; exact Hc. }
  destruct H as [H|H].
  - rewrite chapters_from_toc_unfold in H.
    apply with_next_elem in H as (x & next & _ & ->). cbn. lia.
  - rewrite chapters_by_scanning_shape in H.
    apply with_next_elem in H as (x & next & _ & ->). cbn. lia.
Qed.

Lemma narrate_pages_no_page doc start_page end_page inputs :
  len_doc doc = 0 -> start_page <= end_page ->
  narrate_pages doc start_page end_page inputs = ([], Raised IndexError).
Proof.
  intros Hn Hle. unfold narrate_pages.
  assert (Hraw : page_text doc start_page = None).
  { unfold page_text, len_doc in *. destruct (pages doc); [|discriminate].
    destruct (_ <? _); reflexivity. }
  destruct inputs; cbn [narrate_from]; rewrite Hraw;
    (replace (end_page <? start_page) with false by (symmetry; apply Z.ltb_ge; lia));
    reflexivity.
Qed.

(** X21.  A document without pages cannot be narrated: whichever way the
    range is chosen, by chapter or by the manual fallback, a session that
    starts fails on its first page with an [IndexError], before any page is
    entered. *)
Theorem empty_document_fails_at_first_page doc inputs evs o :
  len_doc doc = 0 ->
  narrate_document doc inputs = (evs, Narrated o) ->
  o = Raised IndexError /\ pages_entered evs = [].
Proof.
  intros Hn. unfold narrate_document.
  destruct (detect_chapters doc) as [|c0 chs] eqn:Hdet.
  - destruct inputs as [|sp [|ep inputs]]; try discriminate.
    destruct (fallback_range _ _ _) as [e|[[s e]|]] eqn:Hf; try discriminate.
    assert (Hse : s <= e).
    { unfold fallback_range in Hf. destruct (_ && _); [|discriminate].
      destruct (Py.int _) as [a|]; [|discriminate]. destruct (Py.int _) as [b|]; [|discriminate].
      cbv zeta in Hf.
      destruct (Z.ltb_spec (clamp_start (len_doc doc) b) (clamp_start (len_doc doc) a));
        injection Hf as <- <-; lia. }
    rewrite (narrate_pages_no_page doc s e inputs Hn Hse). intros [= <- <-]. auto.
  - rewrite <- Hdet.
    pose proof (choose_from_list_prints (map title (detect_chapters doc)) inputs) as Hev.
    destruct (choose_from_list _ inputs) as [evs' [idx rest| |e]]; try discriminate.
    cbn [fst] in Hev.
    destruct (getitem (detect_chapters doc) idx) as [ch|] eqn:Hget; [|discriminate].
    assert (Hch : ch ∈ detect_chapters doc).
    { unfold getitem in Hget.
      destruct (0 <=? idx); [exact (list_elem_of_lookup_2 _ _ _ Hget)|].
      destruct (_ <=? idx); [exact (list_elem_of_lookup_2 _ _ _ Hget)|discriminate]. }
    rewrite (narrate_pages_no_page doc _ _ rest Hn (detected_chapter_ordered doc ch Hch)).
    intros [= <- <-]. rewrite app_nil_r. auto.
Qed.

Lemma empty_document_fails_at_first_page_witness :
  Raised IndexError = Raised IndexError /\ pages_entered [] = [].
Proof.
  apply (empty_document_fails_at_first_page empty_book [lit "1"; lit "q"]);
    vm_compute; reflexivity.
Defined.

(** ** Listing the books *)

Lemma text_ltb_asym a : forall b, text_ltb a b = true -> text_ltb b a = false.
Proof.
  induction a as [|x a IH]; intros [|y b]; cbn; try reflexivity; try discriminate.
  intros H. apply orb_true_iff in H as [H|H].
  - apply N.ltb_lt in H. apply orb_false_iff. split; [apply N.ltb_ge; lia|].
    apply andb_false_iff. left. apply N.eqb_neq. lia.
  - apply andb_true_iff in H as [He H]. apply N.eqb_eq in He. rewrite He.
    rewrite N.ltb_irrefl, N.eqb_refl. cbn. apply IH, H.
Qed.

Lemma text_le_trans a : forall b c, text_le a b -> text_le b c -> text_le a c.
Proof.
  unfold text_le. induction a as [|x a IH]; intros [|y b] [|z c]; cbn;
    try reflexivity; try discriminate.
  intros H1 H2. apply orb_false_iff in H1 as [H1 H1'], H2 as [H2 H2'].
  apply N.ltb_ge in H1, H2. apply orb_false_iff. split; [apply N.ltb_ge; lia|].
  apply andb_false_iff.
  destruct (N.eqb_spec (Py.code z) (Py.code x)) as [Hzx|]; [right|left; reflexivity].
  assert (Hy : Py.code y = Py.code x) by lia.
  rewrite Hy, N.eqb_refl in H1'. rewrite Hzx, <- Hy, N.eqb_refl in H2'. cbn in H1', H2'.
  exact (IH b c H1' H2').
Qed.

Lemma insert_by_key_perm key x l : insert_by_key key x l ≡ₚ x :: l.
Proof.
  induction l as [|y l IH]; cbn; [reflexivity|].
  destruct (text_ltb _ _); [|reflexivity]. rewrite IH. apply Permutation_swap.
Qed.

Lemma sorted_by_key_perm key l : sorted_by_key key l ≡ₚ l.
Proof.
  induction l as [|x l IH]; cbn; [reflexivity|].
  rewrite insert_by_key_perm, IH. reflexivity.
Qed.

Lemma insert_by_key_sorted key x l :
  StronglySorted (fun p q => text_le (key p) (key q)) l ->
  StronglySorted (fun p q => text_le (key p) (key q)) (insert_by_key key x l).
Proof.
  induction l as [|y l IH]; intros Hs; cbn; [repeat constructor|].
  apply StronglySorted_inv in Hs as [Hs Hy].
  destruct (text_ltb (key y) (key x)) eqn:Hlt.
  - constructor; [apply IH, Hs|]. rewrite (insert_by_key_perm key x l).
    constructor; [exact (text_ltb_asym _ _ Hlt)|exact Hy].
  - constructor; [constructor; assumption|]. constructor; [exact Hlt|].
    eapply Forall_impl; [exact Hy|]. cbn. intros z Hz.
    exact (text_le_trans _ _ _ Hlt Hz).
Qed.

Lemma sorted_by_key_sorted key l :
  StronglySorted (fun p q => text_le (key p) (key q)) (sorted_by_key key l).
Proof.
  induction l as [|x l IH]; cbn; [constructor|]. apply insert_by_key_sorted, IH.
Qed.

Lemma basename_from_plain name : forall cur,
  SEP ∉ name -> basename_from cur name = cur ++ name.
Proof.
  induction name as [|c name IH]; intros cur Hn; cbn; [rewrite app_nil_r; reflexivity|].
  destruct (char_eqb_spec c SEP) as [->|_]; [destruct Hn; left|].
  rewrite IH, <- app_assoc; [reflexivity|]. intros H. apply Hn. right. exact H.
Qed.

Lemma basename_from_behind w name : forall cur,
  basename_from cur (w ++ SEP :: name) = basename_from [] name.
Proof.
  induction w as [|c w IH]; intros cur; cbn [app basename_from].
  - rewrite char_eqb_refl. reflexivity.
  - destruct (char_eqb c SEP); apply IH.
Qed.

Lemma endswith_sep a : endswith a [SEP] = true -> exists w, a = w ++ [SEP].
Proof.
  unfold endswith. cbn. intros H. exists (rev (tail (rev a))).
  destruct (rev a) as [|c t] eqn:Hr; [discriminate|].
  apply andb_true_iff in H as [H _]. apply char_eqb_eq in H. subst c.
  cbn. rewrite <- (rev_involutive a), Hr. reflexivity.
Qed.

Lemma basename_path_join folder name :
  SEP ∉ name -> basename (path_join folder name) = name.
Proof.
  intros Hn. unfold path_join, basename.
  assert (Hs : startswith name [SEP] = false).
  { destruct name as [|c name]; [reflexivity|]. cbn.
    destruct (char_eqb_spec c SEP) as [->|_]; [destruct Hn; left|reflexivity]. }
  rewrite Hs. destruct folder as [|f folder]; [exact (basename_from_plain name [] Hn)|].
  cbn [Py.truthy negb orb].
  destruct (endswith (f :: folder) [SEP]) eqn:He.
  - apply endswith_sep in He as [w ->]. rewrite <- app_assoc. cbn [app].
    etrans; [exact (basename_from_behind w name [])|exact (basename_from_plain name [] Hn)].
  - etrans; [exact (basename_from_behind (f :: folder) name [])|].
    exact (basename_from_plain name [] Hn).
Qed.

Lemma basename_path_join_all folder names :
  Forall (fun name => SEP ∉ name) names ->
  basename <$> map (path_join folder) names = names.
Proof.
  induction 1 as [|name names Hn _ IH]; [reflexivity|].
  cbn [map fmap list_fmap]. rewrite (basename_path_join folder name Hn). f_equal. exact IH.
Qed.

Lemma names_without_sep (listing : list text) :
  forallb (forallb (fun c => negb (char_eqb c SEP))) listing = true ->
  Forall (fun name => SEP ∉ name) listing.
Proof.
  intros H. apply Forall_forall. intros name Hin Hsep.
  apply list_elem_of_In in Hin, Hsep.
  pose proof (proj1 (forallb_forall _ _) (proj1 (forallb_forall _ _) H name Hin) SEP Hsep) as E.
  cbv beta in E. rewrite char_eqb_refl in E. discriminate.
Qed.

(** X20.  [list_pdf_files] fails exactly when the folder is no directory.
    Otherwise, as the names of a directory hold no separator, it returns the
    paths of the files whose name ends in [.pdf] in any case, each as often
    as it is listed, every path being the folder joined with the name; and
    the paths are in the order of their lower-cased names. *)
Theorem books_listed_in_name_order isdir folder listing :
  Forall (fun name => SEP ∉ name) listing ->
  (list_pdf_files isdir folder listing = None <-> isdir = false)
  /\ forall paths, list_pdf_files isdir folder listing = Some paths ->
       basename <$> paths ≡ₚ List.filter is_pdf listing
       /\ paths = path_join folder <$> (basename <$> paths)
       /\ StronglySorted (fun p q => text_le (Py.lower (basename p)) (Py.lower (basename q)))
                         paths.
Proof.
  intros Hnames. unfold list_pdf_files. destruct isdir; cbn [negb].
  - split; [split; discriminate|]. intros paths [= <-].
    set (names := List.filter is_pdf listing).
    assert (Hpdf : Forall (fun name => SEP ∉ name) names).
    { apply Forall_forall. intros name Hin. apply list_elem_of_In, filter_In in Hin as [Hin _].
      apply list_elem_of_In in Hin. exact (proj1 (Forall_forall _ _) Hnames name Hin). }
    pose proof (sorted_by_key_perm book_key (map (path_join folder) names)) as Hperm.
    assert (Hbase : basename <$> sorted_by_key book_key (map (path_join folder) names)
                    ≡ₚ names).
    { rewrite Hperm. rewrite (basename_path_join_all folder names Hpdf). reflexivity. }
    split; [exact Hbase|]. split; [|apply (sorted_by_key_sorted book_key)].
    assert (Hall : Forall (fun p => p = path_join folder (basename p))
                          (sorted_by_key book_key (map (path_join folder) names))).
    { rewrite Hperm. apply Forall_forall. intros p Hp.
      apply list_elem_of_In, in_map_iff in Hp as (name & <- & Hin).
      rewrite (basename_path_join folder name); [reflexivity|].
      apply list_elem_of_In in Hin. exact (proj1 (Forall_forall _ _) Hpdf name Hin). }
    clear Hperm Hbase. induction Hall as [|p ps Hp _ IH]; [reflexivity|].
    cbn [fmap list_fmap]. f_equal; [exact Hp|exact IH].
  - split; [split; reflexivity|]. discriminate.
Qed.

Lemma books_listed_in_name_order_witness :
  basename <$> [lit "/books/Apple.pdf"; lit "/books/zebra.PDF"]
    ≡ₚ List.filter is_pdf some_listing
  /\ [lit "/books/Apple.pdf"; lit "/books/zebra.PDF"] =
     path_join (lit "/books") <$> (basename <$> [lit "/books/Apple.pdf"; lit "/books/zebra.PDF"])
  /\ StronglySorted (fun p q => text_le (Py.lower (basename p)) (Py.lower (basename q)))
                    [lit "/books/Apple.pdf"; lit "/books/zebra.PDF"].
Proof.
  refine (proj2 (books_listed_in_name_order true (lit "/books") some_listing _) _ _).
  - apply names_without_sep. vm_compute. reflexivity.
  - vm_compute. reflexivity.
Defined.

